(** * CV-Analyzer: string matching, scoring and ranking

    A shallow embedding of
      - [engine/algorithms.py]  (Brute Force, Rabin-Karp, KMP),
      - [engine/analyzer.py]    (single-CV scoring, batch statistics, ranking),
      - [extractors/pdf_extractor.py] (validation and timing of an extraction),
    followed by the properties of these functions.

    Conventions of the embedding.
      - A Python [str] is the list of its code points ([list Z]); [ord] is the
        identity.  Names that are only compared with literals (algorithm
        names, file names) are [string]s.
      - Loop counters and indices are [nat]: every subtraction on them in the
        source is guarded ([m > n] returns early, [j != 0], [length != 0]) or
        covered by a loop invariant proved below ([j <= i] in KMP).
      - Indexing [l[i]] is [getitem], which raises [IndexError] out of range.
      - Python [float] is IEEE binary64, i.e. Rocq's primitive [float].
      - [while] loops whose termination depends on the data carry a bound on
        the number of iterations; reaching the bound yields [Unfinished], and
        the theorems show that this never happens.
      - Wall-clock fields ([execution_time], [timestamp]) are left out of the
        search and analysis records; the extractor, whose timing is a subject
        of its own, takes the clock readings as arguments. *)

From Stdlib Require Import ZArith List Floats Uint63 Lia Sorted Bool.
From Stdlib Require Import String Ascii.
From stdpp Require Import base list.
Import ListNotations.

#[local] Set Warnings "-inexact-float".

(* ================================================================== *)
(** * Outcomes of a Python call *)

Inductive exn : Type :=
| IndexError
| ValueError (msg : string)
| OSError.

Inductive outcome (A : Type) : Type :=
| Return (a : A)
| Raise (e : exn)
| Unfinished.
Arguments Return {A} a.
Arguments Raise {A} e.
Arguments Unfinished {A}.

Definition bind {A B : Type} (m : outcome A) (k : A -> outcome B) : outcome B :=
  match m with
  | Return a => k a
  | Raise e => Raise e
  | Unfinished => Unfinished
  end.

Notation "x <- m ;; k" := (bind m (fun x => k))
  (at level 100, m at next level, right associativity).

Definition omap {A B : Type} (f : A -> B) (m : outcome A) : outcome B :=
  x <- m ;; Return (f x).

(** [l[i]] for an index that is known to be non-negative. *)
Definition getitem {A : Type} (l : list A) (i : nat) : outcome A :=
  match l !! i with
  | Some x => Return x
  | None => Raise IndexError
  end.

(** [l[i] = x]. *)
Definition setitem {A : Type} (l : list A) (i : nat) (x : A) : outcome (list A) :=
  if i <? length l then Return (<[i := x]> l) else Raise IndexError.

(** [for i in range(k): s = body(i, s)], started at [i = lo]. *)
Fixpoint for_range {St : Type} (lo k : nat) (body : nat -> St -> outcome St) (s : St)
  : outcome St :=
  match k with
  | O => Return s
  | S k' => s' <- body lo s ;; for_range (S lo) k' body s'
  end.

(* ================================================================== *)
(** * Strings *)

Abbreviation str := (list Z).

Definition ord (c : Z) : Z := c.

(** A string literal as a Python string (code points below 256). *)
Definition py (s : string) : str :=
  map (fun a => Z.of_N (N_of_ascii a)) (list_ascii_of_string s).

(** [str.lower] restricted to ASCII letters; used to run the definitions on
    concrete inputs.  The functions below take [lower] as a parameter. *)
Definition ascii_lower (s : str) : str :=
  map (fun c => if (65 <=? c)%Z && (c <=? 90)%Z then (c + 32)%Z else c) s.

(** The characters for which [str.isspace] holds. *)
Definition is_space (c : Z) : bool :=
  ((9 <=? c) && (c <=? 13) || (28 <=? c) && (c <=? 32) || (c =? 133) || (c =? 160)
   || (c =? 5760) || (8192 <=? c) && (c <=? 8202) || (c =? 8232) || (c =? 8233)
   || (c =? 8239) || (c =? 8287) || (c =? 12288))%Z.

Fixpoint lstrip (s : str) : str :=
  match s with
  | [] => []
  | c :: s' => if is_space c then lstrip s' else s
  end.

Definition rstrip (s : str) : str := rev (lstrip (rev s)).

(** [s.strip()] *)
Definition strip (s : str) : str := rstrip (lstrip s).

(** Empty or whitespace-only. *)
Definition blank (s : str) : bool := forallb is_space s.

Fixpoint str_eqb (a b : str) : bool :=
  match a, b with
  | [], [] => true
  | x :: a', y :: b' => (x =? y)%Z && str_eqb a' b'
  | _, _ => false
  end.

(** [s.endswith(suffix)] *)
Definition endswith (s suffix : str) : bool :=
  (length suffix <=? length s) && str_eqb (drop (length s - length suffix) s) suffix.

(* ================================================================== *)
(** * engine/algorithms.py *)

Module Algorithms.

Record SearchResult : Type := mkSearchResult {
  matches : list nat;
  comparisons : nat;
  algorithm_name : string;
  pattern_length : nat;
  text_length : nat
}.

(** [self.base], [self.prime] *)
Definition base : Z := 256.
Definition prime : Z := 101.

(** The verification loop, written out identically in [brute_force_search]
    and in [rabin_karp_search]:
<<
    while j < m and text[i + j] == pattern[j]:
        comparisons += 1
        j += 1
>>
    It returns the final [(j, comparisons)]. *)
Fixpoint compare_window (fuel : nat) (text pattern : str) (m i j comparisons : nat)
  : outcome (nat * nat) :=
  match fuel with
  | O => Unfinished
  | S fuel' =>
      if j <? m then
        a <- getitem text (i + j) ;;
        b <- getitem pattern j ;;
        if (a =? b)%Z
        then compare_window fuel' text pattern m i (j + 1) (comparisons + 1)
        else Return (j, comparisons)
      else Return (j, comparisons)
  end.

(** One start offset of [brute_force_search]; the state is
    [(matches, comparisons)]. *)
Definition brute_force_body (text pattern : str) (m : nat) (i : nat)
    (st : list nat * nat) : outcome (list nat * nat) :=
  let '(matches, comparisons) := st in
  jc <- compare_window (S m) text pattern m i 0 comparisons ;;
  let '(j, comparisons) := jc in
  let comparisons := if j <? m then comparisons + 1 else comparisons in
  let matches := if j =? m then matches ++ [i] else matches in
  Return (matches, comparisons).

(** Hashing loop of [rabin_karp_search]: [h = base^(m-1) mod prime]. *)
Definition rk_h (m : nat) : Z :=
  Nat.iter (m - 1) (fun h => (h * base) mod prime)%Z 1%Z.

(** Initial hash values; the state is [(pattern_hash, text_hash)]. *)
Definition rk_init_body (text pattern : str) (i : nat) (st : Z * Z) : outcome (Z * Z) :=
  let '(pattern_hash, text_hash) := st in
  p <- getitem pattern i ;;
  let pattern_hash := ((base * pattern_hash + ord p) mod prime)%Z in
  t <- getitem text i ;;
  let text_hash := ((base * text_hash + ord t) mod prime)%Z in
  Return (pattern_hash, text_hash).

Record rk_state : Type := mkRk {
  rk_text_hash : Z;
  rk_matches : list nat;
  rk_comparisons : nat;
  rk_hash_collisions : nat
}.

(** One window position of [rabin_karp_search]. *)
Definition rabin_karp_body (text pattern : str) (n m : nat) (pattern_hash h : Z)
    (i : nat) (st : rk_state) : outcome rk_state :=
  let text_hash := rk_text_hash st in
  st1 <-
    (if (pattern_hash =? text_hash)%Z then
       jc <- compare_window (S m) text pattern m i 0 (rk_comparisons st) ;;
       let '(j, comparisons) := jc in
       let comparisons := if j <? m then comparisons + 1 else comparisons in
       if j =? m
       then Return (mkRk text_hash (rk_matches st ++ [i]) comparisons
                         (rk_hash_collisions st))
       else Return (mkRk text_hash (rk_matches st) comparisons
                         (rk_hash_collisions st + 1))
     else Return st) ;;
  if i <? n - m then
    ti <- getitem text i ;;
    tim <- getitem text (i + m) ;;
    let text_hash := ((base * (rk_text_hash st1 - ord ti * h) + ord tim) mod prime)%Z in
    let text_hash := if (text_hash <? 0)%Z then (text_hash + prime)%Z else text_hash in
    Return (mkRk text_hash (rk_matches st1) (rk_comparisons st1) (rk_hash_collisions st1))
  else Return st1.

(** The loop of [_build_failure_function]; [len] is the source's [length]. *)
Fixpoint build_loop (fuel : nat) (pattern : str) (m : nat) (lps : list nat)
    (len i : nat) : outcome (list nat) :=
  match fuel with
  | O => Unfinished
  | S fuel' =>
      if i <? m then
        a <- getitem pattern i ;;
        b <- getitem pattern len ;;
        if (a =? b)%Z then
          let len := len + 1 in
          lps <- setitem lps i len ;;
          build_loop fuel' pattern m lps len (i + 1)
        else if negb (len =? 0) then
          len <- getitem lps (len - 1) ;;
          build_loop fuel' pattern m lps len i
        else
          lps <- setitem lps i 0 ;;
          build_loop fuel' pattern m lps len (i + 1)
      else Return lps
  end.

Definition _build_failure_function (pattern : str) : outcome (list nat) :=
  let m := length pattern in
  build_loop (2 * m + 1) pattern m (replicate m 0) 0 1.

(** The matching loop of [kmp_search]; it returns [(matches, comparisons)]. *)
Fixpoint kmp_loop (fuel : nat) (text pattern : str) (lps : list nat) (n m : nat)
    (i j : nat) (matches : list nat) (comparisons : nat)
  : outcome (list nat * nat) :=
  match fuel with
  | O => Unfinished
  | S fuel' =>
      if i <? n then
        a <- getitem text i ;;
        b <- getitem pattern j ;;
        let '(i, j, comparisons) :=
          if (a =? b)%Z then (i + 1, j + 1, comparisons + 1) else (i, j, comparisons) in
        if j =? m then
          l <- getitem lps (j - 1) ;;
          kmp_loop fuel' text pattern lps n m i l (matches ++ [i - j]) comparisons
        else if i <? n then
          a' <- getitem text i ;;
          b' <- getitem pattern j ;;
          if negb (a' =? b')%Z then
            if negb (j =? 0) then
              l <- getitem lps (j - 1) ;;
              kmp_loop fuel' text pattern lps n m i l matches (comparisons + 1)
            else kmp_loop fuel' text pattern lps n m (i + 1) j matches (comparisons + 1)
          else kmp_loop fuel' text pattern lps n m i j matches comparisons
        else kmp_loop fuel' text pattern lps n m i j matches comparisons
      else Return (matches, comparisons)
  end.

Section Search.

(** [str.lower], the Unicode case mapping of the Python runtime. *)
Variable lower : str -> str.

Definition normalize (case_sensitive : bool) (s : str) : str :=
  if case_sensitive then s else lower s.

Definition brute_force_search (text pattern : str) (case_sensitive : bool)
  : outcome SearchResult :=
  let text := normalize case_sensitive text in
  let pattern := normalize case_sensitive pattern in
  let n := length text in
  let m := length pattern in
  if n <? m then Return (mkSearchResult [] 0 "Brute Force" m n)
  else
    st <- for_range 0 (n - m + 1) (brute_force_body text pattern m) ([], 0) ;;
    let '(matches, comparisons) := st in
    Return (mkSearchResult matches comparisons "Brute Force" m n).

Definition rabin_karp_search (text pattern : str) (case_sensitive : bool)
  : outcome SearchResult :=
  let text := normalize case_sensitive text in
  let pattern := normalize case_sensitive pattern in
  let n := length text in
  let m := length pattern in
  if n <? m then Return (mkSearchResult [] 0 "Rabin-Karp" m n)
  else
    let h := rk_h m in
    hs <- for_range 0 m (rk_init_body text pattern) (0%Z, 0%Z) ;;
    let '(pattern_hash, text_hash) := hs in
    st <- for_range 0 (n - m + 1) (rabin_karp_body text pattern n m pattern_hash h)
            (mkRk text_hash [] 0 0) ;;
    Return (mkSearchResult (rk_matches st) (rk_comparisons st) "Rabin-Karp" m n).

Definition kmp_search (text pattern : str) (case_sensitive : bool)
  : outcome SearchResult :=
  let text := normalize case_sensitive text in
  let pattern := normalize case_sensitive pattern in
  let n := length text in
  let m := length pattern in
  if n <? m then Return (mkSearchResult [] 0 "KMP" m n)
  else
    lps <- _build_failure_function pattern ;;
    mc <- kmp_loop (2 * n + 1) text pattern lps n m 0 0 [] 0 ;;
    let '(matches, comparisons) := mc in
    Return (mkSearchResult matches comparisons "KMP" m n).

End Search.

End Algorithms.

(* ================================================================== *)
(** * Python floats and built-ins used by the analysis engine *)

(** [float(n)] for a list length (exact below 2^53). *)
Definition float_of_nat (n : nat) : float :=
  PrimFloat.of_uint63 (Uint63.of_Z (Z.of_nat n)).

(** [min(a, b)] on floats: the first argument is kept unless the second is
    strictly smaller. *)
Definition py_min (a b : float) : float :=
  if PrimFloat.ltb b a then b else a.

(** [sum(xs)]: left-to-right accumulation starting from [0] (CPython 3.12
    and later compensate the rounding error of the additions; the statements
    below relate the code to the same [sum]). *)
Definition py_sum (xs : list float) : float :=
  fold_left PrimFloat.add xs 0%float.

(** [l[:stop]] for an integer [stop]; a negative [stop] counts from the end. *)
Definition slice_to {A : Type} (l : list A) (stop : Z) : list A :=
  if (0 <=? stop)%Z then take (Z.to_nat stop) l
  else take (length l - Z.to_nat (- stop)) l.

(** [sorted(l, key=key, reverse=True)] for keys that are numbers: the stable
    sort into descending key order.  Each element is placed behind every
    element with a strictly greater key and in front of all the others that
    follow it in [l].  On numbers any stable sort gives this list; with a NaN
    key, which compares false with everything, the order that CPython's merge
    sort leaves depends on the comparisons it happens to make and is not
    described here, so the statements about the ranking are about keys that
    are numbers. *)
Fixpoint insert_reverse {A : Type} (key : A -> float) (x : A) (l : list A) : list A :=
  match l with
  | [] => [x]
  | y :: l' =>
      if PrimFloat.ltb (key x) (key y) then y :: insert_reverse key x l' else x :: l
  end.

Fixpoint sorted_reverse {A : Type} (key : A -> float) (l : list A) : list A :=
  match l with
  | [] => []
  | x :: l' => insert_reverse key x (sorted_reverse key l')
  end.

(* ================================================================== *)
(** * engine/analyzer.py *)

Module Analyzer.
Import Algorithms.

Record JobDescription : Type := mkJobDescription {
  jd_id : Z;
  title : string;
  description : string;
  keywords : list str
}.

Record AnalysisResult : Type := mkAnalysisResult {
  cv_filename : string;
  job_description : string;
  algorithm_used : string;
  matched_keywords : list str;
  missing_keywords : list str;
  relevance_score : float;
  comparison_count : nat;
  total_keywords : nat
}.

Record BatchAnalysisResult : Type := mkBatchAnalysisResult {
  batch_job_description : JobDescription;
  batch_algorithm_used : string;
  cv_results : list AnalysisResult;
  average_relevance_score : float;
  total_cvs_analyzed : nat
}.

Definition _calculate_relevance_score (matched_keywords total_keywords : list str)
  : float :=
  match total_keywords with
  | [] => 0%float
  | _ :: _ =>
      let base_score :=
        (float_of_nat (length matched_keywords)
         / float_of_nat (length total_keywords))%float in
      let base_score :=
        if 0 <? length matched_keywords then
          let density_bonus :=
            py_min 0.1%float (float_of_nat (length matched_keywords) * 0.01)%float in
          (base_score + density_bonus)%float
        else base_score in
      py_min 1.0%float base_score
  end.

(** The batch statistics of [analyze_multiple_cvs]:
<<
    valid_results = [r for r in cv_results if r.relevance_score > 0]
    average_relevance_score = (
        sum(r.relevance_score for r in valid_results) / len(valid_results)
        if valid_results else 0.0)
>> *)
Definition batch_average (cv_results : list AnalysisResult) : float :=
  let valid_results :=
    List.filter (fun r => PrimFloat.ltb 0 (relevance_score r)) cv_results in
  match valid_results with
  | [] => 0%float
  | _ :: _ =>
      (py_sum (map relevance_score valid_results)
       / float_of_nat (length valid_results))%float
  end.

Definition get_top_matching_cvs (batch_result : BatchAnalysisResult) (top_n : Z)
  : list AnalysisResult :=
  let sorted_results := sorted_reverse relevance_score (cv_results batch_result) in
  slice_to sorted_results top_n.

Section Engine.

Variable lower : str -> str.

(** [os.path.basename] *)
Variable basename : string -> string.

(** [_load_cv_text]: the cache-aware loader.  It reads the file system
    through the extractors, catches every exception and always returns a
    string (empty on failure). *)
Variable _load_cv_text : string -> str.

(** The dispatch on the algorithm name inside the keyword loop. *)
Definition run_algorithm (algorithm : string) (cv_text keyword : str)
    (case_sensitive : bool) : outcome SearchResult :=
  if String.eqb algorithm "Brute Force" then
    brute_force_search lower cv_text keyword case_sensitive
  else if String.eqb algorithm "Rabin-Karp" then
    rabin_karp_search lower cv_text keyword case_sensitive
  else if String.eqb algorithm "KMP" then
    kmp_search lower cv_text keyword case_sensitive
  else Raise (ValueError ("Unknown algorithm: " ++ algorithm)).

(** [for keyword in keywords: ...]; the state is
    [(matched_keywords, missing_keywords, total_comparisons)]. *)
Fixpoint keyword_loop (cv_text : str) (algorithm : string) (case_sensitive : bool)
    (kws : list str) (st : list str * list str * nat)
  : outcome (list str * list str * nat) :=
  match kws with
  | [] => Return st
  | keyword :: rest =>
      let '(matched_keywords, missing_keywords, total_comparisons) := st in
      let keyword := strip keyword in
      match keyword with
      | [] => keyword_loop cv_text algorithm case_sensitive rest st
      | _ :: _ =>
          result <- run_algorithm algorithm cv_text keyword case_sensitive ;;
          let total_comparisons := total_comparisons + comparisons result in
          match matches result with
          | _ :: _ =>
              keyword_loop cv_text algorithm case_sensitive rest
                (matched_keywords ++ [keyword], missing_keywords, total_comparisons)
          | [] =>
              keyword_loop cv_text algorithm case_sensitive rest
                (matched_keywords, missing_keywords ++ [keyword], total_comparisons)
          end
      end
  end.

Definition analyze_cv (cv_text : str) (keywords : list str) (algorithm : string)
    (case_sensitive : bool) : outcome AnalysisResult :=
  match cv_text, keywords with
  | [], _ | _, [] =>
      Return (mkAnalysisResult "" "" algorithm [] keywords 0%float 0 (length keywords))
  | _ :: _, _ :: _ =>
      st <- keyword_loop cv_text algorithm case_sensitive keywords ([], [], 0) ;;
      let '(matched_keywords, missing_keywords, total_comparisons) := st in
      let relevance_score := _calculate_relevance_score matched_keywords keywords in
      Return (mkAnalysisResult "" "" algorithm matched_keywords missing_keywords
                relevance_score total_comparisons (length keywords))
  end.

(** The placeholder appended for a CV without usable text, and by the
    [except Exception] handler. *)
Definition error_result (cv_file : string) (jd : JobDescription) (algorithm : string)
  : AnalysisResult :=
  mkAnalysisResult (basename cv_file) (title jd) algorithm [] (keywords jd)
    0%float 0 (length (keywords jd)).

(** One file of the batch loop. *)
Definition batch_body (jd : JobDescription) (algorithm : string)
    (case_sensitive : bool) (cv_file : string) : outcome AnalysisResult :=
  let cv_text := _load_cv_text cv_file in
  match cv_text, strip cv_text with
  | [], _ | _, [] => Return (error_result cv_file jd algorithm)
  | _ :: _, _ :: _ =>
      match analyze_cv cv_text (keywords jd) algorithm case_sensitive with
      | Return result =>
          Return (mkAnalysisResult (basename cv_file) (title jd)
                    (algorithm_used result) (matched_keywords result)
                    (missing_keywords result) (relevance_score result)
                    (comparison_count result) (total_keywords result))
      | Raise _ => Return (error_result cv_file jd algorithm)
      | Unfinished => Unfinished
      end
  end.

Fixpoint batch_loop (jd : JobDescription) (algorithm : string) (case_sensitive : bool)
    (cv_files : list string) (cv_results : list AnalysisResult)
  : outcome (list AnalysisResult) :=
  match cv_files with
  | [] => Return cv_results
  | cv_file :: rest =>
      r <- batch_body jd algorithm case_sensitive cv_file ;;
      batch_loop jd algorithm case_sensitive rest (cv_results ++ [r])
  end.

(** [analyze_multiple_cvs] with [self.analysis_history] passed explicitly:
    the call returns the batch and the extended history. *)
Definition analyze_multiple_cvs (analysis_history : list BatchAnalysisResult)
    (cv_files : list string) (jd : JobDescription) (algorithm : string)
    (case_sensitive : bool)
  : outcome (BatchAnalysisResult * list BatchAnalysisResult) :=
  cv_results <- batch_loop jd algorithm case_sensitive cv_files [] ;;
  let average_relevance_score := batch_average cv_results in
  let batch_result :=
    mkBatchAnalysisResult jd algorithm cv_results average_relevance_score
      (length cv_files) in
  Return (batch_result, analysis_history ++ [batch_result]).

End Engine.

End Analyzer.

(* ================================================================== *)
(** * extractors/pdf_extractor.py *)

Module PdfExtractor.

(** What the operating system and the PDF library answer for one path. *)
Record file_env : Type := mkFileEnv {
  path_exists : bool;               (* os.path.exists(file_path) *)
  getsize : exn + Z;                (* os.path.getsize(file_path) *)
  readable : bool;                  (* os.access(file_path, os.R_OK) *)
  pdf_available : bool;             (* PDF_AVAILABLE *)
  pdfminer_extract_text : exn + str (* extract_text(file_path) of pdfminer *)
}.

(** The result dictionary, without its [metadata] entry. *)
Record extraction : Type := mkExtraction {
  success : bool;
  text : str;
  error : option string;
  extraction_time : float
}.

(** [self.max_file_size] *)
Definition max_file_size : Z := 50 * 1024 * 1024.

Section Extractor.

Variable lower : str -> str.

(** [_clean_text], the whitespace and punctuation normalisation. *)
Variable _clean_text : str -> str.

(** [str(e)] *)
Variable exn_message : exn -> string.

Definition _validate_file (file_path : str) (env : file_env) : bool :=
  if negb (path_exists env) then false
  else if negb (endswith (lower file_path) (py ".pdf")) then false
  else
    match getsize env with
    | inl _ => false
    | inr file_size =>
        if (max_file_size <? file_size)%Z then false
        else if negb (readable env) then false
        else true
    end.

(** [extract_text]; [start_time] is the clock reading on entry, [end_time]
    the reading of the second [time.time()], taken when the call is about
    to finish. *)
Definition extract_text (file_path : str) (env : file_env)
    (start_time end_time : float) : extraction :=
  let result := mkExtraction false [] None 0%float in
  if negb (_validate_file file_path env) then
    mkExtraction (success result) (text result) (Some "Invalid PDF file"%string)
      (extraction_time result)
  else if negb (pdf_available env) then
    mkExtraction (success result) (text result)
      (Some "PDF extraction library not available"%string) (extraction_time result)
  else
    match pdfminer_extract_text env with
    | inr raw =>
        mkExtraction true (_clean_text raw) (error result)
          (end_time - start_time)%float
    | inl e =>
        mkExtraction (success result) (text result)
          (Some ("PDF extraction failed: " ++ exn_message e)%string)
          (end_time - start_time)%float
    end.

End Extractor.

End PdfExtractor.

(* ================================================================== *)
(** * Specifications *)

Module Spec.
Import Algorithms.

(** The pattern occurs in the text at offset [i]. *)
Definition occurs_at (text pattern : str) (i : nat) : bool :=
  str_eqb (take (length pattern) (drop i text)) pattern.

(** All offsets of the text at which the pattern occurs, in increasing
    order. *)
Definition match_positions (text pattern : str) : list nat :=
  List.filter (occurs_at text pattern) (seq 0 (S (length text))).

(** Horner's rule modulo the prime, from scratch. *)
Definition horner_hash (s : str) : Z :=
  fold_left (fun h c => ((base * h + ord c) mod prime)%Z) s 0%Z.

(** The hash value that [rabin_karp_search] holds in [text_hash] when its
    sliding loop reaches window position [i]. *)
Definition rolling_hash_at (text pattern : str) (i : nat) : outcome Z :=
  let n := length text in
  let m := length pattern in
  hs <- for_range 0 m (rk_init_body text pattern) (0%Z, 0%Z) ;;
  let '(pattern_hash, text_hash) := hs in
  st <- for_range 0 i (rabin_karp_body text pattern n m pattern_hash (rk_h m))
          (mkRk text_hash [] 0 0) ;;
  Return (rk_text_hash st).

(** [b] is the length of a proper border of the prefix of length [l] of [p]:
    a proper prefix of [p[0..l-1]] that is also its suffix. *)
Definition border (p : str) (l b : nat) : Prop :=
  b < l /\ l <= length p /\ take b p = drop (l - b) (take l p).

Definition longest_border (p : str) (l b : nat) : Prop :=
  border p l b /\ forall b', border p l b' -> b' <= b.

(** The window of the text that starts at offset [i]. *)
Definition window (text pattern : str) (i : nat) : str :=
  take (length pattern) (drop i text).

(** Invariant of the loop of [_build_failure_function]: the entries below
    [i] are final, [len] is a border of the prefix of length [i], and no
    border of the next prefix is more than one longer. *)
Definition lps_filled (p : str) (lps : list nat) (i : nat) : Prop :=
  length lps = length p /\
  forall k, k < i -> k < length p ->
    exists v, lps !! k = Some v /\ longest_border p (S k) v.

Definition build_inv (p : str) (lps : list nat) (len i : nat) : Prop :=
  1 <= i <= length p /\ len < i /\ lps_filled p lps i /\ border p i len /\
  (i < length p -> forall b, border p (S i) b -> b <= len + 1).

(** Invariant of the loop of [kmp_search]: [j] characters of the pattern
    are matched in front of position [i], and every earlier start offset is
    decided. *)
Definition kmp_pre (text pattern : str) (i j : nat) (ms : list nat) : Prop :=
  i <= length text /\ j <= length pattern /\ j <= i
  /\ (forall t, t < j -> text !! (i - j + t) = pattern !! t)
  /\ ms = List.filter (occurs_at text pattern) (seq 0 (i - j)).

(** The three names that [analyze_cv] dispatches on. *)
Definition known_algorithm (algorithm : string) : Prop :=
  algorithm = "Brute Force"%string \/ algorithm = "Rabin-Karp"%string
  \/ algorithm = "KMP"%string.

(** The non-blank keywords, stripped, in order. *)
Definition searched_keywords (kws : list str) : list str :=
  List.filter (fun k => negb (blank k)) (map strip kws).

(** The relevance formula as the specification words it. *)
Definition relevance_formula (matched total : nat) : float :=
  if total =? 0 then 0%float
  else
    py_min 1.0%float
      (float_of_nat matched / float_of_nat total
       + (if (0 <? matched)%nat
          then py_min 0.1%float (float_of_nat matched * 0.01)
          else 0))%float.

(** The mean of the strictly positive scores, [0.0] when there is none. *)
Definition average_of_positive (scores : list float) : float :=
  let positive := List.filter (fun s => PrimFloat.ltb 0 s) scores in
  if length positive =? 0 then 0%float
  else (py_sum positive / float_of_nat (length positive))%float.

(** [a] may stand in front of [b] in descending order: the key of [a] is
    not smaller. *)
Definition not_below {A : Type} (key : A -> float) (a b : A) : Prop :=
  PrimFloat.ltb (key a) (key b) = false.

(** The sign bit of a specified float is clear (or the float is NaN). *)
Definition sign_clear (x : spec_float) : Prop :=
  match x with
  | S754_zero s | S754_infinity s | S754_finite s _ _ => s = false
  | S754_nan => True
  end.

(** Inputs of the worked examples. *)
Definition scored (name : string) (score : float) : Analyzer.AnalysisResult :=
  Analyzer.mkAnalysisResult name "" "KMP" [] [] score 0 0.

Definition batch_of (results : list Analyzer.AnalysisResult)
  : Analyzer.BatchAnalysisResult :=
  Analyzer.mkBatchAnalysisResult (Analyzer.mkJobDescription 0 "" "" []) "KMP" results
    (Analyzer.batch_average results) (length results).

(** A path at which no file exists. *)
Definition missing_file : PdfExtractor.file_env :=
  PdfExtractor.mkFileEnv false (inl OSError) false true (inl OSError).

End Spec.

(* ================================================================== *)
(** * Further functions of the repository *)

(** A Python [dict] as the list of its items in insertion order. *)
Section Dict.

Context {K V : Type} (key_eqb : K -> K -> bool).

(** [d.get(k)] *)
Fixpoint dict_get (d : list (K * V)) (k : K) : option V :=
  match d with
  | [] => None
  | (k', v) :: d' => if key_eqb k' k then Some v else dict_get d' k
  end.

(** [d[k] = v]: an existing key keeps its place. *)
Fixpoint dict_set (d : list (K * V)) (k : K) (v : V) : list (K * V) :=
  match d with
  | [] => [(k, v)]
  | (k', v') :: d' =>
      if key_eqb k' k then (k', v) :: d' else (k', v') :: dict_set d' k v
  end.

End Dict.

(** [sep.join(parts)] *)
Fixpoint join (sep : str) (parts : list str) : str :=
  match parts with
  | [] => []
  | [p] => p
  | p :: rest => p ++ sep ++ join sep rest
  end.

(** [s.split()]: the maximal runs of non-whitespace characters; [cur] is
    the run being read. *)
Fixpoint split_from (cur : str) (s : str) : list str :=
  match s with
  | [] => match cur with [] => [] | _ :: _ => [cur] end
  | c :: s' =>
      if is_space c then
        match cur with
        | [] => split_from [] s'
        | _ :: _ => cur :: split_from [] s'
        end
      else split_from (cur ++ [c]) s'
  end.

Definition split (s : str) : list str := split_from [] s.

(** [s.split(sep)] for a one-character separator: empty fields are kept. *)
Fixpoint split_on (sep : Z) (s : str) : list str :=
  match s with
  | [] => [[]]
  | c :: s' =>
      if (c =? sep)%Z then [] :: split_on sep s'
      else
        match split_on sep s' with
        | field :: fields => (c :: field) :: fields
        | [] => [[c]]
        end
  end.

(** [sorted(l)] on integers. *)
Fixpoint insert_sorted (x : nat) (l : list nat) : list nat :=
  match l with
  | [] => [x]
  | y :: l' => if x <=? y then x :: l else y :: insert_sorted x l'
  end.

Fixpoint sorted (l : list nat) : list nat :=
  match l with
  | [] => []
  | x :: l' => insert_sorted x (sorted l')
  end.

(* ================================================================== *)
(** * engine/algorithms.py: the comparison harness *)

Module Comparison.
Import Algorithms.

Section Harness.

Variable lower : str -> str.

(** [StringMatchingAlgorithms.compare_algorithms] *)
Definition compare_algorithms (text pattern : str) (case_sensitive : bool)
  : outcome (list (string * SearchResult)) :=
  let results := [] in
  r <- brute_force_search lower text pattern case_sensitive ;;
  let results := dict_set String.eqb results "Brute Force"%string r in
  r <- rabin_karp_search lower text pattern case_sensitive ;;
  let results := dict_set String.eqb results "Rabin-Karp"%string r in
  r <- kmp_search lower text pattern case_sensitive ;;
  let results := dict_set String.eqb results "KMP"%string r in
  Return results.

End Harness.

End Comparison.

(* ================================================================== *)
(** * extractors: text cleaning and the DOCX extractor *)

Module Cleaning.

Section Clean.

(** The characters matched by [\w]: the alphanumeric characters of
    Unicode and the underscore. *)
Variable is_word : Z -> bool.

(** The characters kept by [re.sub(r'[^\w\s\-.,;:!?()]', ' ', text)]. *)
Definition kept (c : Z) : bool :=
  (is_word c || is_space c
   || (c =? 45) || (c =? 46) || (c =? 44) || (c =? 59) || (c =? 58)
   || (c =? 33) || (c =? 63) || (c =? 40) || (c =? 41))%Z.

Definition replace_special (text : str) : str :=
  map (fun c => if kept c then c else 32%Z) text.

(** [re.sub(r'\s+', ' ', text)]; [in_ws] tells that the previous character
    belonged to the run of whitespace being replaced. *)
Fixpoint collapse_from (in_ws : bool) (text : str) : str :=
  match text with
  | [] => []
  | c :: text' =>
      if is_space c then
        if in_ws then collapse_from true text'
        else 32%Z :: collapse_from true text'
      else c :: collapse_from false text'
  end.

Definition collapse_spaces (text : str) : str := collapse_from false text.

(** [_clean_text], the same in both extractors. *)
Definition _clean_text (raw_text : str) : str :=
  match raw_text with
  | [] => []
  | _ :: _ =>
      let text := join [32%Z] (split raw_text) in
      let text := replace_special text in
      let text := collapse_spaces text in
      strip text
  end.

End Clean.

End Cleaning.

Module DocxExtractor.

(** What python-docx shows of a document: the paragraph texts and, for
    every table, its rows of cell texts. *)
Record document : Type := mkDocument {
  paragraphs : list str;
  tables : list (list (list str))
}.

(** What the operating system and python-docx answer for one path. *)
Record file_env : Type := mkFileEnv {
  path_exists : bool;            (* os.path.exists(file_path) *)
  getsize : exn + Z;             (* os.path.getsize(file_path) *)
  readable : bool;               (* os.access(file_path, os.R_OK) *)
  docx_available : bool;         (* DOCX_AVAILABLE *)
  open_document : exn + document (* Document(file_path) *)
}.

(** [self.supported_extensions], [self.max_file_size] *)
Definition supported_extensions : list str := [py ".docx"].
Definition max_file_size : Z := 50 * 1024 * 1024.

Definition legacy_message : string :=
  "Legacy .doc format not supported. Only .docx files (Office 2007+) are supported. Please convert to .docx or use alternative extraction.".

(** The stripped texts that are not empty, in order. *)
Definition stripped_parts (texts : list str) : list str :=
  flat_map (fun t => match strip t with [] => [] | _ :: _ => [strip t] end) texts.

(** [_extract_text_from_docx] on an opened document. *)
Definition _extract_text_from_docx (doc : document) : str :=
  let text_parts := stripped_parts (paragraphs doc) in
  let text_parts :=
    text_parts ++ flat_map (fun table => flat_map stripped_parts table) (tables doc) in
  join [32%Z] text_parts.

Section Extractor.

Variable lower : str -> str.
Variable is_word : Z -> bool.
Variable exn_message : exn -> string.

(** [is_supported] *)
Definition is_supported (file_path : str) : bool :=
  existsb (fun ext => endswith (lower file_path) ext) supported_extensions.

Definition _validate_file (file_path : str) (env : file_env) : bool :=
  if negb (path_exists env) then false
  else if negb (existsb (fun ext => endswith (lower file_path) ext) supported_extensions)
  then false
  else
    match getsize env with
    | inl _ => false
    | inr file_size =>
        if (max_file_size <? file_size)%Z then false
        else if negb (readable env) then false
        else true
    end.

(** [extract_text]; the result has the fields of the PDF extractor's. *)
Definition extract_text (file_path : str) (env : file_env)
    (start_time end_time : float) : PdfExtractor.extraction :=
  let result := PdfExtractor.mkExtraction false [] None 0%float in
  if endswith (lower file_path) (py ".doc")
     && negb (endswith (lower file_path) (py ".docx")) then
    PdfExtractor.mkExtraction false [] (Some legacy_message)
      (end_time - start_time)%float
  else if negb (_validate_file file_path env) then
    PdfExtractor.mkExtraction false [] (Some "Invalid DOCX file"%string) 0%float
  else if negb (docx_available env) then
    PdfExtractor.mkExtraction false []
      (Some "DOCX extraction library not available"%string) 0%float
  else
    match open_document env with
    | inr doc =>
        PdfExtractor.mkExtraction true
          (Cleaning._clean_text is_word (_extract_text_from_docx doc)) None
          (end_time - start_time)%float
    | inl e =>
        PdfExtractor.mkExtraction false []
          (Some ("DOCX extraction failed: " ++ exn_message e)%string)
          (end_time - start_time)%float
    end.

End Extractor.

End DocxExtractor.

(* ================================================================== *)
(** * engine/analyzer.py: comparison, metrics and the text cache *)

Module Engine.
Import Algorithms Analyzer.

(** A number that is an [int] on one path and a [float] on another. *)
Inductive number : Type :=
| IntValue (z : Z)
| FloatValue (x : float).

(** The entries of [get_performance_metrics] that do not depend on the
    clock. *)
Record metrics : Type := mkMetrics {
  algorithm : string;
  total_cvs : nat;
  metric_average_relevance_score : float;
  total_comparisons : nat;
  average_comparisons : number;
  high_match : nat;
  medium_match : nat;
  low_match : nat
}.

(** [get_performance_metrics].  The average comparison count divides two
    integers; it is computed here on their float values, which is Python's
    true division as long as both are below 2^53. *)
Definition get_performance_metrics (batch_result : BatchAnalysisResult) : metrics :=
  let results := cv_results batch_result in
  let sum_comparisons := fold_left Nat.add (map comparison_count results) 0 in
  mkMetrics
    (batch_algorithm_used batch_result)
    (total_cvs_analyzed batch_result)
    (average_relevance_score batch_result)
    sum_comparisons
    (if 0 <? total_cvs_analyzed batch_result
     then FloatValue (float_of_nat sum_comparisons
                      / float_of_nat (total_cvs_analyzed batch_result))%float
     else IntValue 0)
    (length (List.filter (fun r => PrimFloat.leb 0.7 (relevance_score r)) results))
    (length (List.filter
               (fun r => PrimFloat.leb 0.3 (relevance_score r)
                         && PrimFloat.ltb (relevance_score r) 0.7) results))
    (length (List.filter (fun r => PrimFloat.ltb (relevance_score r) 0.3) results)).

(** A cache entry. *)
Record CVData : Type := mkCVData {
  filename : str;
  file_path : str;
  extracted_text : str;
  file_size : Z;
  extraction_time : float;
  validation_status : bool;
  error_message : option string
}.

Section Analysis.

Variable lower : str -> str.
Variable is_word : Z -> bool.
Variable exn_message : exn -> string.

(** [os.path.basename] on a path. *)
Variable path_basename : str -> str.

(** [CVAnalyzer.compare_algorithms]: the loop over the three names, with
    the default [case_sensitive=False] of [analyze_cv]. *)
Fixpoint compare_loop (cv_text : str) (keywords : list str) (algorithms : list string)
    (results : list (string * AnalysisResult))
  : outcome (list (string * AnalysisResult)) :=
  match algorithms with
  | [] => Return results
  | algorithm :: rest =>
      result <- analyze_cv lower cv_text keywords algorithm false ;;
      compare_loop cv_text keywords rest (dict_set String.eqb results algorithm result)
  end.

Definition compare_algorithms (cv_text : str) (keywords : list str)
  : outcome (list (string * AnalysisResult)) :=
  let algorithms := ["Brute Force"; "Rabin-Karp"; "KMP"]%string in
  compare_loop cv_text keywords algorithms [].

(** The cache entry written after an extraction; [None] when building
    the entry raises (the size of a vanished file cannot be read), which
    the success path logs and ignores. *)
Definition cache_entry (path : str) (exists_ : bool) (size : exn + Z)
    (result : PdfExtractor.extraction) : option CVData :=
  if PdfExtractor.success result then
    match (if exists_ then size else inr 0%Z) with
    | inr file_size =>
        Some (mkCVData (path_basename path) path (PdfExtractor.text result) file_size
                (PdfExtractor.extraction_time result) true None)
    | inl _ => None
    end
  else
    Some (mkCVData (path_basename path) path [] 0
            (PdfExtractor.extraction_time result) false
            (Some match PdfExtractor.error result with
                  | Some e => e
                  | None => "None"%string
                  end)).

(** [_load_cv_text] with [self.cv_cache] passed explicitly: the call
    returns the text and the cache it leaves.  [pdf_env] and [docx_env]
    give the state of the file system for every path, [start_time] and
    [end_time] the clock readings of the extractor that runs. *)
Definition _load_cv_text
    (pdf_env : str -> PdfExtractor.file_env) (docx_env : str -> DocxExtractor.file_env)
    (start_time end_time : float)
    (cv_cache : list (str * CVData)) (path : str) : str * list (str * CVData) :=
  match dict_get str_eqb cv_cache path with
  | Some cached => (extracted_text cached, cv_cache)
  | None =>
      if endswith (lower path) (py ".pdf") then
        let result :=
          PdfExtractor.extract_text lower (Cleaning._clean_text is_word) exn_message
            path (pdf_env path) start_time end_time in
        let text := if PdfExtractor.success result then PdfExtractor.text result else [] in
        match cache_entry path (PdfExtractor.path_exists (pdf_env path))
                (PdfExtractor.getsize (pdf_env path)) result with
        | Some entry => (text, dict_set str_eqb cv_cache path entry)
        | None => (text, cv_cache)
        end
      else if DocxExtractor.is_supported lower path then
        let result :=
          DocxExtractor.extract_text lower is_word exn_message
            path (docx_env path) start_time end_time in
        let text := if PdfExtractor.success result then PdfExtractor.text result else [] in
        match cache_entry path (DocxExtractor.path_exists (docx_env path))
                (DocxExtractor.getsize (docx_env path)) result with
        | Some entry => (text, dict_set str_eqb cv_cache path entry)
        | None => (text, cv_cache)
        end
      else ([], cv_cache)
  end.

(** [clear_cache] *)
Definition clear_cache (cv_cache : list (str * CVData)) : list (str * CVData) := [].

End Analysis.

End Engine.

(* ================================================================== *)
(** * app.py *)

Module App.



Section Cli.

Variable lower : str -> str.


(** The keyword list that [run_cli_analysis] builds:
    [[k.strip() for k in keywords_csv.split(',') if k.strip()]]. *)
Definition cli_keywords (keywords_csv : str) : list str :=
  flat_map (fun k => match strip k with [] => [] | _ :: _ => [strip k] end)
    (split_on 44 keywords_csv).

End Cli.

End App.

(* ================================================================== *)
(** * reports/performance_runner.py *)

Module PerformanceRunner.

Record CVItem : Type := mkCVItem {
  item_path : str;
  text : str;
  text_length : nat;
  size_bytes : Z
}.

(** [_bucket_by_size]; the result is the dictionary with the keys "Small"
    and "Large". *)
Definition _bucket_by_size (items : list CVItem)
  : outcome (list (string * list CVItem)) :=
  match items with
  | [] => Return [("Small"%string, []); ("Large"%string, [])]
  | _ :: _ =>
      let lengths := sorted (map text_length items) in
      median <- getitem lengths (length lengths / 2) ;;
      let small := List.filter (fun it => text_length it <=? median) items in
      let large := List.filter (fun it => median <? text_length it) items in
      Return [("Small"%string, small); ("Large"%string, large)]
  end.

End PerformanceRunner.

(* ================================================================== *)
(** * Specifications of the further functions *)

Module SpecMore.
Import Algorithms Spec.

(** The keyword, case-normalised, occurs somewhere in the case-normalised
    text. *)
Definition keyword_found (lower : str -> str) (case_sensitive : bool)
    (cv_text keyword : str) : bool :=
  match match_positions (normalize lower case_sensitive cv_text)
          (normalize lower case_sensitive keyword) with
  | [] => false
  | _ :: _ => true
  end.

(** A float that is a number (not NaN). *)
Definition is_number (x : float) : bool := PrimFloat.eqb x x.

(** What every one of the three algorithms should report for a CV with the
    default case-insensitive search: the matched keywords, the missing ones
    and the score. *)
Definition verdict (lower : str -> str) (cv_text : str) (kws : list str)
  : list str * list str * float :=
  match cv_text, kws with
  | [], _ | _, [] => ([], kws, 0%float)
  | _ :: _, _ :: _ =>
      let found := List.filter (keyword_found lower false cv_text) (searched_keywords kws) in
      (found,
       List.filter (fun k => negb (keyword_found lower false cv_text k))
         (searched_keywords kws),
       Analyzer._calculate_relevance_score found kws)
  end.

(** A word of a cleaned text: not empty, and made of characters that the
    cleaning keeps and that are not whitespace. *)
Definition clean_word (is_word : Z -> bool) (w : str) : Prop :=
  w <> [] /\ Forall (fun c => Cleaning.kept is_word c = true /\ is_space c = false) w.

End SpecMore.

(* ================================================================== *)
(** * Basic facts about outcomes, indexing and strings *)

Lemma bind_Return_inv {A B : Type} (m : outcome A) (k : A -> outcome B) (b : B) :
  (x <- m ;; k x) = Return b -> exists a, m = Return a /\ k a = Return b.
Proof. destruct m as [a| |]; simpl; intros H; try discriminate. eauto. Qed.

Lemma getitem_lookup {A : Type} (l : list A) (i : nat) (x : A) :
  l !! i = Some x -> getitem l i = Return x.
Proof. unfold getitem. intros ->. reflexivity. Qed.

Lemma getitem_lt {A : Type} (l : list A) (i : nat) :
  i < length l -> exists x, l !! i = Some x /\ getitem l i = Return x.
Proof.
  intros Hi. destruct (lookup_lt_is_Some_2 l i Hi) as [x Hx].
  exists x. split; [exact Hx | now apply getitem_lookup].
Qed.

Lemma getitem_ge {A : Type} (l : list A) (i : nat) :
  length l <= i -> getitem l i = Raise IndexError.
Proof. intros Hi. unfold getitem. now rewrite lookup_ge_None_2. Qed.

Lemma setitem_lt {A : Type} (l : list A) (i : nat) (x : A) :
  i < length l -> setitem l i x = Return (<[i := x]> l).
Proof.
  intros Hi. unfold setitem.
  destruct (Nat.ltb_spec i (length l)); [reflexivity | lia].
Qed.

Lemma for_range_app {St : Type} (body : nat -> St -> outcome St) (a b lo : nat) (s : St) :
  for_range lo (a + b) body s = (s' <- for_range lo a body s ;; for_range (lo + a) b body s').
Proof.
  revert lo s. induction a as [|a IH]; intros lo s; simpl.
  - now rewrite Nat.add_0_r.
  - destruct (body lo s) as [s1| |]; simpl; try reflexivity.
    rewrite IH. now replace (S lo + a) with (lo + S a) by lia.
Qed.

Lemma str_eqb_eq (a b : str) : str_eqb a b = true <-> a = b.
Proof.
  revert b. induction a as [|x a IH]; intros [|y b]; simpl; split; intros H;
    try reflexivity; try discriminate.
  - apply andb_true_iff in H as [Hxy Hab]. apply Z.eqb_eq in Hxy.
    apply IH in Hab. congruence.
  - injection H as -> ->. apply andb_true_iff. split; [apply Z.eqb_refl | now apply IH].
Qed.

Lemma str_eqb_refl (a : str) : str_eqb a a = true.
Proof. now apply str_eqb_eq. Qed.

(* ================================================================== *)
(** * Occurrences and the verification loop *)

Module SearchFacts.
Import Algorithms Spec.

Lemma filter_none {A : Type} (f : A -> bool) (l : list A) :
  (forall x, In x l -> f x = false) -> List.filter f l = [].
Proof.
  induction l as [|x l IH]; simpl; intros H; [reflexivity|].
  rewrite (H x) by now left. apply IH. intros y Hy. apply H. now right.
Qed.

Section Window.

Variables text pattern : str.
Let n := length text.
Let m := length pattern.

Lemma occurs_at_bound (i : nat) :
  i <= n -> occurs_at text pattern i = true -> i + m <= n.
Proof.
  unfold occurs_at. intros Hi H. apply str_eqb_eq in H.
  apply (f_equal (@length Z)) in H.
  rewrite length_take, length_drop in H. subst n m. lia.
Qed.

Lemma occurs_at_lookup (i : nat) :
  i + m <= n ->
  occurs_at text pattern i = true <->
  (forall t, t < m -> text !! (i + t) = pattern !! t).
Proof.
  intros Hi. unfold occurs_at. rewrite str_eqb_eq. split.
  - intros H t Ht.
    transitivity (take (length pattern) (drop i text) !! t); [|now rewrite H].
    rewrite lookup_take_lt by (subst m; lia). now rewrite lookup_drop.
  - intros H. apply list_eq. intros t.
    destruct (Nat.lt_ge_cases t m) as [Ht|Ht].
    + rewrite lookup_take_lt by (subst m; lia). rewrite lookup_drop. now apply H.
    + rewrite lookup_take_ge by (subst m; lia).
      symmetry. apply lookup_ge_None_2. subst m; lia.
Qed.

(** The verification loop stops at the first mismatch, or at [m]. *)
Lemma compare_window_spec (i : nat) :
  i + m <= n ->
  forall fuel j c,
    j <= m -> m - j < fuel ->
    exists j',
      compare_window fuel text pattern m i j c = Return (j', c + (j' - j))
      /\ j <= j' <= m
      /\ (forall t, j <= t < j' -> text !! (i + t) = pattern !! t)
      /\ (j' < m -> text !! (i + j') <> pattern !! j').
Proof.
  intros Hi. induction fuel as [|fuel IH]; intros j c Hj Hfuel; [lia|].
  simpl. destruct (Nat.ltb_spec j m) as [Hlt|Hge].
  - destruct (getitem_lt text (i + j)) as (a & Ha & ->); [subst n; lia|].
    destruct (getitem_lt pattern j) as (b & Hb & ->); [subst m; lia|].
    simpl. destruct (Z.eqb_spec a b) as [->|Hab].
    + destruct (IH (j + 1) (c + 1)) as (j' & Hrun & Hj' & Heq & Hneq); [lia|lia|].
      exists j'. split; [|split; [lia|split]].
      * rewrite Hrun. do 2 f_equal. lia.
      * intros t Ht. destruct (Nat.eq_dec t j) as [->|Hne]; [now rewrite Ha, Hb|].
        apply Heq. lia.
      * exact Hneq.
    + exists j. split; [|split; [lia|split]].
      * do 2 f_equal. lia.
      * intros t Ht. lia.
      * intros _. rewrite Ha, Hb. congruence.
  - exists j. split; [|split; [lia|split]].
    + do 2 f_equal. lia.
    + intros t Ht. lia.
    + lia.
Qed.

(** The loop run from [j = 0] decides whether the pattern occurs at [i]. *)
Lemma compare_window_occurs (i c : nat) :
  i + m <= n ->
  exists j,
    compare_window (S m) text pattern m i 0 c = Return (j, c + j)
    /\ j <= m
    /\ (j =? m) = occurs_at text pattern i.
Proof.
  intros Hi.
  destruct (compare_window_spec i Hi (S m) 0 c) as (j & Hrun & Hj & Heq & Hneq);
    [lia|lia|].
  exists j. split; [|split; [lia|]].
  - rewrite Hrun. do 2 f_equal. lia.
  - destruct (Nat.eqb_spec j m) as [->|Hne]; symmetry.
    + apply occurs_at_lookup; [exact Hi|]. intros t Ht. apply Heq. lia.
    + apply not_true_is_false. intros Hocc.
      apply (Hneq ltac:(lia)).
      apply (proj1 (occurs_at_lookup i Hi) Hocc). lia.
Qed.

Lemma match_positions_range :
  m <= n ->
  match_positions text pattern =
  List.filter (occurs_at text pattern) (seq 0 (n - m + 1)).
Proof.
  intros Hmn. unfold match_positions. fold n.
  replace (S n) with ((n - m + 1) + m) by lia.
  rewrite seq_app, List.filter_app.
  rewrite (filter_none _ (seq _ m)); [apply app_nil_r|].
  intros i Hi. apply in_seq in Hi. apply not_true_is_false. intros Hocc.
  apply occurs_at_bound in Hocc; lia.
Qed.

Lemma match_positions_too_long : n < m -> match_positions text pattern = [].
Proof.
  intros Hnm. unfold match_positions. apply filter_none.
  intros i Hi. apply in_seq in Hi. apply not_true_is_false. intros Hocc.
  apply occurs_at_bound in Hocc; lia.
Qed.

(** ** Brute Force *)

Lemma brute_force_loop (k : nat) :
  forall lo ms c,
    lo + k + m <= n + 1 ->
    exists c',
      for_range lo k (brute_force_body text pattern m) (ms, c)
      = Return (ms ++ List.filter (occurs_at text pattern) (seq lo k), c')
      /\ (m = 0 -> c' = c).
Proof.
  induction k as [|k IH]; intros lo ms c Hlo.
  - exists c. simpl. now rewrite app_nil_r.
  - destruct (compare_window_occurs lo c) as (j & Hrun & Hj & Hocc); [lia|].
    cbn [for_range seq List.filter]. unfold brute_force_body at 1.
    rewrite Hrun. cbn [bind]. rewrite Hocc.
    destruct (occurs_at text pattern lo) eqn:Ho.
    + destruct (IH (S lo) (ms ++ [lo]) (if j <? m then c + j + 1 else c + j))
        as (c' & Hloop & Hc'); [lia|].
      exists c'. split.
      * rewrite Hloop. f_equal. f_equal. now rewrite <- app_assoc.
      * intros Hm. rewrite (Hc' Hm).
        destruct (Nat.ltb_spec j m); lia.
    + destruct (IH (S lo) ms (if j <? m then c + j + 1 else c + j))
        as (c' & Hloop & Hc'); [lia|].
      exists c'. split; [exact Hloop|].
      intros Hm. rewrite (Hc' Hm). destruct (Nat.ltb_spec j m); lia.
Qed.

End Window.

End SearchFacts.

(* ================================================================== *)
(** * Rabin-Karp: the rolling hash *)

Module HashFacts.
Import Algorithms Spec SearchFacts.

(** Congruence modulo the prime. *)
#[local] Instance eqp_equiv : Equivalence (eqm prime) := eqm_setoid prime.
#[local] Instance eqp_add : Proper (eqm prime ==> eqm prime ==> eqm prime) Z.add :=
  Zplus_eqm prime.
#[local] Instance eqp_sub : Proper (eqm prime ==> eqm prime ==> eqm prime) Z.sub :=
  Zminus_eqm prime.
#[local] Instance eqp_mul : Proper (eqm prime ==> eqm prime ==> eqm prime) Z.mul :=
  Zmult_eqm prime.

Local Open Scope Z_scope.

Abbreviation hash_step := (fun h c => (base * h + ord c) mod prime).

Lemma hash_from (a : Z) (w : str) :
  eqm prime (fold_left hash_step w a)
            (a * base ^ Z.of_nat (length w) + horner_hash w).
Proof.
  unfold horner_hash. revert a. induction w as [|c w IH]; intros a.
  - cbn [fold_left length]. change (Z.of_nat 0) with 0%Z. rewrite Z.pow_0_r.
    unfold eqm. f_equal. ring.
  - cbn [fold_left length]. rewrite (IH (_ mod prime)), (IH ((base * 0 + _) mod prime)).
    rewrite !(Zmod_eqm prime).
    rewrite Nat2Z.inj_succ, Z.pow_succ_r by lia.
    unfold eqm. f_equal. ring.
Qed.

Lemma horner_hash_cons (c : Z) (w : str) :
  eqm prime (horner_hash (c :: w)) (ord c * base ^ Z.of_nat (length w) + horner_hash w).
Proof.
  unfold horner_hash at 1. cbn [fold_left]. rewrite hash_from, (Zmod_eqm prime).
  unfold eqm. f_equal; ring.
Qed.

Lemma horner_hash_snoc (w : str) (d : Z) :
  horner_hash (w ++ [d]) = (base * horner_hash w + ord d) mod prime.
Proof. unfold horner_hash. now rewrite fold_left_app. Qed.

Lemma horner_hash_range (w : str) : 0 <= horner_hash w < prime.
Proof.
  destruct w as [|c w] using rev_ind.
  - unfold horner_hash, prime. simpl. lia.
  - rewrite horner_hash_snoc. apply Z.mod_pos_bound. unfold prime. lia.
Qed.

Lemma rk_h_pow (m : nat) : rk_h (S m) = base ^ Z.of_nat m mod prime.
Proof.
  unfold rk_h. replace (S m - 1)%nat with m by lia.
  induction m as [|m IH].
  - reflexivity.
  - rewrite Nat.iter_succ, IH, Nat2Z.inj_succ, Z.pow_succ_r by lia.
    rewrite Z.mul_mod_idemp_l by (unfold prime; lia). f_equal. ring.
Qed.

(** The recurrence of the sliding loop reproduces the hash of the next
    window. *)
Lemma rolling_step (c d : Z) (w : str) :
  (base * (horner_hash (c :: w) - ord c * rk_h (S (length w))) + ord d) mod prime
  = horner_hash (w ++ [d]).
Proof.
  rewrite horner_hash_snoc, rk_h_pow. change (eqm prime
    (base * (horner_hash (c :: w) - ord c * (base ^ Z.of_nat (length w) mod prime)) + ord d)
    (base * horner_hash w + ord d)).
  rewrite horner_hash_cons, (Zmod_eqm prime).
  unfold eqm. f_equal. ring.
Qed.

Local Close Scope Z_scope.

Section Windows.

Variables text pattern : str.
Let n := length text.
Let m := length pattern.

#[local] Abbreviation window := (Spec.window text pattern).

Lemma window_next (i : nat) (c d : Z) :
  0 < m ->
  text !! i = Some c -> text !! (i + m) = Some d ->
  exists w, window i = c :: w /\ length w = m - 1 /\ window (S i) = w ++ [d].
Proof.
  intros Hm Hc Hd. unfold Spec.window. fold m.
  rewrite (drop_S text c i Hc).
  destruct m as [|m'] eqn:Em; [lia|]. cbn [take firstn].
  exists (take m' (drop (S i) text)). split; [reflexivity|]. split.
  - rewrite length_take, length_drop.
    apply lookup_lt_Some in Hd. fold n in Hd. fold n. lia.
  - assert (Hd' : drop (S i) text !! m' = Some d).
    { rewrite lookup_drop. now replace (S i + m') with (i + S m') by lia. }
    now apply take_S_r.
Qed.

Lemma occurs_at_window (i : nat) :
  occurs_at text pattern i = true -> window i = pattern.
Proof. unfold occurs_at, Spec.window. apply str_eqb_eq. Qed.

(** The two initial hashes. *)
Lemma rk_init_loop (k : nat) :
  forall lo ph th,
    lo + k <= m -> m <= n ->
    for_range lo k (rk_init_body text pattern) (ph, th)
    = Return (fold_left hash_step (take k (drop lo pattern)) ph,
              fold_left hash_step (take k (drop lo text)) th).
Proof.
  induction k as [|k IH]; intros lo ph th Hlo Hmn; [reflexivity|].
  cbn [for_range]. unfold rk_init_body at 1.
  destruct (getitem_lt pattern lo) as (p & Hp & ->); [fold m; lia|].
  destruct (getitem_lt text lo) as (t & Ht & ->); [fold n; lia|].
  cbn [bind]. rewrite IH by lia.
  rewrite (drop_S pattern p lo Hp), (drop_S text t lo Ht). reflexivity.
Qed.

Lemma rk_init :
  m <= n ->
  for_range 0 m (rk_init_body text pattern) (0%Z, 0%Z)
  = Return (horner_hash pattern, horner_hash (window 0)).
Proof.
  intros Hmn. rewrite rk_init_loop by lia. unfold horner_hash, Spec.window. fold m.
  rewrite !drop_0. subst m. now rewrite firstn_all.
Qed.

(** One position of the sliding loop, for a non-empty pattern. *)
Lemma rabin_karp_body_spec (i : nat) (st : rk_state) :
  0 < m -> i + m <= n ->
  rk_text_hash st = horner_hash (window i) ->
  exists st',
    rabin_karp_body text pattern n m (horner_hash pattern) (rk_h m) i st = Return st'
    /\ rk_matches st' =
       rk_matches st ++ (if occurs_at text pattern i then [i] else [])
    /\ (i + m < n -> rk_text_hash st' = horner_hash (window (S i))).
Proof.
  intros Hm Hi Hhash. unfold rabin_karp_body.
  match goal with |- context [bind ?X _] =>
    assert (Hfirst : exists st1, X = Return st1
    /\ rk_text_hash st1 = rk_text_hash st
    /\ rk_matches st1 = rk_matches st ++ (if occurs_at text pattern i then [i] else []))
  end.
  { destruct (Z.eqb_spec (horner_hash pattern) (rk_text_hash st)) as [Heq|Hne].
    - destruct (compare_window_occurs text pattern i (rk_comparisons st) Hi)
        as (j & Hrun & Hj & Hocc).
      fold m in Hrun, Hocc. rewrite Hrun. cbn [bind]. rewrite Hocc.
      destruct (occurs_at text pattern i); eexists; split; try reflexivity;
        simpl; auto using app_nil_r.
    - exists st. split; [reflexivity|]. split; [reflexivity|].
      destruct (occurs_at text pattern i) eqn:Ho; [|now rewrite app_nil_r].
      exfalso. apply Hne. rewrite Hhash. f_equal. symmetry.
      now apply occurs_at_window. }
  destruct Hfirst as (st1 & -> & Hth & Hms). cbn [bind].
  destruct (Nat.ltb_spec i (n - m)) as [Hlt|Hge].
  - destruct (getitem_lt text i) as (c & Hc & ->); [fold n; lia|].
    destruct (getitem_lt text (i + m)) as (d & Hd & ->); [fold n; lia|].
    cbn [bind].
    destruct (window_next i c d Hm Hc Hd) as (w & Hw & Hlen & Hnext).
    assert (Hroll : ((base * (rk_text_hash st1 - ord c * rk_h m) + ord d) mod prime)%Z
                    = horner_hash (window (S i))).
    { rewrite Hth, Hhash, Hw, Hnext. replace m with (S (length w)) by lia.
      apply rolling_step. }
    rewrite Hroll.
    destruct (Z.ltb_spec (horner_hash (window (S i))) 0) as [Hneg|_].
    + pose proof (horner_hash_range (window (S i))). lia.
    + eexists. split; [reflexivity|]. split; [exact Hms|]. intros _. reflexivity.
  - exists st1. split; [reflexivity|]. split; [exact Hms|]. lia.
Qed.

Lemma rabin_karp_loop (k : nat) :
  forall lo st,
    0 < m -> lo + k + m <= n + 1 ->
    rk_text_hash st = horner_hash (window lo) ->
    exists st',
      for_range lo k (rabin_karp_body text pattern n m (horner_hash pattern) (rk_h m)) st
      = Return st'
      /\ rk_matches st' = rk_matches st ++ List.filter (occurs_at text pattern) (seq lo k)
      /\ (lo + k + m <= n -> rk_text_hash st' = horner_hash (window (lo + k))).
Proof.
  induction k as [|k IH]; intros lo st Hm Hlo Hhash.
  - exists st. split; [reflexivity|]. split; [simpl; now rewrite app_nil_r|].
    intros _. now rewrite Nat.add_0_r.
  - destruct (rabin_karp_body_spec lo st Hm ltac:(lia) Hhash) as (st1 & Hbody & Hms & Hth).
    cbn [for_range]. rewrite Hbody. cbn [bind].
    destruct k as [|k'].
    + exists st1. split; [reflexivity|]. split.
      * rewrite Hms. simpl. now destruct (occurs_at text pattern lo).
      * intros Hk. replace (lo + 1) with (S lo) by lia. apply Hth. lia.
    + destruct (IH (S lo) st1 Hm ltac:(lia) (Hth ltac:(lia))) as (st' & Hloop & Hms' & Hth').
      exists st'. split; [exact Hloop|]. split.
      * rewrite Hms', Hms, <- app_assoc. f_equal.
        cbn [seq List.filter]. now destruct (occurs_at text pattern lo).
      * intros Hk. replace (lo + S (S k')) with (S lo + S k') by lia. apply Hth'. lia.
Qed.

(** With the empty pattern a position compares no character; it is
    recorded exactly when the rolling value equals the pattern hash. *)
Lemma rabin_karp_body_empty (i : nat) (st : rk_state) (ph h : Z) :
  m = 0 -> i <= n ->
  exists st',
    rabin_karp_body text pattern n m ph h i st = Return st'
    /\ rk_comparisons st' = rk_comparisons st
    /\ rk_matches st' =
       rk_matches st ++ (if (ph =? rk_text_hash st)%Z then [i] else []).
Proof.
  intros Hm Hi. unfold rabin_karp_body. rewrite Hm.
  match goal with |- context [bind ?X _] =>
    assert (Hfirst : exists st1, X = Return st1
      /\ rk_comparisons st1 = rk_comparisons st
      /\ rk_matches st1 =
         rk_matches st ++ (if (ph =? rk_text_hash st)%Z then [i] else []))
  end.
  { destruct (ph =? rk_text_hash st)%Z.
    - eexists. simpl. split; [reflexivity|]. split; reflexivity.
    - exists st. split; [reflexivity|]. split; [reflexivity|]. now rewrite app_nil_r. }
  destruct Hfirst as (st1 & -> & Hc & Hms). cbn [bind].
  destruct (Nat.ltb_spec i (n - 0)) as [Hlt|Hge].
  - destruct (getitem_lt text i) as (c & Hc' & ->); [fold n; lia|].
    replace (i + 0) with i by lia.
    destruct (getitem_lt text i) as (c2 & Hc2 & ->); [fold n; lia|].
    cbn [bind]. eexists. split; [reflexivity|]. split; [exact Hc | exact Hms].
  - exists st1. split; [reflexivity|]. split; [exact Hc | exact Hms].
Qed.

(** Hence the loop records a subsequence of the positions it visits,
    starting with the first one when the hashes agree there. *)
Lemma rabin_karp_loop_empty (k : nat) :
  forall lo st ph h,
    m = 0 -> lo + k <= n + 1 ->
    exists st' l,
      for_range lo k (rabin_karp_body text pattern n m ph h) st = Return st'
      /\ rk_comparisons st' = rk_comparisons st
      /\ rk_matches st' = rk_matches st ++ l
      /\ sublist l (seq lo k)
      /\ (0 < k -> ph = rk_text_hash st -> exists l', l = lo :: l').
Proof.
  induction k as [|k IH]; intros lo st ph h Hm Hlo.
  - exists st, []. split; [reflexivity|]. split; [reflexivity|].
    split; [now rewrite app_nil_r|]. split; [constructor|]. lia.
  - destruct (rabin_karp_body_empty lo st ph h Hm ltac:(lia)) as (st1 & Hbody & Hc & Hms).
    cbn [for_range]. rewrite Hbody. cbn [bind].
    destruct (IH (S lo) st1 ph h Hm ltac:(lia)) as (st' & l & Hloop & Hc' & Hms' & Hsub & _).
    rewrite Hloop.
    exists st', ((if (ph =? rk_text_hash st)%Z then [lo] else []) ++ l).
    split; [reflexivity|]. split; [congruence|]. split.
    { rewrite Hms', Hms. now rewrite <- app_assoc. }
    split.
    { cbn [seq]. destruct (ph =? rk_text_hash st)%Z; simpl.
      - now apply sublist_skip.
      - now apply sublist_cons. }
    intros _ ->. rewrite Z.eqb_refl. simpl. eauto.
Qed.

End Windows.

End HashFacts.

(* ================================================================== *)
(** * Borders and the failure function *)

Module BorderFacts.
Import Algorithms Spec.

Section Borders.

Variable p : str.
Let m := length p.

Lemma border_lookup (l b : nat) :
  border p l b <->
  b < l /\ l <= m /\ forall t, t < b -> p !! t = p !! (l - b + t).
Proof.
  unfold border. fold m. split.
  - intros (Hb & Hl & Heq). split; [exact Hb|]. split; [exact Hl|].
    intros t Ht.
    assert (H : take b p !! t = drop (l - b) (take l p) !! t) by now rewrite Heq.
    rewrite lookup_take_lt, lookup_drop, lookup_take_lt in H by lia. exact H.
  - intros (Hb & Hl & Heq). split; [exact Hb|]. split; [exact Hl|].
    apply list_eq. intros t. destruct (Nat.lt_ge_cases t b) as [Ht|Ht].
    + rewrite lookup_take_lt, lookup_drop, lookup_take_lt by lia. now apply Heq.
    + rewrite lookup_take_ge by lia. symmetry. apply lookup_ge_None_2.
      rewrite length_drop, length_take. fold m. lia.
Qed.

Lemma border_zero (l : nat) : 0 < l -> l <= m -> border p l 0.
Proof. intros Hl Hm. apply border_lookup. repeat split; try lia. Qed.

(** A border of the next prefix extends a border of this one. *)
Lemma border_step (l b : nat) :
  l < m ->
  border p (S l) (S b) <-> border p l b /\ p !! b = p !! l.
Proof.
  intros Hl. rewrite !border_lookup. split.
  - intros (Hb & _ & Heq). split; [split; [lia|split; [lia|]]|].
    + intros t Ht. rewrite (Heq t) by lia. f_equal; lia.
    + rewrite (Heq b) by lia. f_equal; lia.
  - intros ((Hb & _ & Heq) & Hlast). split; [lia|]. split; [lia|].
    intros t Ht. destruct (Nat.eq_dec t b) as [->|Hne].
    + rewrite Hlast. f_equal; lia.
    + rewrite (Heq t) by lia. f_equal; lia.
Qed.

Lemma border_trans (l b c : nat) : border p l b -> border p b c -> border p l c.
Proof.
  rewrite !border_lookup. intros (Hb & Hl & Hlb) (Hc & _ & Hbc).
  split; [lia|]. split; [exact Hl|]. intros t Ht.
  rewrite (Hbc t Ht), (Hlb (b - c + t)) by lia. f_equal; lia.
Qed.

Lemma border_shorter (l b c : nat) :
  border p l b -> border p l c -> c < b -> border p b c.
Proof.
  rewrite !border_lookup. intros (Hb & Hl & Hlb) (Hc & _ & Hlc) Hcb.
  split; [exact Hcb|]. split; [lia|]. intros t Ht.
  rewrite (Hlc t Ht), (Hlb (b - c + t)) by lia. f_equal; lia.
Qed.

(** Every border of the next prefix is at most one longer than the
    longest border of this one. *)
Lemma border_next_bound (l v b : nat) :
  l < m -> longest_border p l v -> border p (S l) b -> b <= v + 1.
Proof.
  intros Hl [_ Hmax] Hb. destruct b as [|b]; [lia|].
  apply border_step in Hb as [Hb _]; [|exact Hl]. apply Hmax in Hb. lia.
Qed.

#[local] Abbreviation lps_filled := (Spec.lps_filled p).
#[local] Abbreviation build_inv := (Spec.build_inv p).

Lemma lps_filled_insert (lps : list nat) (i v : nat) :
  i < m -> lps_filled lps i -> longest_border p (S i) v ->
  lps_filled (<[i := v]> lps) (S i).
Proof.
  intros Hi [Hlen Hfill] Hv. split; [now rewrite length_insert|].
  intros k Hk Hkm. destruct (Nat.eq_dec k i) as [->|Hne].
  - exists v. split; [|exact Hv]. apply list_lookup_insert_eq. lia.
  - rewrite list_lookup_insert_ne by lia. apply Hfill; lia.
Qed.

Lemma build_loop_spec (fuel : nat) :
  forall lps len i,
    build_inv lps len i ->
    2 * (m - i) + len < fuel ->
    exists lps', build_loop fuel p m lps len i = Return lps' /\ lps_filled lps' m.
Proof.
  induction fuel as [|fuel IH]; intros lps len i Hinv Hfuel; [lia|].
  destruct Hinv as (Hi & Hlen & Hfill & Hbord & Hmax).
  cbn [build_loop]. destruct (Nat.ltb_spec i m) as [Him|Him].
  2:{ exists lps. split; [reflexivity|]. now replace m with i by lia. }
  destruct (getitem_lt p i) as (a & Ha & ->); [fold m; lia|].
  destruct (getitem_lt p len) as (b & Hb & ->); [fold m; lia|].
  cbn [bind]. destruct (Z.eqb_spec a b) as [Hab|Hab].
  - (* the border grows by one character *)
    assert (Hv : longest_border p (S i) (len + 1)).
    { split; [|apply Hmax; exact Him].
      replace (len + 1) with (S len) by lia. apply border_step; [exact Him|].
      split; [exact Hbord|]. rewrite Ha, Hb. now subst. }
    rewrite setitem_lt by (destruct Hfill as [-> _]; exact Him). cbn [bind].
    replace (i + 1) with (S i) by lia.
    apply IH; [|lia]. split; [lia|]. split; [lia|].
    split; [now apply lps_filled_insert|]. split; [apply Hv|].
    intros HSi c Hc. pose proof (border_next_bound (S i) (len + 1) c HSi Hv Hc). lia.
  - destruct (Nat.eqb_spec len 0) as [Hz|Hnz]; cbn [negb].
    + (* no border at all *)
      subst len.
      assert (Hv : longest_border p (S i) 0).
      { split; [apply border_zero; lia|]. intros c Hc.
        pose proof (Hmax Him c Hc) as Hle.
        destruct c as [|[|c]]; [lia| |lia]. exfalso.
        apply border_step in Hc as [_ Hc]; [|exact Him].
        rewrite Ha, Hb in Hc. congruence. }
      rewrite setitem_lt by (destruct Hfill as [-> _]; exact Him). cbn [bind].
      replace (i + 1) with (S i) by lia.
      apply IH; [|lia]. split; [lia|]. split; [lia|].
      split; [now apply lps_filled_insert|]. split; [apply Hv|].
      intros HSi c Hc. pose proof (border_next_bound (S i) 0 c HSi Hv Hc). lia.
    + (* fall back to the longest border of the current border *)
      destruct Hfill as [Hlps Hfill].
      destruct (Hfill (len - 1)) as (v & Hlv & Hv); [lia|lia|].
      replace (S (len - 1)) with len in Hv by lia.
      rewrite (getitem_lookup lps (len - 1) v Hlv). cbn [bind].
      pose proof Hv as [Hvb Hvmax].
      assert (Hvlen : v < len) by (apply border_lookup in Hvb; lia).
      apply IH; [|lia]. split; [lia|]. split; [lia|].
      split; [split; assumption|]. split; [now apply border_trans with len|].
      intros _ c Hc. destruct c as [|c]; [lia|].
      pose proof (Hmax Him (S c) Hc) as Hle.
      apply border_step in Hc as [Hc Hlast]; [|exact Him].
      destruct (Nat.eq_dec c len) as [->|Hne].
      * rewrite Ha, Hb in Hlast. congruence.
      * assert (Hc' : border p len c) by (apply border_shorter with i; [assumption..|lia]).
        apply Hvmax in Hc'. lia.
Qed.

End Borders.

(** [_build_failure_function] returns, and fills every entry with the
    length of the longest proper border of the corresponding prefix. *)
Lemma build_failure_function_spec (p : str) :
  exists lps,
    _build_failure_function p = Return lps
    /\ length lps = length p
    /\ forall i, i < length p ->
         exists v, lps !! i = Some v /\ longest_border p (S i) v.
Proof.
  unfold _build_failure_function. destruct p as [|c p'] eqn:Ep.
  - exists []. split; [reflexivity|]. split; [reflexivity|]. simpl. lia.
  - rewrite <- Ep. set (m := length p).
    assert (Hm : 1 <= m) by (subst m p; simpl; lia).
    destruct (build_loop_spec p (2 * m + 1) (replicate m 0) 0 1) as (lps & Hrun & Hlen & Hfill).
    + split; [fold m; lia|]. split; [lia|]. split; [|split].
      * split; [apply length_replicate|]. intros k Hk _.
        assert (k = 0) as -> by lia. exists 0. split.
        -- apply lookup_replicate_2. fold m. lia.
        -- split; [apply border_zero; fold m; lia|].
           intros b Hb. apply border_lookup in Hb. lia.
      * apply border_zero; fold m; lia.
      * intros _ b Hb. apply border_lookup in Hb. lia.
    + fold m. lia.
    + exists lps. split; [exact Hrun|]. split; [exact Hlen|].
      intros i Hi. apply Hfill; exact Hi.
Qed.

End BorderFacts.

(* ================================================================== *)
(** * KMP: the matching loop *)

Module KmpFacts.
Import Algorithms Spec SearchFacts BorderFacts.

Lemma filter_seq_extend (f : nat -> bool) (k k' : nat) :
  k <= k' -> (forall s, k <= s < k' -> f s = false) ->
  List.filter f (seq 0 k') = List.filter f (seq 0 k).
Proof.
  intros Hk Hf. replace k' with (k + (k' - k)) by lia.
  rewrite seq_app, List.filter_app, (filter_none f (seq _ (k' - k))).
  - apply app_nil_r.
  - intros s Hs. apply in_seq in Hs. apply Hf. lia.
Qed.

Lemma filter_seq_snoc (f : nat -> bool) (k : nat) :
  f k = true ->
  List.filter f (seq 0 (S k)) = List.filter f (seq 0 k) ++ [k].
Proof.
  intros Hf. rewrite seq_S, List.filter_app. simpl. now rewrite Hf.
Qed.

Section Matching.

Variables text pattern : str.
Variable lps : list nat.
Let n := length text.
Let m := length pattern.

Hypothesis Hm : 0 < m.
Hypothesis Hmn : m <= n.
Hypothesis Hlps : lps_filled pattern lps m.

#[local] Abbreviation kmp_pre := (Spec.kmp_pre text pattern).

Lemma lps_entry (j : nat) :
  0 < j <= m -> exists v, getitem lps (j - 1) = Return v /\ longest_border pattern j v.
Proof.
  intros Hj. destruct Hlps as [_ Hfill].
  destruct (Hfill (j - 1)) as (v & Hv & Hb); [lia|lia|].
  replace (S (j - 1)) with j in Hb by lia.
  exists v. split; [now apply getitem_lookup | exact Hb].
Qed.

(** No occurrence starts strictly between the current candidate and the
    one obtained by falling back to the longest border. *)
Lemma no_occurrence_in_shift (i j v s : nat) (ms : list nat) :
  kmp_pre i j ms -> longest_border pattern j v ->
  i - j < s < i - v -> occurs_at text pattern s = false.
Proof.
  intros (Hi & Hj & Hji & Hpre & _) [Hv Hmax] Hs.
  apply not_true_is_false. intros Hocc.
  assert (Hsm : s + m <= n) by (apply (occurs_at_bound text pattern s); [fold n; lia|exact Hocc]).
  pose proof (proj1 (occurs_at_lookup text pattern s Hsm) Hocc) as Hlook.
  fold m in Hlook.
  assert (Hvj : v < j) by (apply border_lookup in Hv; lia).
  assert (Hc : border pattern j (i - s)).
  { apply border_lookup. fold m. split; [lia|]. split; [lia|].
    intros t Ht. rewrite <- (Hlook t) by lia.
    rewrite <- (Hpre (j - (i - s) + t)) by lia. f_equal; lia. }
  apply Hmax in Hc. lia.
Qed.

Lemma fallback_prefix (i j v : nat) (ms : list nat) :
  kmp_pre i j ms -> border pattern j v ->
  forall t, t < v -> text !! (i - v + t) = pattern !! t.
Proof.
  intros (Hi & Hj & Hji & Hpre & _) Hv t Ht.
  apply border_lookup in Hv as (Hvj & _ & Hv).
  rewrite (Hv t Ht), <- (Hpre (j - v + t)) by lia. f_equal; lia.
Qed.

(** Falling back after a mismatch at a non-empty partial match. *)
Lemma shift_mismatch (i j v : nat) (ms : list nat) :
  kmp_pre i j ms -> j < m -> i < n -> 0 < j ->
  text !! i <> pattern !! j ->
  longest_border pattern j v ->
  kmp_pre i v ms.
Proof.
  intros Hpre Hjm Hin Hj Hneq Hv.
  pose proof Hpre as (Hi & _ & Hji & Hmatch & Hms).
  assert (Hvj : v < j) by (destruct Hv as [Hv _]; apply border_lookup in Hv; lia).
  split; [lia|]. split; [lia|]. split; [lia|].
  split; [apply (fallback_prefix i j v ms Hpre), Hv|].
  rewrite Hms. symmetry. apply filter_seq_extend; [lia|].
  intros s Hs. destruct (Nat.eq_dec s (i - j)) as [->|Hne].
  - apply not_true_is_false. intros Hocc.
    assert (Hsm : i - j + m <= n)
      by (apply (occurs_at_bound text pattern); [fold n; lia|exact Hocc]).
    pose proof (proj1 (occurs_at_lookup text pattern _ Hsm) Hocc j Hjm) as Hlook.
    apply Hneq. rewrite <- Hlook. f_equal; lia.
  - apply (no_occurrence_in_shift i j v s ms Hpre Hv). lia.
Qed.

(** A mismatch on the first character of the pattern. *)
Lemma shift_zero (i : nat) (ms : list nat) :
  kmp_pre i 0 ms -> i < n -> text !! i <> pattern !! 0 -> kmp_pre (i + 1) 0 ms.
Proof.
  intros (Hi & _ & _ & _ & Hms) Hin Hneq.
  split; [lia|]. split; [lia|]. split; [lia|]. split; [intros t Ht; lia|].
  rewrite Hms. symmetry. apply filter_seq_extend; [lia|].
  intros s Hs. assert (s = i) as -> by lia.
  apply not_true_is_false. intros Hocc.
  assert (Hsm : i + m <= n)
    by (apply (occurs_at_bound text pattern); [fold n; lia|exact Hocc]).
  pose proof (proj1 (occurs_at_lookup text pattern _ Hsm) Hocc 0 Hm) as Hlook.
  apply Hneq. rewrite <- Hlook. f_equal; lia.
Qed.

(** Recording a full match and falling back. *)
Lemma shift_match (i v : nat) (ms : list nat) :
  kmp_pre i m ms -> longest_border pattern m v ->
  kmp_pre i v (ms ++ [i - m]).
Proof.
  intros Hpre Hv. pose proof Hpre as (Hi & _ & Hji & Hmatch & Hms).
  assert (Hvj : v < m) by (destruct Hv as [Hv _]; apply border_lookup in Hv; lia).
  assert (Hocc : occurs_at text pattern (i - m) = true).
  { apply occurs_at_lookup; fold n m; [lia|]. exact Hmatch. }
  split; [lia|]. split; [lia|]. split; [lia|].
  split; [apply (fallback_prefix i m v ms Hpre), Hv|].
  rewrite Hms, <- (filter_seq_snoc _ _ Hocc). symmetry.
  apply filter_seq_extend; [lia|].
  intros s Hs. apply (no_occurrence_in_shift i m v s ms Hpre Hv). lia.
Qed.

(** One more matched character. *)
Lemma advance (i j : nat) (ms : list nat) :
  kmp_pre i j ms -> j < m -> i < n -> text !! i = pattern !! j ->
  kmp_pre (i + 1) (j + 1) ms.
Proof.
  intros (Hi & Hj & Hji & Hmatch & Hms) Hjm Hin Heq.
  split; [lia|]. split; [lia|]. split; [lia|]. split.
  - intros t Ht. replace (i + 1 - (j + 1) + t) with (i - j + t) by lia.
    destruct (Nat.eq_dec t j) as [->|Hne].
    + rewrite <- Heq. f_equal; lia.
    + apply Hmatch. lia.
  - rewrite Hms. f_equal. f_equal. lia.
Qed.

(** When the text is exhausted every start offset is decided. *)
Lemma kmp_final (j : nat) (ms : list nat) :
  kmp_pre n j ms -> j < m -> ms = match_positions text pattern.
Proof.
  intros (_ & _ & Hjn & _ & Hms) Hjm.
  rewrite (match_positions_range text pattern Hmn). fold n m.
  rewrite Hms. apply filter_seq_extend; [lia|].
  intros s Hs. apply not_true_is_false. intros Hocc.
  apply (occurs_at_bound text pattern) in Hocc; [|fold n; lia].
  fold n m in Hocc. lia.
Qed.

Lemma kmp_loop_spec (fuel : nat) :
  forall i j ms c,
    kmp_pre i j ms -> j < m ->
    2 * (n - i) + j < fuel ->
    exists c',
      kmp_loop fuel text pattern lps n m i j ms c
      = Return (match_positions text pattern, c').
Proof.
  induction fuel as [|fuel IH]; intros i j ms c Hpre Hjm Hfuel; [lia|].
  pose proof Hpre as (Hi & _ & Hji & _ & _).
  cbn [kmp_loop]. destruct (Nat.ltb_spec i n) as [Hin|Hin].
  2:{ exists c. do 2 f_equal. apply (kmp_final j); [|exact Hjm].
      now replace n with i by lia. }
  destruct (getitem_lt text i) as (a & Ha & Hga); [fold n; lia|].
  destruct (getitem_lt pattern j) as (b & Hb & Hgb); [fold m; lia|].
  rewrite Hga, Hgb. cbn [bind].
  destruct (Z.eqb_spec a b) as [Hab|Hab].
  - (* the characters agree *)
    assert (Hadv : kmp_pre (i + 1) (j + 1) ms).
    { apply advance; try assumption. rewrite Ha, Hb. now subst. }
    destruct (Nat.eqb_spec (j + 1) m) as [Hfull|Hpart].
    + destruct (lps_entry (j + 1)) as (v & Hgv & Hv); [lia|].
      rewrite Hgv. cbn [bind]. rewrite Hfull in Hadv, Hv.
      pose proof (shift_match (i + 1) v ms Hadv Hv) as Hnext.
      assert (Hvm : v < m) by (destruct Hv as [Hv _]; apply border_lookup in Hv; lia).
      rewrite Hfull. apply IH; [exact Hnext|exact Hvm|lia].
    + destruct (Nat.ltb_spec (i + 1) n) as [Hin'|Hin'].
      * destruct (getitem_lt text (i + 1)) as (a' & Ha' & Hga'); [fold n; lia|].
        destruct (getitem_lt pattern (j + 1)) as (b' & Hb' & Hgb'); [fold m; lia|].
        rewrite Hga', Hgb'. cbn [bind].
        destruct (Z.eqb_spec a' b') as [Hab'|Hab']; cbn [negb].
        -- apply IH; [exact Hadv|lia|lia].
        -- destruct (Nat.eqb_spec (j + 1) 0) as [Hz|_]; [lia|]. cbn [negb].
           destruct (lps_entry (j + 1)) as (v & Hgv & Hv); [lia|].
           rewrite Hgv. cbn [bind].
           assert (Hvm : v < j + 1)
             by (destruct Hv as [Hv _]; apply border_lookup in Hv; lia).
           apply IH; [|lia|lia].
           apply (shift_mismatch (i + 1) (j + 1)); try assumption; try lia.
           rewrite Ha', Hb'. congruence.
      * apply IH; [exact Hadv|lia|lia].
  - (* the characters differ *)
    destruct (Nat.eqb_spec j m) as [Hfull|_]; [lia|].
    destruct (Nat.ltb_spec i n) as [_|Hge]; [|lia].
    rewrite Hga, Hgb. cbn [bind].
    destruct (Z.eqb_spec a b) as [Hab'|_]; [contradiction|]. cbn [negb].
    assert (Hneq : text !! i <> pattern !! j) by (rewrite Ha, Hb; congruence).
    destruct (Nat.eqb_spec j 0) as [Hz|Hnz]; cbn [negb].
    + subst j. apply IH; [now apply shift_zero|exact Hjm|lia].
    + destruct (lps_entry j) as (v & Hgv & Hv); [lia|].
      rewrite Hgv. cbn [bind].
      assert (Hvm : v < j)
        by (destruct Hv as [Hv _]; apply border_lookup in Hv; lia).
      apply IH; [|lia|lia].
      apply (shift_mismatch i j); try assumption. lia.
Qed.

End Matching.

End KmpFacts.

(* ================================================================== *)
(** * The three searches *)

Module SearchCorrect.
Import Algorithms Spec SearchFacts HashFacts BorderFacts KmpFacts.

Lemma occurs_at_empty (text : str) (i : nat) : occurs_at text [] i = true.
Proof. reflexivity. Qed.

Lemma match_positions_empty (text : str) :
  match_positions text [] = seq 0 (S (length text)).
Proof.
  unfold match_positions. generalize (seq 0 (S (length text))).
  induction l as [|i l IH]; [reflexivity|].
  cbn [List.filter]. rewrite occurs_at_empty. now f_equal.
Qed.

Section Core.

Variables text pattern : str.
Let n := length text.
Let m := length pattern.

Lemma brute_force_core :
  m <= n ->
  exists c,
    for_range 0 (n - m + 1) (brute_force_body text pattern m) ([], 0)
    = Return (match_positions text pattern, c)
    /\ (m = 0 -> c = 0).
Proof.
  intros Hmn.
  destruct (brute_force_loop text pattern (n - m + 1) 0 [] 0) as (c & Hrun & Hc);
    [fold n m; lia|].
  exists c. split; [|exact Hc].
  fold m in Hrun. rewrite Hrun. now rewrite (match_positions_range text pattern Hmn).
Qed.

Lemma rabin_karp_core :
  0 < m -> m <= n ->
  exists st,
    (hs <- for_range 0 m (rk_init_body text pattern) (0%Z, 0%Z) ;;
     let '(pattern_hash, text_hash) := hs in
     for_range 0 (n - m + 1)
       (rabin_karp_body text pattern n m pattern_hash (rk_h m)) (mkRk text_hash [] 0 0))
    = Return st
    /\ rk_matches st = match_positions text pattern.
Proof.
  intros Hm Hmn. unfold n, m in *. rewrite (rk_init text pattern Hmn). cbn [bind].
  destruct (rabin_karp_loop text pattern (n - m + 1) 0
              (mkRk (horner_hash (window text pattern 0)) [] 0 0) Hm)
    as (st & Hrun & Hms & _); [lia|reflexivity|].
  exists st. split; [exact Hrun|].
  rewrite Hms. now rewrite (match_positions_range text pattern Hmn).
Qed.

Lemma kmp_core :
  0 < m -> m <= n ->
  exists c,
    (lps <- _build_failure_function pattern ;;
     kmp_loop (2 * n + 1) text pattern lps n m 0 0 [] 0)
    = Return (match_positions text pattern, c).
Proof.
  intros Hm Hmn.
  destruct (build_failure_function_spec pattern) as (lps & -> & Hlen & Hfill).
  cbn [bind].
  apply (kmp_loop_spec text pattern lps Hm Hmn); [| |exact Hm|lia].
  - split; [exact Hlen|]. intros k _ Hk. now apply Hfill.
  - split; [lia|]. split; [lia|]. split; [lia|]. split; [intros t Ht; lia|reflexivity].
Qed.

End Core.

Section Searches.

Variable lower : str -> str.

Lemma brute_force_search_spec (text pattern : str) (cs : bool) :
  let text' := normalize lower cs text in
  let pattern' := normalize lower cs pattern in
  exists c,
    brute_force_search lower text pattern cs
    = Return (mkSearchResult (match_positions text' pattern') c "Brute Force"
                (length pattern') (length text'))
    /\ (pattern' = [] -> c = 0).
Proof.
  intros text' pattern'. unfold brute_force_search. fold text' pattern'.
  destruct (Nat.ltb_spec (length text') (length pattern')) as [Hlt|Hge].
  - exists 0. rewrite match_positions_too_long by exact Hlt. split; reflexivity.
  - destruct (brute_force_core text' pattern' Hge) as (c & -> & Hc).
    exists c. split; [reflexivity|]. intros ->. now apply Hc.
Qed.

Lemma rabin_karp_search_spec (text pattern : str) (cs : bool) :
  let text' := normalize lower cs text in
  let pattern' := normalize lower cs pattern in
  pattern' <> [] ->
  exists c,
    rabin_karp_search lower text pattern cs
    = Return (mkSearchResult (match_positions text' pattern') c "Rabin-Karp"
                (length pattern') (length text')).
Proof.
  intros text' pattern' Hne. unfold rabin_karp_search. fold text' pattern'.
  destruct (Nat.ltb_spec (length text') (length pattern')) as [Hlt|Hge].
  - exists 0. now rewrite match_positions_too_long by exact Hlt.
  - assert (Hm : 0 < length pattern') by (destruct pattern'; [congruence|simpl; lia]).
    destruct (rabin_karp_core text' pattern' Hm Hge) as (st & Hrun & Hms).
    destruct (for_range 0 (length pattern') (rk_init_body text' pattern') (0%Z, 0%Z))
      as [[ph th]| |]; cbn [bind] in *; try discriminate.
    rewrite Hrun. cbn [bind]. rewrite Hms. eauto.
Qed.

Lemma kmp_search_spec (text pattern : str) (cs : bool) :
  let text' := normalize lower cs text in
  let pattern' := normalize lower cs pattern in
  pattern' <> [] ->
  exists c,
    kmp_search lower text pattern cs
    = Return (mkSearchResult (match_positions text' pattern') c "KMP"
                (length pattern') (length text')).
Proof.
  intros text' pattern' Hne. unfold kmp_search. fold text' pattern'.
  destruct (Nat.ltb_spec (length text') (length pattern')) as [Hlt|Hge].
  - exists 0. now rewrite match_positions_too_long by exact Hlt.
  - assert (Hm : 0 < length pattern') by (destruct pattern'; [congruence|simpl; lia]).
    destruct (kmp_core text' pattern' Hm Hge) as (c & Hrun).
    destruct (_build_failure_function pattern') as [lps| |]; cbn [bind] in *;
      try discriminate.
    rewrite Hrun. cbn [bind]. eauto.
Qed.

(** Rabin-Karp on the empty pattern. *)
Lemma rabin_karp_search_empty (text pattern : str) (cs : bool) :
  let text' := normalize lower cs text in
  normalize lower cs pattern = [] ->
  exists l,
    rabin_karp_search lower text pattern cs
    = Return (mkSearchResult (0 :: l) 0 "Rabin-Karp" 0 (length text'))
    /\ sublist (0 :: l) (seq 0 (S (length text'))).
Proof.
  intros text' He. unfold rabin_karp_search. fold text'. rewrite He.
  cbn [length for_range bind]. destruct (Nat.ltb_spec (length text') 0) as [Hlt|_]; [lia|].
  destruct (rabin_karp_loop_empty text' [] (length text' - 0 + 1) 0 (mkRk 0 [] 0 0) 0%Z (rk_h 0))
    as (st & l & Hrun & Hc & Hms & Hsub & Hhead); [reflexivity|lia|].
  cbn [length] in Hrun. rewrite Hrun. cbn [bind].
  destruct Hhead as (l' & ->); [lia|reflexivity|].
  exists l'. cbn in Hc, Hms. rewrite Hc, Hms. split; [reflexivity|].
  now replace (S (length text')) with (length text' - 0 + 1) by lia.
Qed.

(** KMP on the empty pattern: indexing the pattern fails as soon as the
    text has a character. *)
Lemma kmp_search_empty (text pattern : str) (cs : bool) :
  normalize lower cs pattern = [] ->
  kmp_search lower text pattern cs =
  match normalize lower cs text with
  | [] => Return (mkSearchResult [] 0 "KMP" 0 0)
  | _ :: _ => Raise IndexError
  end.
Proof.
  intros He. unfold kmp_search. rewrite He.
  destruct (normalize lower cs text) as [|c t]; [reflexivity|].
  cbn [length]. destruct (Nat.ltb_spec (S (length t)) 0); [lia|].
  unfold _build_failure_function. cbn [length Nat.mul Nat.add build_loop Nat.ltb Nat.leb bind].
  replace (2 * S (length t) + 1) with (S (2 * S (length t))) by lia.
  reflexivity.
Qed.

End Searches.

End SearchCorrect.

(* ================================================================== *)
(** * Blank keywords and [strip] *)

Module StripFacts.

Lemma lstrip_nil_iff (s : str) : lstrip s = [] <-> blank s = true.
Proof.
  unfold blank. induction s as [|c s IH]; simpl; [tauto|].
  destruct (is_space c); simpl; [exact IH|]. split; discriminate.
Qed.

Lemma lstrip_head (s : str) (c : Z) (s' : str) :
  lstrip s = c :: s' -> is_space c = false.
Proof.
  induction s as [|d s IH]; simpl; [discriminate|].
  destruct (is_space d) eqn:Hd; [exact IH|]. intros H. injection H as -> _. exact Hd.
Qed.

Lemma lstrip_snoc (s : str) (c : Z) :
  is_space c = false -> lstrip (s ++ [c]) = lstrip s ++ [c].
Proof.
  intros Hc. induction s as [|d s IH]; simpl.
  - now rewrite Hc.
  - destruct (is_space d); [exact IH|reflexivity].
Qed.

Lemma rstrip_cons (c : Z) (s : str) :
  is_space c = false -> exists s', rstrip (c :: s) = c :: s'.
Proof.
  intros Hc. unfold rstrip. simpl. rewrite lstrip_snoc by exact Hc.
  rewrite rev_app_distr. simpl. eauto.
Qed.

(** A keyword is skipped by the loop exactly when it is blank. *)
Lemma strip_nil_iff (s : str) : strip s = [] <-> blank s = true.
Proof.
  rewrite <- lstrip_nil_iff. unfold strip. split.
  - intros H. destruct (lstrip s) as [|c s'] eqn:E; [reflexivity|].
    destruct (rstrip_cons c s' (lstrip_head s c s' E)) as (s'' & Hs).
    rewrite Hs in H. discriminate.
  - intros ->. reflexivity.
Qed.

(** What [strip] leaves of a non-blank keyword is not blank. *)
Lemma strip_not_blank (s : str) : strip s <> [] -> blank (strip s) = false.
Proof.
  intros Hne. unfold strip in *. destruct (lstrip s) as [|c s'] eqn:E.
  - now elim Hne.
  - pose proof (lstrip_head s c s' E) as Hc.
    destruct (rstrip_cons c s' Hc) as (s'' & ->).
    unfold blank. simpl. now rewrite Hc.
Qed.

End StripFacts.

(* ================================================================== *)
(** * Single-CV scoring *)

Module AnalyzeFacts.
Import Algorithms Spec SearchCorrect StripFacts Analyzer.

Lemma blank_strip (k : str) : blank (strip k) = blank k.
Proof.
  destruct (blank k) eqn:Hb.
  - apply strip_nil_iff in Hb. now rewrite Hb.
  - apply strip_not_blank. intros H. apply strip_nil_iff in H. congruence.
Qed.

Lemma searched_keywords_length (kws : list str) :
  length (searched_keywords kws) <= length kws.
Proof.
  unfold searched_keywords.
  pose proof (List.filter_length_le (fun k => negb (blank k)) (map strip kws)) as H.
  now rewrite length_map in H.
Qed.

Lemma searched_keywords_blank (kws : list str) (k : str) :
  In k kws -> blank k = true -> length (searched_keywords kws) < length kws.
Proof.
  unfold searched_keywords. induction kws as [|x kws IH]; simpl; [tauto|].
  intros [->|Hin] Hb.
  - rewrite blank_strip, Hb. simpl.
    pose proof (List.filter_length_le (fun k => negb (blank k)) (map strip kws)) as H.
    rewrite length_map in H. lia.
  - specialize (IH Hin Hb). destruct (negb (blank (strip x))); simpl; lia.
Qed.

Lemma searched_keywords_not_blank (kws : list str) (k : str) :
  In k (searched_keywords kws) -> blank k = false.
Proof.
  unfold searched_keywords. intros H. apply List.filter_In in H as [_ H].
  now apply negb_true_iff in H.
Qed.

Section Analyze.

Variable lower : str -> str.

(** [str.lower] never empties a string. *)
Hypothesis lower_nonempty : forall s : str, s <> [] -> lower s <> [].

Lemma normalize_nonempty (cs : bool) (s : str) : s <> [] -> normalize lower cs s <> [].
Proof. destruct cs; simpl; auto. Qed.

Lemma run_algorithm_known (algorithm : string) (cv_text keyword : str) (cs : bool) :
  known_algorithm algorithm -> keyword <> [] ->
  exists r, run_algorithm lower algorithm cv_text keyword cs = Return r.
Proof.
  intros Hk Hne. pose proof (normalize_nonempty cs keyword Hne) as Hn.
  unfold run_algorithm. destruct Hk as [-> | [-> | ->]]; cbn [String.eqb Ascii.eqb Bool.eqb].
  - destruct (brute_force_search_spec lower cv_text keyword cs) as (c & -> & _). eauto.
  - destruct (rabin_karp_search_spec lower cv_text keyword cs Hn) as (c & ->). eauto.
  - destruct (kmp_search_spec lower cv_text keyword cs Hn) as (c & ->). eauto.
Qed.

Lemma run_algorithm_unknown (algorithm : string) (cv_text keyword : str) (cs : bool) :
  ~ known_algorithm algorithm ->
  run_algorithm lower algorithm cv_text keyword cs
  = Raise (ValueError ("Unknown algorithm: " ++ algorithm)).
Proof.
  intros Hk. unfold run_algorithm, known_algorithm in *.
  destruct (String.eqb_spec algorithm "Brute Force"); [tauto|].
  destruct (String.eqb_spec algorithm "Rabin-Karp"); [tauto|].
  destruct (String.eqb_spec algorithm "KMP"); [tauto|]. reflexivity.
Qed.

(** Whatever the loop returns, it has distributed exactly the non-blank
    keywords, stripped, over the two lists. *)
Lemma keyword_loop_returns (cv_text : str) (algorithm : string) (cs : bool)
    (kws : list str) :
  forall matched missing c matched' missing' c',
    keyword_loop lower cv_text algorithm cs kws (matched, missing, c)
    = Return (matched', missing', c') ->
    exists l1 l2,
      matched' = matched ++ l1 /\ missing' = missing ++ l2
      /\ (forall k, In k l1 \/ In k l2 -> In k (searched_keywords kws))
      /\ length l1 + length l2 = length (searched_keywords kws).
Proof.
  induction kws as [|kw kws IH]; intros matched missing c matched' missing' c' Hrun.
  - simpl in Hrun. injection Hrun as <- <- <-. exists [], [].
    rewrite !app_nil_r. repeat split; try reflexivity. simpl. tauto.
  - cbn [keyword_loop] in Hrun. unfold searched_keywords. cbn [map List.filter].
    destruct (strip kw) as [|ch rest] eqn:Hs.
    + assert (Hb : blank [] = true) by reflexivity. rewrite Hb. cbn [negb].
      apply (IH _ _ _ _ _ _ Hrun).
    + assert (Hb : blank (ch :: rest) = false).
      { rewrite <- Hs. apply strip_not_blank. rewrite Hs. discriminate. }
      rewrite Hb. cbn [negb].
      apply bind_Return_inv in Hrun as (r & _ & Hrun).
      destruct (matches r) as [|p ps].
      * destruct (IH _ _ _ _ _ _ Hrun) as (l1 & l2 & -> & -> & Hin & Hlen).
        exists l1, ((ch :: rest) :: l2). rewrite <- app_assoc.
        split; [reflexivity|]. split; [reflexivity|]. split.
        -- intros k [Hk|[<-|Hk]]; [right; apply Hin; now left|now left|right; apply Hin; now right].
        -- cbn [length]. fold (searched_keywords kws). lia.
      * destruct (IH _ _ _ _ _ _ Hrun) as (l1 & l2 & -> & -> & Hin & Hlen).
        exists ((ch :: rest) :: l1), l2. rewrite <- app_assoc.
        split; [reflexivity|]. split; [reflexivity|]. split.
        -- intros k [[<-|Hk]|Hk]; [now left|right; apply Hin; now left|right; apply Hin; now right].
        -- cbn [length]. fold (searched_keywords kws). lia.
Qed.

(** With one of the three algorithm names the loop runs to its end. *)
Lemma keyword_loop_known (cv_text : str) (algorithm : string) (cs : bool)
    (kws : list str) :
  known_algorithm algorithm ->
  forall st, exists st', keyword_loop lower cv_text algorithm cs kws st = Return st'.
Proof.
  intros Hk. induction kws as [|kw kws IH]; intros [[matched missing] c].
  - simpl. eauto.
  - cbn [keyword_loop]. destruct (strip kw) as [|ch rest] eqn:Hs; [apply IH|].
    destruct (run_algorithm_known algorithm cv_text (ch :: rest) cs Hk) as (r & ->);
      [discriminate|].
    cbn [bind]. destruct (matches r); apply IH.
Qed.

(** With any other name the first non-blank keyword raises. *)
Lemma keyword_loop_unknown (cv_text : str) (algorithm : string) (cs : bool)
    (kws : list str) :
  ~ known_algorithm algorithm ->
  (exists k, In k kws /\ blank k = false) ->
  forall st,
    keyword_loop lower cv_text algorithm cs kws st
    = Raise (ValueError ("Unknown algorithm: " ++ algorithm)).
Proof.
  intros Hk. induction kws as [|kw kws IH]; intros (k & Hin & Hb) [[matched missing] c].
  - destruct Hin.
  - cbn [keyword_loop]. destruct (strip kw) as [|ch rest] eqn:Hs.
    + apply IH. exists k. split; [|exact Hb]. destruct Hin as [->|Hin]; [|exact Hin].
      apply strip_nil_iff in Hs. congruence.
    + now rewrite run_algorithm_unknown by exact Hk.
Qed.

End Analyze.

End AnalyzeFacts.

(* ================================================================== *)
(** * Facts about binary64 arithmetic *)

Module FloatFacts.
Import Spec.

Lemma binary_round_aux_sign (mx ex : Z) (lx : SpecFloat.location) :
  sign_clear (binary_round_aux prec emax false mx ex lx).
Proof.
  unfold binary_round_aux.
  destruct (shr_fexp prec emax mx ex lx) as [mrs' e'].
  destruct (shr_fexp prec emax _ e' SpecFloat.loc_Exact) as [mrs'' e''].
  destruct (shr_m mrs''); simpl; [reflexivity| |exact I].
  destruct (Z.leb _ _); reflexivity.
Qed.

Lemma binary_normalize_sign (m e : Z) :
  (0 <= m)%Z -> sign_clear (binary_normalize prec emax m e false).
Proof.
  intros Hm. destruct m as [|m|m]; simpl; [reflexivity| |lia].
  unfold binary_round. destruct (shl_align _ _ _) as [mz ez].
  apply binary_round_aux_sign.
Qed.

Lemma of_uint63_sign (i : int) : sign_clear (Prim2SF (PrimFloat.of_uint63 i)).
Proof.
  rewrite FloatAxioms.of_uint63_spec. apply binary_normalize_sign.
  pose proof (Uint63.to_Z_bounded i). lia.
Qed.

(** [0.0 / float(n) + 0] is [0.0 / float(n)]. *)
Lemma zero_div_plus_zero (n : nat) :
  (0 / float_of_nat n + 0 = 0 / float_of_nat n)%float.
Proof.
  unfold float_of_nat. set (y := PrimFloat.of_uint63 _).
  pose proof (of_uint63_sign (Uint63.of_Z (Z.of_nat n))) as Hy. fold y in Hy.
  apply Prim2SF_inj. rewrite FloatAxioms.add_spec, FloatAxioms.div_spec.
  change (Prim2SF 0) with (S754_zero false).
  destruct (Prim2SF y) as [s|s| |s mant e]; simpl in Hy; subst; reflexivity.
Qed.

(** ** Order *)

Lemma SFcompare_antisym (x y : spec_float) :
  SFcompare y x = option_map CompOpp (SFcompare x y).
Proof.
  destruct x as [sx|sx| |sx mx ex], y as [sy|sy| |sy my ey]; simpl;
    try reflexivity;
    try (destruct sx; reflexivity); try (destruct sy; reflexivity);
    try (destruct sx, sy; reflexivity).
  change (PosDef.Pos.compare_cont Eq my mx) with (Pos.compare my mx).
  change (PosDef.Pos.compare_cont Eq mx my) with (Pos.compare mx my).
  rewrite (Z.compare_antisym ey ex), (Pos.compare_antisym my mx).
  destruct sx, sy; simpl; try reflexivity;
    destruct (ey ?= ex)%Z, (my ?= mx)%positive; reflexivity.
Qed.

Lemma ltb_asym (x y : float) : PrimFloat.ltb x y = true -> PrimFloat.ltb y x = false.
Proof.
  rewrite !FloatAxioms.ltb_spec. unfold SFltb. rewrite (SFcompare_antisym (Prim2SF x) (Prim2SF y)).
  destruct (SFcompare (Prim2SF x) (Prim2SF y)) as [[| |]|]; simpl; congruence.
Qed.

Lemma SFcompare_eq_trans (x y k : spec_float) :
  SFcompare x k = Some Eq -> SFcompare y k = Some Eq -> SFcompare x y = Some Eq.
Proof.
  destruct x as [sx|sx| |sx mx ex], y as [sy|sy| |sy my ey], k as [sk|sk| |sk mk ek];
    simpl; try discriminate; try reflexivity;
    try (destruct sx; discriminate); try (destruct sy; discriminate);
    try (destruct sk; discriminate);
    try (destruct sx, sk; discriminate); try (destruct sy, sk; discriminate).
  - destruct sx, sy, sk; simpl; try discriminate; reflexivity.
  - destruct sx, sy, sk; simpl; try discriminate;
      destruct (Z.compare_spec ex ek); try discriminate;
      destruct (Z.compare_spec ey ek); try discriminate; subst;
      rewrite Z.compare_refl;
      change (PosDef.Pos.compare_cont Eq mx mk) with (Pos.compare mx mk) in *;
      change (PosDef.Pos.compare_cont Eq my mk) with (Pos.compare my mk) in *;
      change (PosDef.Pos.compare_cont Eq mx my) with (Pos.compare mx my) in *;
      destruct (Pos.compare_spec mx mk); try discriminate;
      destruct (Pos.compare_spec my mk); try discriminate; subst;
      rewrite Pos.compare_refl; reflexivity.
Qed.

Lemma eqb_not_ltb (x y k : float) :
  PrimFloat.eqb x k = true -> PrimFloat.eqb y k = true -> PrimFloat.ltb x y = false.
Proof.
  rewrite !FloatAxioms.eqb_spec, FloatAxioms.ltb_spec. unfold SFeqb, SFltb. intros Hx Hy.
  rewrite (SFcompare_eq_trans (Prim2SF x) (Prim2SF y) (Prim2SF k)); [reflexivity| |].
  - destruct (SFcompare (Prim2SF x) (Prim2SF k)) as [[| |]|]; congruence.
  - destruct (SFcompare (Prim2SF y) (Prim2SF k)) as [[| |]|]; congruence.
Qed.

(** On floats other than NaN the order is total, so "not smaller" is
    transitive. *)
Lemma SFcompare_ge_trans (x y z : spec_float) :
  SFcompare x x = Some Eq -> SFcompare y y = Some Eq -> SFcompare z z = Some Eq ->
  SFcompare x y <> Some Lt -> SFcompare y z <> Some Lt -> SFcompare x z <> Some Lt.
Proof.
  destruct x as [sx|sx| |sx mx ex], y as [sy|sy| |sy my ey], z as [sz|sz| |sz mz ez];
    simpl; try discriminate; intros _ _ _;
    try (destruct sx; simpl; congruence);
    try (destruct sy; simpl; congruence);
    try (destruct sz; simpl; congruence);
    try (destruct sx, sy; simpl; congruence);
    try (destruct sx, sz; simpl; congruence);
    try (destruct sy, sz; simpl; congruence);
    try (destruct sx, sy, sz; simpl; congruence).
  change (PosDef.Pos.compare_cont Eq mx my) with (Pos.compare mx my).
  change (PosDef.Pos.compare_cont Eq my mz) with (Pos.compare my mz).
  change (PosDef.Pos.compare_cont Eq mx mz) with (Pos.compare mx mz).
  destruct sx, sy, sz; simpl; try congruence;
    destruct (Z.compare_spec ex ey); try congruence;
    destruct (Z.compare_spec ey ez); try congruence;
    destruct (Z.compare_spec ex ez); try congruence; try lia;
    destruct (Pos.compare_spec mx my); simpl; try congruence;
    destruct (Pos.compare_spec my mz); simpl; try congruence;
    destruct (Pos.compare_spec mx mz); simpl; try congruence; lia.
Qed.

Lemma ltb_false_trans (x y z : float) :
  PrimFloat.eqb x x = true -> PrimFloat.eqb y y = true -> PrimFloat.eqb z z = true ->
  PrimFloat.ltb x y = false -> PrimFloat.ltb y z = false -> PrimFloat.ltb x z = false.
Proof.
  rewrite !FloatAxioms.eqb_spec, !FloatAxioms.ltb_spec. unfold SFeqb, SFltb.
  intros Hx Hy Hz Hxy Hyz.
  pose proof (SFcompare_ge_trans (Prim2SF x) (Prim2SF y) (Prim2SF z)) as H.
  destruct (SFcompare (Prim2SF x) (Prim2SF x)) as [[| |]|]; try discriminate.
  destruct (SFcompare (Prim2SF y) (Prim2SF y)) as [[| |]|]; try discriminate.
  destruct (SFcompare (Prim2SF z) (Prim2SF z)) as [[| |]|]; try discriminate.
  destruct (SFcompare (Prim2SF x) (Prim2SF y)) as [[| |]|]; try discriminate;
    destruct (SFcompare (Prim2SF y) (Prim2SF z)) as [[| |]|]; try discriminate;
    destruct (SFcompare (Prim2SF x) (Prim2SF z)) as [[| |]|]; try reflexivity;
    exfalso; apply H; congruence.
Qed.

End FloatFacts.

(* ================================================================== *)
(** * Scores *)

Module ScoreFacts.
Import Spec Analyzer FloatFacts.

Lemma score_matches_formula (matched total : list str) :
  _calculate_relevance_score matched total
  = relevance_formula (length matched) (length total).
Proof.
  unfold _calculate_relevance_score, relevance_formula.
  destruct total as [|t total]; [reflexivity|].
  cbn [length Nat.eqb]. destruct matched as [|k matched]; [|reflexivity].
  cbn [length Nat.ltb Nat.leb].
  change (float_of_nat 0) with 0%float.
  now rewrite zero_div_plus_zero.
Qed.

Lemma filter_map_comm {A B : Type} (f : A -> B) (p : B -> bool) (l : list A) :
  List.filter p (map f l) = map f (List.filter (fun x => p (f x)) l).
Proof.
  induction l as [|x l IH]; simpl; [reflexivity|].
  destruct (p (f x)); simpl; now rewrite IH.
Qed.

Lemma batch_average_spec (cv_results : list AnalysisResult) :
  batch_average cv_results = average_of_positive (map relevance_score cv_results).
Proof.
  unfold batch_average, average_of_positive. rewrite filter_map_comm.
  destruct (List.filter _ cv_results) as [|r rs]; [reflexivity|].
  cbn [map length Nat.eqb]. now rewrite length_map.
Qed.

End ScoreFacts.

(* ================================================================== *)
(** * Ranking *)

Module RankFacts.
Import Spec Analyzer FloatFacts.

Section Sorting.

Context {A : Type} (key : A -> float).

#[local] Abbreviation not_below := (Spec.not_below key).

Lemma insert_reverse_perm (x : A) (l : list A) :
  Permutation (insert_reverse key x l) (x :: l).
Proof.
  induction l as [|y l IH]; simpl; [reflexivity|].
  destruct (PrimFloat.ltb (key x) (key y)); [|reflexivity].
  rewrite IH. apply perm_swap.
Qed.

Lemma sorted_reverse_perm (l : list A) : Permutation (sorted_reverse key l) l.
Proof.
  induction l as [|x l IH]; simpl; [reflexivity|].
  rewrite insert_reverse_perm. now constructor.
Qed.

Lemma insert_reverse_hd (x y : A) (l : list A) :
  PrimFloat.ltb (key x) (key y) = true ->
  HdRel not_below y l -> HdRel not_below y (insert_reverse key x l).
Proof.
  intros Hxy Hl. destruct l as [|z l]; simpl.
  - constructor. now apply ltb_asym.
  - destruct (PrimFloat.ltb (key x) (key z)).
    + constructor. now inversion Hl.
    + constructor. now apply ltb_asym.
Qed.

Lemma insert_reverse_sorted (x : A) (l : list A) :
  Sorted not_below l -> Sorted not_below (insert_reverse key x l).
Proof.
  induction 1 as [|y l Hs IH Hhd]; simpl.
  - repeat constructor.
  - destruct (PrimFloat.ltb (key x) (key y)) eqn:Hxy.
    + constructor; [exact IH|]. now apply insert_reverse_hd.
    + constructor; [now constructor|]. constructor. exact Hxy.
Qed.

Lemma sorted_reverse_sorted (l : list A) : Sorted not_below (sorted_reverse key l).
Proof.
  induction l as [|x l IH]; simpl; [constructor|]. now apply insert_reverse_sorted.
Qed.

(** Entries with equal keys keep their relative order. *)
Lemma insert_reverse_stable (k : float) (x : A) (l : list A) :
  List.filter (fun a => PrimFloat.eqb (key a) k) (insert_reverse key x l)
  = List.filter (fun a => PrimFloat.eqb (key a) k) (x :: l).
Proof.
  induction l as [|y l IH]; [reflexivity|].
  cbn [insert_reverse]. destruct (PrimFloat.ltb (key x) (key y)) eqn:Hxy; [|reflexivity].
  cbn [List.filter] in *. rewrite IH.
  destruct (PrimFloat.eqb (key x) k) eqn:Hx; [|reflexivity].
  destruct (PrimFloat.eqb (key y) k) eqn:Hy; [|reflexivity].
  rewrite (eqb_not_ltb _ _ _ Hx Hy) in Hxy. discriminate.
Qed.

Lemma sorted_reverse_stable (k : float) (l : list A) :
  List.filter (fun a => PrimFloat.eqb (key a) k) (sorted_reverse key l)
  = List.filter (fun a => PrimFloat.eqb (key a) k) l.
Proof.
  induction l as [|x l IH]; [reflexivity|].
  cbn [sorted_reverse]. rewrite insert_reverse_stable.
  cbn [List.filter]. now rewrite IH.
Qed.

(** When no key is NaN, every entry is not below any later one. *)
Lemma sorted_reverse_strongly_sorted (l : list A) :
  Forall (fun a => PrimFloat.eqb (key a) (key a) = true) l ->
  StronglySorted not_below (sorted_reverse key l).
Proof.
  intros Hl.
  assert (Hs : Forall (fun a => PrimFloat.eqb (key a) (key a) = true)
                 (sorted_reverse key l)).
  { eapply Permutation_Forall; [|exact Hl]. symmetry. apply sorted_reverse_perm. }
  pose proof (sorted_reverse_sorted l) as Hsorted.
  induction Hsorted as [|a t Ht IH Hhd]; [constructor|].
  inversion Hs as [|? ? Ha Htl]; subst.
  specialize (IH Htl). constructor; [exact IH|].
  destruct Hhd as [|b t' Hab]; [constructor|].
  inversion IH as [|? ? _ Hb]; subst. inversion Htl as [|? ? Hbn Hrest]; subst.
  constructor; [exact Hab|].
  rewrite Forall_forall in *. intros c Hc.
  apply (ltb_false_trans (key a) (key b) (key c)); auto.
  apply Hb, Hc.
Qed.

End Sorting.

Lemma slice_to_nonneg {A : Type} (l : list A) (stop : Z) :
  (0 <= stop)%Z -> slice_to l stop = take (Z.to_nat stop) l.
Proof.
  intros H. unfold slice_to. destruct (Z.leb_spec 0 stop); [reflexivity|lia].
Qed.

Lemma slice_to_negative {A : Type} (l : list A) (stop : Z) :
  (stop < 0)%Z -> slice_to l stop = take (length l - Z.to_nat (- stop)) l.
Proof.
  intros H. unfold slice_to. destruct (Z.leb_spec 0 stop); [lia|reflexivity].
Qed.

End RankFacts.

(* ================================================================== *)
(** * Batch analysis never aborts *)

Module BatchFacts.
Import Algorithms Spec SearchCorrect StripFacts Analyzer AnalyzeFacts ScoreFacts.

Lemma known_algorithm_dec (algorithm : string) :
  {known_algorithm algorithm} + {~ known_algorithm algorithm}.
Proof.
  unfold known_algorithm.
  destruct (string_dec algorithm "Brute Force"); [left; tauto|].
  destruct (string_dec algorithm "Rabin-Karp"); [left; tauto|].
  destruct (string_dec algorithm "KMP"); [left; tauto|].
  right. tauto.
Qed.

Section Batch.

Variable lower : str -> str.
Hypothesis lower_nonempty : forall s : str, s <> [] -> lower s <> [].
Variable basename : string -> string.
Variable _load_cv_text : string -> str.

Lemma keyword_loop_total (cv_text : str) (algorithm : string) (cs : bool)
    (kws : list str) :
  forall st,
    (exists st', keyword_loop lower cv_text algorithm cs kws st = Return st')
    \/ keyword_loop lower cv_text algorithm cs kws st
       = Raise (ValueError ("Unknown algorithm: " ++ algorithm)).
Proof.
  destruct (known_algorithm_dec algorithm) as [Hk|Hk].
  - intros st. left. now apply keyword_loop_known.
  - induction kws as [|kw kws IH]; intros [[matched missing] c].
    + left. simpl. eauto.
    + cbn [keyword_loop]. destruct (strip kw) as [|ch rest]; [apply IH|].
      right. now rewrite run_algorithm_unknown by exact Hk.
Qed.

Lemma analyze_cv_total (cv_text : str) (kws : list str) (algorithm : string) (cs : bool) :
  (exists r, analyze_cv lower cv_text kws algorithm cs = Return r)
  \/ analyze_cv lower cv_text kws algorithm cs
     = Raise (ValueError ("Unknown algorithm: " ++ algorithm)).
Proof.
  unfold analyze_cv. destruct cv_text as [|ch text]; [left; eauto|].
  destruct kws as [|kw kws]; [left; eauto|].
  destruct (keyword_loop_total (ch :: text) algorithm cs (kw :: kws) ([], [], 0))
    as [([[matched missing] c] & ->)| ->]; [left|right]; cbn [bind]; eauto.
Qed.

Lemma batch_body_total (jd : JobDescription) (algorithm : string) (cs : bool)
    (cv_file : string) :
  exists r, batch_body lower basename _load_cv_text jd algorithm cs cv_file = Return r.
Proof.
  unfold batch_body. destruct (_load_cv_text cv_file) as [|ch text]; [eauto|].
  destruct (strip (ch :: text)); [eauto|].
  destruct (analyze_cv_total (ch :: text) (keywords jd) algorithm cs) as [(r & ->)| ->];
    eauto.
Qed.

Lemma batch_loop_total (jd : JobDescription) (algorithm : string) (cs : bool)
    (cv_files : list string) :
  forall acc, exists rs,
    batch_loop lower basename _load_cv_text jd algorithm cs cv_files acc
    = Return (acc ++ rs)
    /\ length rs = length cv_files.
Proof.
  induction cv_files as [|f fs IH]; intros acc.
  - exists []. now rewrite app_nil_r.
  - cbn [batch_loop]. destruct (batch_body_total jd algorithm cs f) as (r & ->).
    cbn [bind]. destruct (IH (acc ++ [r])) as (rs & -> & Hlen).
    exists (r :: rs). rewrite <- app_assoc. split; [reflexivity|]. simpl. lia.
Qed.

End Batch.

End BatchFacts.

(* ================================================================== *)
(** * The PDF extractor *)

Module ExtractorFacts.
Import PdfExtractor.

Section Extractor.

Variable lower : str -> str.
Variable _clean_text : str -> str.
Variable exn_message : exn -> string.

(** A file that fails validation: the result keeps the initial [0.0]. *)
Lemma extract_text_invalid (file_path : str) (env : file_env) (start_time end_time : float) :
  _validate_file lower file_path env = false ->
  extract_text lower _clean_text exn_message file_path env start_time end_time
  = mkExtraction false [] (Some "Invalid PDF file"%string) 0%float.
Proof. intros H. unfold extract_text. now rewrite H. Qed.

(** The two paths that do record the elapsed time. *)
Lemma extract_text_success (file_path : str) (env : file_env) (start_time end_time : float)
    (raw : str) :
  _validate_file lower file_path env = true -> pdf_available env = true ->
  pdfminer_extract_text env = inr raw ->
  extraction_time
    (extract_text lower _clean_text exn_message file_path env start_time end_time)
  = (end_time - start_time)%float.
Proof. intros Hv Ha He. unfold extract_text. now rewrite Hv, Ha, He. Qed.

Lemma extract_text_exception (file_path : str) (env : file_env) (start_time end_time : float)
    (e : exn) :
  _validate_file lower file_path env = true -> pdf_available env = true ->
  pdfminer_extract_text env = inl e ->
  extraction_time
    (extract_text lower _clean_text exn_message file_path env start_time end_time)
  = (end_time - start_time)%float.
Proof. intros Hv Ha He. unfold extract_text. now rewrite Hv, Ha, He. Qed.

End Extractor.

End ExtractorFacts.

(* ================================================================== *)
(** * Properties of the specification *)

Module Claims.
Import Algorithms Analyzer PdfExtractor Spec.
Import SearchFacts HashFacts BorderFacts KmpFacts SearchCorrect.
Import StripFacts AnalyzeFacts FloatFacts ScoreFacts RankFacts BatchFacts ExtractorFacts.

Lemma ascii_lower_nonempty (s : str) : s <> [] -> ascii_lower s <> [].
Proof. destruct s; [congruence|discriminate]. Qed.

(** ** Equivalence of the three searches *)

(** C1, as stated, fails: on the empty text and the empty pattern Brute
    Force reports offset 0 and KMP reports nothing. *)
Lemma empty_pattern_breaks_equivalence :
  omap matches (brute_force_search ascii_lower (py "") (py "") false) = Return [0]
  /\ omap matches (rabin_karp_search ascii_lower (py "") (py "") false) = Return [0]
  /\ omap matches (kmp_search ascii_lower (py "") (py "") false) = Return []
  /\ omap matches (brute_force_search ascii_lower (py "") (py "") false)
     <> omap matches (kmp_search ascii_lower (py "") (py "") false).
Proof. repeat split; try reflexivity. vm_compute. discriminate. Qed.

(** On a non-empty text KMP does not even return for the empty pattern. *)
Lemma kmp_search_empty_pattern_raises :
  omap matches (brute_force_search ascii_lower (py "a") (py "") false) = Return [0; 1]
  /\ omap matches (rabin_karp_search ascii_lower (py "a") (py "") false) = Return [0]
  /\ kmp_search ascii_lower (py "a") (py "") false = Raise IndexError.
Proof. repeat split; reflexivity. Qed.

(** C1 (amended): for every text, every pattern whose case-normalised form
    is non-empty and both values of the flag, Brute Force, Rabin-Karp and KMP
    all return, and return the same list of match start positions: the
    offsets at which the normalised pattern occurs in the normalised text,
    in increasing order. *)
Theorem search_equivalence (lower : str -> str) (text pattern : str) (cs : bool) :
  normalize lower cs pattern <> [] ->
  exists ms,
    ms = match_positions (normalize lower cs text) (normalize lower cs pattern)
    /\ omap matches (brute_force_search lower text pattern cs) = Return ms
    /\ omap matches (rabin_karp_search lower text pattern cs) = Return ms
    /\ omap matches (kmp_search lower text pattern cs) = Return ms.
Proof.
  intros Hne. eexists. split; [reflexivity|].
  destruct (brute_force_search_spec lower text pattern cs) as (c1 & -> & _).
  destruct (rabin_karp_search_spec lower text pattern cs Hne) as (c2 & ->).
  destruct (kmp_search_spec lower text pattern cs Hne) as (c3 & ->).
  repeat split; reflexivity.
Qed.

Lemma search_equivalence_witness :
  normalize ascii_lower false (py "aba") <> []
  /\ exists ms,
       ms = match_positions (normalize ascii_lower false (py "abABabab"))
              (normalize ascii_lower false (py "aba"))
       /\ omap matches (brute_force_search ascii_lower (py "abABabab") (py "aba") false)
          = Return ms
       /\ omap matches (rabin_karp_search ascii_lower (py "abABabab") (py "aba") false)
          = Return ms
       /\ omap matches (kmp_search ascii_lower (py "abABabab") (py "aba") false)
          = Return ms.
Proof.
  split; [vm_compute; discriminate|].
  apply (search_equivalence ascii_lower (py "abABabab") (py "aba") false).
  vm_compute. discriminate.
Defined.

(** The example of the specification. *)
Example abababab_example :
  match_positions (py "abababab") (py "aba") = [0; 2; 4]
  /\ omap matches (brute_force_search ascii_lower (py "abababab") (py "aba") true)
     = Return [0; 2; 4]
  /\ omap matches (rabin_karp_search ascii_lower (py "abababab") (py "aba") true)
     = Return [0; 2; 4]
  /\ omap matches (kmp_search ascii_lower (py "abababab") (py "aba") true)
     = Return [0; 2; 4].
Proof. repeat split; reflexivity. Qed.

(** ** The rolling hash *)

(** C6: for 0 < len(pattern) <= len(text) and every window position [i],
    the value held in [text_hash] when the sliding loop of
    [rabin_karp_search] reaches [i] is the Horner hash, modulo 101, of the
    window [text[i..i+m-1]] computed from scratch; it lies in [0, 101). *)
Theorem rolling_hash_correct (text pattern : str) (i : nat) :
  0 < length pattern -> length pattern <= length text ->
  i <= length text - length pattern ->
  rolling_hash_at text pattern i
  = Return (horner_hash (take (length pattern) (drop i text)))
  /\ (0 <= horner_hash (take (length pattern) (drop i text)) < prime)%Z.
Proof.
  intros Hm Hmn Hi. split; [|apply horner_hash_range].
  unfold rolling_hash_at. rewrite (rk_init text pattern Hmn). cbn [bind].
  destruct (rabin_karp_loop text pattern i 0
              (mkRk (horner_hash (window text pattern 0)) [] 0 0) Hm)
    as (st & Hrun & _ & Hth); [lia|reflexivity|].
  rewrite Hrun. cbn [bind]. rewrite Hth by lia. reflexivity.
Qed.

Lemma rolling_hash_correct_witness :
  rolling_hash_at (py "abababab") (py "aba") 3
  = Return (horner_hash (take (length (py "aba")) (drop 3 (py "abababab"))))
  /\ (0 <= horner_hash (take (length (py "aba")) (drop 3 (py "abababab"))) < prime)%Z.
Proof.
  apply (rolling_hash_correct (py "abababab") (py "aba") 3); vm_compute; lia.
Defined.

(** The state whose hash [rolling_hash_at] reads is a state of the search
    itself: a run of [rabin_karp_search] slides over the first [i] windows,
    reaches that state, and goes on from window [i]. *)
Lemma rabin_karp_search_reaches_window (lower : str -> str) (text pattern : str)
    (cs : bool) (i : nat) (hash : Z) :
  let text' := normalize lower cs text in
  let pattern' := normalize lower cs pattern in
  let n := length text' in
  let m := length pattern' in
  m <= n -> i <= n - m ->
  rolling_hash_at text' pattern' i = Return hash ->
  exists pattern_hash text_hash st,
    for_range 0 m (rk_init_body text' pattern') (0%Z, 0%Z) = Return (pattern_hash, text_hash)
    /\ for_range 0 i (rabin_karp_body text' pattern' n m pattern_hash (rk_h m))
         (mkRk text_hash [] 0 0) = Return st
    /\ rk_text_hash st = hash
    /\ rabin_karp_search lower text pattern cs
       = (st' <- for_range i (n - m + 1 - i)
                   (rabin_karp_body text' pattern' n m pattern_hash (rk_h m)) st ;;
          Return (mkSearchResult (rk_matches st') (rk_comparisons st') "Rabin-Karp" m n)).
Proof.
  intros text' pattern' n m Hmn Hi Hroll. unfold rolling_hash_at in Hroll.
  fold n m in Hroll.
  apply bind_Return_inv in Hroll as ([pattern_hash text_hash] & Hinit & Hroll).
  apply bind_Return_inv in Hroll as (st & Hrun & Hroll). injection Hroll as Hhash.
  exists pattern_hash, text_hash, st. repeat split; try assumption.
  unfold rabin_karp_search. fold text' pattern'. fold n m.
  destruct (Nat.ltb_spec n m) as [Hlt|_]; [lia|].
  rewrite Hinit. cbn [bind].
  replace (n - m + 1) with (i + (n - m + 1 - i)) at 1 by lia.
  rewrite for_range_app, Hrun. reflexivity.
Qed.

(** ** The failure function *)

(** C7: for every pattern, [_build_failure_function] returns an array of
    length len(pattern) whose entry [i] is the length of the longest proper
    prefix of [pattern[0..i]] that is also a suffix of it; for "aabaabaaa"
    the array is [0,1,0,1,2,3,4,5,2]. *)
Theorem failure_function_correct (pattern : str) :
  (exists lps,
     _build_failure_function pattern = Return lps
     /\ length lps = length pattern
     /\ forall i, i < length pattern ->
          exists v, lps !! i = Some v /\ longest_border pattern (S i) v)
  /\ _build_failure_function (py "aabaabaaa") = Return [0; 1; 0; 1; 2; 3; 4; 5; 2].
Proof. split; [apply build_failure_function_spec|reflexivity]. Qed.

Lemma failure_function_correct_witness :
  (exists lps,
     _build_failure_function (py "abcabd") = Return lps
     /\ length lps = length (py "abcabd")
     /\ forall i, i < length (py "abcabd") ->
          exists v, lps !! i = Some v /\ longest_border (py "abcabd") (S i) v)
  /\ _build_failure_function (py "aabaabaaa") = Return [0; 1; 0; 1; 2; 3; 4; 5; 2].
Proof. exact (failure_function_correct (py "abcabd")). Defined.

(** ** The empty pattern *)

(** C10, as stated, fails for Rabin-Karp: on the text "a" the empty pattern
    is reported at offset 0 only, not at offsets 0 and 1. *)
Lemma rabin_karp_empty_pattern_misses :
  omap matches (rabin_karp_search ascii_lower (py "a") (py "") false)
  <> Return (seq 0 (S (length (py "a")))).
Proof. vm_compute. discriminate. Qed.

(** C10 (amended): for every text and both values of the flag, with the
    empty pattern [brute_force_search] returns a match at every position
    0..len(text) with a comparison count of zero; [rabin_karp_search] also
    counts zero comparisons, and returns a subsequence of these positions
    that starts with position 0. *)
Theorem empty_pattern_searches (lower : str -> str) (text : str) (cs : bool) :
  lower [] = [] ->
  let n := length (normalize lower cs text) in
  brute_force_search lower text [] cs
  = Return (mkSearchResult (seq 0 (S n)) 0 "Brute Force" 0 n)
  /\ exists l,
       rabin_karp_search lower text [] cs
       = Return (mkSearchResult (0 :: l) 0 "Rabin-Karp" 0 n)
       /\ sublist (0 :: l) (seq 0 (S n)).
Proof.
  intros Hnil n.
  assert (He : normalize lower cs [] = []) by (destruct cs; [reflexivity|exact Hnil]).
  split.
  - destruct (brute_force_search_spec lower text [] cs) as (c & Hrun & Hc).
    rewrite Hrun, He, (Hc He), match_positions_empty. reflexivity.
  - apply (rabin_karp_search_empty lower text [] cs He).
Qed.

Lemma empty_pattern_searches_witness :
  ascii_lower [] = []
  /\ brute_force_search ascii_lower (py "ab") [] false
     = Return (mkSearchResult (seq 0 3) 0 "Brute Force" 0 2)
  /\ exists l,
       rabin_karp_search ascii_lower (py "ab") [] false
       = Return (mkSearchResult (0 :: l) 0 "Rabin-Karp" 0 2)
       /\ sublist (0 :: l) (seq 0 3).
Proof.
  split; [reflexivity|].
  exact (empty_pattern_searches ascii_lower (py "ab") false eq_refl).
Defined.

(** ** Errors of [analyze_cv] *)

(** C4: with a non-empty CV text and a keyword list that holds a non-blank
    keyword, [analyze_cv] raises the invalid-input error ([ValueError])
    exactly when the algorithm name is none of "Brute Force", "Rabin-Karp",
    "KMP", and returns a result otherwise; with an empty CV text or an empty
    keyword list it raises nothing, whatever the name, and returns the score
    0.0 with every keyword listed as missing. *)
Theorem analyze_cv_errors (lower : str -> str) (cv_text : str) (kws : list str)
    (algorithm : string) (cs : bool) :
  (forall s : str, s <> [] -> lower s <> []) ->
  (cv_text <> [] -> (exists k, In k kws /\ blank k = false) ->
     ((exists msg, analyze_cv lower cv_text kws algorithm cs = Raise (ValueError msg))
      <-> ~ known_algorithm algorithm)
     /\ (known_algorithm algorithm ->
         exists r, analyze_cv lower cv_text kws algorithm cs = Return r))
  /\ (cv_text = [] \/ kws = [] ->
      analyze_cv lower cv_text kws algorithm cs
      = Return (mkAnalysisResult "" "" algorithm [] kws 0%float 0 (length kws))).
Proof.
  intros Hlower. split.
  - intros Htext (k & Hin & Hk).
    assert (Hknown : known_algorithm algorithm ->
              exists r, analyze_cv lower cv_text kws algorithm cs = Return r).
    { intros Ha. unfold analyze_cv. destruct cv_text as [|ch text]; [eauto|].
      destruct kws as [|kw kws']; [eauto|].
      destruct (keyword_loop_known lower Hlower (ch :: text) algorithm cs (kw :: kws') Ha
                  ([], [], 0)) as ([[matched missing] c] & ->).
      cbn [bind]. eauto. }
    split; [|exact Hknown]. split.
    + intros (msg & Hraise) Ha. destruct (Hknown Ha) as (r & Hr). congruence.
    + intros Ha. unfold analyze_cv. destruct cv_text as [|ch text]; [congruence|].
      destruct kws as [|kw kws']; [destruct Hin|].
      rewrite (keyword_loop_unknown lower (ch :: text) algorithm cs (kw :: kws') Ha)
        by eauto.
      cbn [bind]. eauto.
  - intros [-> | ->]; [reflexivity|]. unfold analyze_cv. now destruct cv_text.
Qed.

Lemma analyze_cv_errors_witness :
  (forall s : str, s <> [] -> ascii_lower s <> [])
  /\ (py "I know Python" <> [] ->
      (exists k, In k [py " python "; py "  "] /\ blank k = false) ->
      ((exists msg,
          analyze_cv ascii_lower (py "I know Python") [py " python "; py "  "] "kmp" false
          = Raise (ValueError msg))
       <-> ~ known_algorithm "kmp")
      /\ (known_algorithm "kmp" ->
          exists r,
            analyze_cv ascii_lower (py "I know Python") [py " python "; py "  "] "kmp" false
            = Return r))
  /\ (py "I know Python" = [] \/ [py " python "; py "  "] = [] ->
      analyze_cv ascii_lower (py "I know Python") [py " python "; py "  "] "kmp" false
      = Return (mkAnalysisResult "" "" "kmp" [] [py " python "; py "  "] 0%float 0
                  (length [py " python "; py "  "]))).
Proof.
  split; [exact ascii_lower_nonempty|].
  exact (analyze_cv_errors ascii_lower (py "I know Python") [py " python "; py "  "]
           "kmp" false ascii_lower_nonempty).
Defined.

(** ** Blank keywords *)

(** C9: for a non-empty CV text and a keyword list that holds a blank
    entry, no blank keyword appears among the matched or the missing
    keywords of the result, while the [total_keywords] field and the
    denominator of the relevance score count the whole list; hence
    len(matched) + len(missing) < total_keywords.  (A result exists for each
    of the three algorithm names.) *)
Theorem blank_keywords_counted (lower : str -> str) (cv_text : str) (kws : list str)
    (algorithm : string) (cs : bool) :
  (forall s : str, s <> [] -> lower s <> []) ->
  cv_text <> [] -> (exists k, In k kws /\ blank k = true) ->
  (forall r, analyze_cv lower cv_text kws algorithm cs = Return r ->
     (forall k, blank k = true ->
        ~ In k (matched_keywords r) /\ ~ In k (missing_keywords r))
     /\ total_keywords r = length kws
     /\ relevance_score r = relevance_formula (length (matched_keywords r)) (length kws)
     /\ length (matched_keywords r) + length (missing_keywords r) < total_keywords r)
  /\ (known_algorithm algorithm ->
      exists r, analyze_cv lower cv_text kws algorithm cs = Return r).
Proof.
  intros Hlower Htext (b & Hb & Hblank). split.
  - intros r Hr. unfold analyze_cv in Hr. destruct cv_text as [|ch text]; [congruence|].
    destruct kws as [|kw kws']; [destruct Hb|].
    apply bind_Return_inv in Hr as ([[matched missing] c] & Hloop & Hr).
    injection Hr as <-. cbn [matched_keywords missing_keywords total_keywords relevance_score].
    destruct (keyword_loop_returns lower (ch :: text) algorithm cs (kw :: kws')
                _ _ _ _ _ _ Hloop) as (l1 & l2 & -> & -> & Hin & Hlen).
    cbn [app]. split; [|split; [reflexivity|split]].
    + intros k Hk. split; intros Hmem;
        (assert (Hs : In k (searched_keywords (kw :: kws'))) by (apply Hin; tauto));
        apply searched_keywords_not_blank in Hs; congruence.
    + exact (score_matches_formula l1 (kw :: kws')).
    + rewrite Hlen. now apply (searched_keywords_blank (kw :: kws') b).
  - intros Ha. unfold analyze_cv. destruct cv_text as [|ch text]; [eauto|].
    destruct kws as [|kw kws']; [eauto|].
    destruct (keyword_loop_known lower Hlower (ch :: text) algorithm cs (kw :: kws') Ha
                ([], [], 0)) as ([[matched missing] c] & ->).
    cbn [bind]. eauto.
Qed.

Lemma blank_keywords_counted_witness :
  (forall s : str, s <> [] -> ascii_lower s <> [])
  /\ py "I know Python" <> []
  /\ (exists k, In k [py " python "; py "  "; py "Rust"] /\ blank k = true)
  /\ (forall r,
        analyze_cv ascii_lower (py "I know Python") [py " python "; py "  "; py "Rust"]
          "KMP" false = Return r ->
        (forall k, blank k = true ->
           ~ In k (matched_keywords r) /\ ~ In k (missing_keywords r))
        /\ total_keywords r = length [py " python "; py "  "; py "Rust"]
        /\ relevance_score r
           = relevance_formula (length (matched_keywords r))
               (length [py " python "; py "  "; py "Rust"])
        /\ length (matched_keywords r) + length (missing_keywords r) < total_keywords r)
  /\ (known_algorithm "KMP" ->
      exists r,
        analyze_cv ascii_lower (py "I know Python") [py " python "; py "  "; py "Rust"]
          "KMP" false = Return r).
Proof.
  split; [exact ascii_lower_nonempty|].
  split; [vm_compute; discriminate|].
  split; [exists (py "  "); split; [simpl; tauto|reflexivity]|].
  apply (blank_keywords_counted ascii_lower (py "I know Python")
           [py " python "; py "  "; py "Rust"] "KMP" false ascii_lower_nonempty).
  - vm_compute. discriminate.
  - exists (py "  "). split; [simpl; tauto|reflexivity].
Defined.

(** The run behind the witness: one keyword matched, one missing, three
    counted. *)
Example blank_keywords_run :
  analyze_cv ascii_lower (py "I know Python") [py " python "; py "  "; py "Rust"] "KMP" false
  = Return (mkAnalysisResult "" "" "KMP" [py "python"] [py "Rust"]
              (relevance_formula 1 3) 26 3).
Proof. vm_compute. reflexivity. Qed.

(** ** The relevance score *)

(** C2, as stated, fails in its last example: in binary64 arithmetic
    3 matched keywords of 10 score 0.3 + 0.03 = 0.32999999999999996, which
    is not the float 0.33. *)
Lemma relevance_score_3_of_10_not_033 :
  _calculate_relevance_score (replicate 3 (py "k")) (replicate 10 (py "k"))
  <> 0.33%float.
Proof.
  intros H. apply (f_equal (fun x => PrimFloat.eqb x 0.33)) in H.
  vm_compute in H. discriminate.
Qed.

(** C2 (amended): for every pair of lists the relevance score is 0.0 if
    [total_keywords] is empty, and otherwise
    min(1.0, len(matched)/len(total) + (min(0.1, len(matched)*0.01) if
    len(matched) > 0 else 0)) in binary64 arithmetic; 5 matched of 5 give
    1.0, and 3 matched of 10 give 0.32999999999999996 (0x1.51eb851eb851ep-2,
    one unit in the last place below 0.33). *)
Theorem relevance_score_formula (matched total : list str) :
  _calculate_relevance_score matched total
  = relevance_formula (length matched) (length total)
  /\ _calculate_relevance_score matched [] = 0%float
  /\ _calculate_relevance_score (replicate 5 (py "k")) (replicate 5 (py "k")) = 1%float
  /\ _calculate_relevance_score (replicate 3 (py "k")) (replicate 10 (py "k"))
     = 0x1.51eb851eb851ep-2%float
  /\ PrimFloat.next_up 0x1.51eb851eb851ep-2%float = 0.33%float.
Proof.
  split; [apply score_matches_formula|].
  repeat split; vm_compute; reflexivity.
Qed.

(** ** The batch average *)

(** C3: every batch produced by [analyze_multiple_cvs] (one is produced for
    every input) carries as [average_relevance_score] the sum of the per-CV
    scores that are strictly greater than 0 divided by their number, and
    0.0 when there is none; the scores [0.0, 0.5, 0.8] average to 0.65. *)
Theorem batch_average_relevance (lower : str -> str) (basename : string -> string)
    (_load_cv_text : string -> str) (history : list BatchAnalysisResult)
    (cv_files : list string) (jd : JobDescription) (algorithm : string) (cs : bool) :
  (forall s : str, s <> [] -> lower s <> []) ->
  (exists batch,
     analyze_multiple_cvs lower basename _load_cv_text history cv_files jd algorithm cs
     = Return (batch, history ++ [batch])
     /\ length (cv_results batch) = length cv_files
     /\ average_relevance_score batch
        = average_of_positive (map relevance_score (cv_results batch)))
  /\ batch_average [scored "a" 0; scored "b" 0.5; scored "c" 0.8] = 0.65%float.
Proof.
  intros Hlower. split; [|vm_compute; reflexivity].
  unfold analyze_multiple_cvs.
  destruct (batch_loop_total lower Hlower basename _load_cv_text jd algorithm cs cv_files [])
    as (rs & -> & Hlen).
  cbn [bind app]. eexists. split; [reflexivity|].
  cbn [cv_results average_relevance_score]. split; [exact Hlen|].
  apply batch_average_spec.
Qed.

Lemma batch_average_relevance_witness :
  (forall s : str, s <> [] -> ascii_lower s <> [])
  /\ (exists batch,
        analyze_multiple_cvs ascii_lower (fun f => f)
          (fun f => if String.eqb f "a.pdf" then py "I know Python" else [])
          [] ["a.pdf"; "b.pdf"]%string
          (mkJobDescription 0 "Dev" "" [py "python"; py "rust"]) "KMP" false
        = Return (batch, [] ++ [batch])
        /\ length (cv_results batch) = length ["a.pdf"; "b.pdf"]%string
        /\ average_relevance_score batch
           = average_of_positive (map relevance_score (cv_results batch)))
  /\ batch_average [scored "a" 0; scored "b" 0.5; scored "c" 0.8] = 0.65%float.
Proof.
  split; [exact ascii_lower_nonempty|].
  exact (batch_average_relevance ascii_lower (fun f => f)
           (fun f => if String.eqb f "a.pdf" then py "I know Python" else [])
           [] ["a.pdf"; "b.pdf"]%string
           (mkJobDescription 0 "Dev" "" [py "python"; py "rust"]) "KMP" false
           ascii_lower_nonempty).
Defined.

(** ** Ranking *)

(** C8 does not hold for every N.  A negative count is a Python slice bound:
    for the scores [0.2, 0.9, 0.9, 0.1] and N = -1 the code returns the three
    best entries, all of the ranking but its last entry, which is not the
    list of the first N entries of any list. *)
Lemma top_matching_cvs_minus_one :
  get_top_matching_cvs
    (batch_of [scored "a" 0.2; scored "b" 0.9; scored "c" 0.9; scored "d" 0.1]) (-1)
  = [scored "b" 0.9; scored "c" 0.9; scored "a" 0.2]
  /\ ~ exists sorted_results,
         get_top_matching_cvs
           (batch_of [scored "a" 0.2; scored "b" 0.9; scored "c" 0.9; scored "d" 0.1]) (-1)
         = take (Z.to_nat (-1)) sorted_results
         /\ Permutation sorted_results
              (cv_results
                 (batch_of [scored "a" 0.2; scored "b" 0.9; scored "c" 0.9; scored "d" 0.1])).
Proof.
  assert (H : get_top_matching_cvs
                (batch_of [scored "a" 0.2; scored "b" 0.9; scored "c" 0.9; scored "d" 0.1])
                (-1)
              = [scored "b" 0.9; scored "c" 0.9; scored "a" 0.2])
    by (vm_compute; reflexivity).
  split; [exact H|]. intros (sorted_results & Htake & _).
  rewrite H in Htake. change (Z.to_nat (-1)) with 0 in Htake. discriminate Htake.
Qed.

(** C8, for a count N >= 0 and scores that are numbers: [get_top_matching_cvs]
    returns the first N entries of the list obtained from [cv_results] by
    sorting on the relevance score in descending order, entries with equal
    scores keeping their original relative order: the sorted list is a
    permutation of [cv_results], no entry is followed, directly or later, by
    one with a greater score, and for each score the entries carrying it
    appear as in [cv_results].  For the scores [0.2, 0.9, 0.9, 0.1] and N = 2
    the result is the two 0.9 entries in input order. *)
Theorem top_matching_cvs_stable (batch : BatchAnalysisResult) (top_n : Z) :
  (0 <= top_n)%Z ->
  Forall (fun r => PrimFloat.eqb (relevance_score r) (relevance_score r) = true)
    (cv_results batch) ->
  (exists sorted_results,
     get_top_matching_cvs batch top_n = take (Z.to_nat top_n) sorted_results
     /\ Permutation sorted_results (cv_results batch)
     /\ Sorted (not_below relevance_score) sorted_results
     /\ StronglySorted (not_below relevance_score) sorted_results
     /\ forall score,
          List.filter (fun r => PrimFloat.eqb (relevance_score r) score) sorted_results
          = List.filter (fun r => PrimFloat.eqb (relevance_score r) score)
              (cv_results batch))
  /\ get_top_matching_cvs
       (batch_of [scored "a" 0.2; scored "b" 0.9; scored "c" 0.9; scored "d" 0.1]) 2
     = [scored "b" 0.9; scored "c" 0.9].
Proof.
  intros Hn Hnum. split; [|vm_compute; reflexivity].
  exists (sorted_reverse relevance_score (cv_results batch)).
  split; [apply slice_to_nonneg, Hn|].
  split; [apply sorted_reverse_perm|].
  split; [apply sorted_reverse_sorted|].
  split; [apply sorted_reverse_strongly_sorted, Hnum|].
  intros score. apply sorted_reverse_stable.
Qed.

Lemma top_matching_cvs_stable_witness :
  (0 <= 3)%Z
  /\ Forall (fun r => PrimFloat.eqb (relevance_score r) (relevance_score r) = true)
       (cv_results (batch_of [scored "a" 0.5; scored "b" 0; scored "c" 0.5; scored "d" 1]))
  /\ (exists sorted_results,
        get_top_matching_cvs
          (batch_of [scored "a" 0.5; scored "b" 0; scored "c" 0.5; scored "d" 1]) 3
        = take (Z.to_nat 3) sorted_results
        /\ Permutation sorted_results
             (cv_results (batch_of [scored "a" 0.5; scored "b" 0; scored "c" 0.5; scored "d" 1]))
        /\ Sorted (not_below relevance_score) sorted_results
        /\ StronglySorted (not_below relevance_score) sorted_results
        /\ forall score,
             List.filter (fun r => PrimFloat.eqb (relevance_score r) score) sorted_results
             = List.filter (fun r => PrimFloat.eqb (relevance_score r) score)
                 (cv_results
                    (batch_of [scored "a" 0.5; scored "b" 0; scored "c" 0.5; scored "d" 1])))
  /\ get_top_matching_cvs
       (batch_of [scored "a" 0.2; scored "b" 0.9; scored "c" 0.9; scored "d" 0.1]) 2
     = [scored "b" 0.9; scored "c" 0.9].
Proof.
  assert (Hnum : Forall (fun r => PrimFloat.eqb (relevance_score r) (relevance_score r) = true)
                   (cv_results
                      (batch_of [scored "a" 0.5; scored "b" 0; scored "c" 0.5; scored "d" 1]))).
  { repeat constructor. }
  split; [lia|]. split; [exact Hnum|].
  apply (top_matching_cvs_stable
           (batch_of [scored "a" 0.5; scored "b" 0; scored "c" 0.5; scored "d" 1]) 3);
    [lia|exact Hnum].
Defined.

(** A negative count is a Python slice bound: it drops entries from the
    end of the ranking instead of selecting a prefix of that length. *)
Lemma top_matching_cvs_negative (batch : BatchAnalysisResult) (top_n : Z) :
  (top_n < 0)%Z ->
  get_top_matching_cvs batch top_n
  = take (length (cv_results batch) - Z.to_nat (- top_n))
      (sorted_reverse relevance_score (cv_results batch)).
Proof.
  intros Hn. unfold get_top_matching_cvs. rewrite slice_to_negative by exact Hn.
  f_equal. f_equal. apply Permutation_length, sorted_reverse_perm.
Qed.

(** ** Timing of a failed validation *)

(** C5 does not hold on the code: for a path at which no file exists the
    call fails with "Invalid PDF file" and reports the extraction time 0.0,
    although a quarter of a second elapsed between the two clock readings. *)
Theorem extract_text_invalid_time :
  let r := extract_text ascii_lower (fun s => s) (fun _ => EmptyString)
             (py "missing.pdf") missing_file 100%float 100.25%float in
  success r = false
  /\ error r = Some "Invalid PDF file"%string
  /\ extraction_time r = 0%float
  /\ (100.25 - 100)%float = 0.25%float
  /\ extraction_time r <> (100.25 - 100)%float.
Proof.
  repeat split; try (vm_compute; reflexivity).
  intros H. apply (f_equal (fun x => PrimFloat.eqb x 0.25)) in H.
  vm_compute in H. discriminate.
Qed.

(** The same holds for every path that fails validation, whatever the
    clock says. *)
Lemma invalid_path_reports_zero_time (lower : str -> str) (clean : str -> str)
    (msg : exn -> string) (file_path : str) (env : file_env) (t0 t1 : float) :
  _validate_file lower file_path env = false ->
  extraction_time (extract_text lower clean msg file_path env t0 t1) = 0%float.
Proof. intros H. now rewrite extract_text_invalid. Qed.

End Claims.

(* ================================================================== *)
(** * Further properties of the searches *)

Module SearchMore.
Import Algorithms Spec SearchFacts HashFacts BorderFacts KmpFacts SearchCorrect.

Lemma in_match_positions (text pattern : str) (i : nat) :
  In i (match_positions text pattern) <->
  i + length pattern <= length text /\ take (length pattern) (drop i text) = pattern.
Proof.
  unfold match_positions. rewrite List.filter_In, in_seq. split.
  - intros [Hi Hocc]. split.
    + apply occurs_at_bound; [lia|exact Hocc].
    + now apply str_eqb_eq.
  - intros [Hi Heq]. split; [lia|]. now apply str_eqb_eq.
Qed.

Lemma filter_seq_increasing (f : nat -> bool) (k lo : nat) :
  StronglySorted lt (List.filter f (seq lo k)).
Proof.
  revert lo. induction k as [|k IH]; intros lo; [constructor|].
  cbn [seq List.filter]. destruct (f lo); [|apply IH].
  constructor; [apply IH|]. apply List.Forall_forall. intros x Hx.
  apply List.filter_In in Hx as [Hx _]. apply in_seq in Hx. lia.
Qed.

Lemma match_positions_increasing (text pattern : str) :
  StronglySorted lt (match_positions text pattern).
Proof. apply filter_seq_increasing. Qed.

Section Counting.

Variables text pattern : str.
Let n := length text.
Let m := length pattern.

(** Each start offset costs Brute Force at most [m] comparisons. *)
Lemma brute_force_loop_count (k : nat) :
  forall lo ms c ms' c',
    lo + k + m <= n + 1 ->
    for_range lo k (brute_force_body text pattern m) (ms, c) = Return (ms', c') ->
    c' <= c + k * m.
Proof.
  induction k as [|k IH]; intros lo ms c ms' c' Hlo Hrun.
  - simpl in Hrun. injection Hrun as <- <-. lia.
  - cbn [for_range] in Hrun. unfold brute_force_body at 1 in Hrun.
    destruct (compare_window_occurs text pattern lo c ltac:(fold n m; lia))
      as (j & Hw & Hj & _).
    fold m in Hw, Hj. rewrite Hw in Hrun. cbn [bind] in Hrun.
    apply IH in Hrun; [|lia]. destruct (Nat.ltb_spec j m); lia.
Qed.

(** So does a window of Rabin-Karp, whatever the hashes are. *)
Lemma rabin_karp_body_count (ph h : Z) (i : nat) (st st' : rk_state) :
  i + m <= n ->
  rabin_karp_body text pattern n m ph h i st = Return st' ->
  rk_comparisons st' <= rk_comparisons st + m.
Proof.
  intros Hi Hrun. unfold rabin_karp_body in Hrun.
  apply bind_Return_inv in Hrun as (st1 & Hfirst & Hrun).
  assert (H1 : rk_comparisons st1 <= rk_comparisons st + m).
  { destruct (ph =? rk_text_hash st)%Z.
    - destruct (compare_window_occurs text pattern i (rk_comparisons st)
                  ltac:(fold n m; lia)) as (j & Hw & Hj & _).
      fold m in Hw, Hj. rewrite Hw in Hfirst. cbn [bind] in Hfirst.
      destruct (j =? m); injection Hfirst as <-; cbn [rk_comparisons];
        destruct (Nat.ltb_spec j m); lia.
    - injection Hfirst as <-. lia. }
  destruct (i <? n - m).
  - apply bind_Return_inv in Hrun as (ti & _ & Hrun).
    apply bind_Return_inv in Hrun as (tim & _ & Hrun).
    injection Hrun as <-. exact H1.
  - injection Hrun as <-. exact H1.
Qed.

Lemma rabin_karp_loop_count (ph h : Z) (k : nat) :
  forall lo st st',
    lo + k + m <= n + 1 ->
    for_range lo k (rabin_karp_body text pattern n m ph h) st = Return st' ->
    rk_comparisons st' <= rk_comparisons st + k * m.
Proof.
  induction k as [|k IH]; intros lo st st' Hlo Hrun.
  - simpl in Hrun. injection Hrun as <-. lia.
  - cbn [for_range] in Hrun. apply bind_Return_inv in Hrun as (st1 & Hbody & Hrun).
    apply rabin_karp_body_count in Hbody; [|lia].
    apply IH in Hrun; [|lia]. lia.
Qed.

End Counting.

Section KmpCounting.

Variables text pattern : str.
Variable lps : list nat.
Let n := length text.
Let m := length pattern.

Hypothesis Hm : 0 < m.
Hypothesis Hmn : m <= n.
Hypothesis Hlps : lps_filled pattern lps m.

(** Every counted comparison of KMP moves the potential [2 * i - j]. *)
Lemma kmp_loop_count (fuel : nat) :
  forall i j ms c ms' c',
    i <= n -> j < m -> j <= i ->
    kmp_loop fuel text pattern lps n m i j ms c = Return (ms', c') ->
    c' + 2 * i <= c + 2 * n + j.
Proof.
  induction fuel as [|fuel IH]; intros i j ms c ms' c' Hi Hj Hji Hrun;
    [discriminate|].
  cbn [kmp_loop] in Hrun. destruct (Nat.ltb_spec i n) as [Hin|Hin].
  2:{ injection Hrun as <- <-. lia. }
  apply bind_Return_inv in Hrun as (a & _ & Hrun).
  apply bind_Return_inv in Hrun as (b & _ & Hrun).
  assert (Hentry : forall j0, 0 < j0 <= m ->
            exists v, getitem lps (j0 - 1) = Return v /\ v < j0).
  { intros j0 Hj0. destruct (lps_entry text pattern lps Hm Hmn Hlps j0) as (v & Hv & Hb); [fold m; lia|].
    exists v. split; [exact Hv|]. destruct Hb as [Hb _].
    apply border_lookup in Hb. lia. }
  destruct (a =? b)%Z.
  - destruct (Nat.eqb_spec (j + 1) m) as [Hfull|Hpart].
    + destruct (Hentry (j + 1)) as (v & Hv & Hlt); [lia|].
      rewrite Hv in Hrun. cbn [bind] in Hrun.
      apply IH in Hrun; lia.
    + destruct (Nat.ltb_spec (i + 1) n) as [Hin'|Hin'].
      * apply bind_Return_inv in Hrun as (a' & _ & Hrun).
        apply bind_Return_inv in Hrun as (b' & _ & Hrun).
        destruct (a' =? b')%Z; cbn [negb] in Hrun.
        -- apply IH in Hrun; lia.
        -- destruct (Nat.eqb_spec (j + 1) 0) as [Hz|_]; [lia|]. cbn [negb] in Hrun.
           destruct (Hentry (j + 1)) as (v & Hv & Hlt); [lia|].
           rewrite Hv in Hrun. cbn [bind] in Hrun.
           apply IH in Hrun; lia.
      * apply IH in Hrun; lia.
  - destruct (Nat.eqb_spec j m) as [Hfull|_]; [lia|].
    destruct (Nat.ltb_spec i n) as [_|Hge]; [|lia].
    apply bind_Return_inv in Hrun as (a' & _ & Hrun).
    apply bind_Return_inv in Hrun as (b' & _ & Hrun).
    destruct (a' =? b')%Z; cbn [negb] in Hrun.
    + (* the same two characters were just found different *)
      apply IH in Hrun; lia.
    + destruct (Nat.eqb_spec j 0) as [Hz|Hnz]; cbn [negb] in Hrun.
      * apply IH in Hrun; lia.
      * destruct (Hentry j) as (v & Hv & Hlt); [lia|].
        rewrite Hv in Hrun. cbn [bind] in Hrun.
        apply IH in Hrun; lia.
Qed.

End KmpCounting.

Section Results.

Variable lower : str -> str.

(** X1: What each search reports for a non-empty pattern: the offsets, in
    strictly increasing order, at which the pattern lies in the text. *)
Theorem reported_matches_are_occurrences (text pattern : str) (cs : bool) :
  normalize lower cs pattern <> [] ->
  forall search,
    In search [brute_force_search lower; rabin_karp_search lower; kmp_search lower] ->
    exists r,
      search text pattern cs = Return r
      /\ StronglySorted lt (matches r)
      /\ forall i,
           In i (matches r) <->
           i + length (normalize lower cs pattern) <= length (normalize lower cs text)
           /\ take (length (normalize lower cs pattern))
                (drop i (normalize lower cs text))
              = normalize lower cs pattern.
Proof.
  intros Hne search Hin.
  assert (Hr : exists r, search text pattern cs = Return r
               /\ matches r = match_positions (normalize lower cs text)
                                (normalize lower cs pattern)).
  { destruct Hin as [<- | [<- | [<- | []]]].
    - destruct (brute_force_search_spec lower text pattern cs) as (c & -> & _). eauto.
    - destruct (rabin_karp_search_spec lower text pattern cs Hne) as (c & ->). eauto.
    - destruct (kmp_search_spec lower text pattern cs Hne) as (c & ->). eauto. }
  destruct Hr as (r & Hrun & Hms). exists r. split; [exact Hrun|]. rewrite Hms.
  split; [apply match_positions_increasing|]. intros i. apply in_match_positions.
Qed.

(** X2: Brute Force and Rabin-Karp always return, and neither compares more
    than [m] characters at any of the [n - m + 1] start offsets. *)
Theorem quadratic_comparison_bound (text pattern : str) (cs : bool) :
  exists r1 r2,
    brute_force_search lower text pattern cs = Return r1
    /\ rabin_karp_search lower text pattern cs = Return r2
    /\ comparisons r1
       <= (length (normalize lower cs text) - length (normalize lower cs pattern) + 1)
          * length (normalize lower cs pattern)
    /\ comparisons r2
       <= (length (normalize lower cs text) - length (normalize lower cs pattern) + 1)
          * length (normalize lower cs pattern).
Proof.
  set (text' := normalize lower cs text). set (pattern' := normalize lower cs pattern).
  assert (H1 : exists r1, brute_force_search lower text pattern cs = Return r1).
  { destruct (brute_force_search_spec lower text pattern cs) as (c & -> & _). eauto. }
  assert (H2 : exists r2, rabin_karp_search lower text pattern cs = Return r2).
  { destruct pattern' as [|ch p'] eqn:Ep.
    - destruct (rabin_karp_search_empty lower text pattern cs Ep) as (l & -> & _). eauto.
    - destruct (rabin_karp_search_spec lower text pattern cs) as (c & ->); [|eauto].
      fold pattern'. rewrite Ep. discriminate. }
  destruct H1 as (r1 & Hr1), H2 as (r2 & Hr2). exists r1, r2.
  split; [exact Hr1|]. split; [exact Hr2|].
  unfold brute_force_search in Hr1. unfold rabin_karp_search in Hr2.
  fold text' pattern' in Hr1, Hr2.
  destruct (Nat.ltb_spec (length text') (length pattern')) as [Hlt|Hge].
  - injection Hr1 as <-. injection Hr2 as <-. simpl. lia.
  - split.
    + apply bind_Return_inv in Hr1 as ([ms c] & Hloop & Hr1). injection Hr1 as <-.
      apply brute_force_loop_count in Hloop; [|lia]. simpl. lia.
    + apply bind_Return_inv in Hr2 as ([ph th] & _ & Hr2).
      apply bind_Return_inv in Hr2 as (st & Hloop & Hr2). injection Hr2 as <-.
      apply rabin_karp_loop_count in Hloop; [|lia]. simpl in *. lia.
Qed.

(** X3: KMP compares at most [2 * n] characters. *)
Theorem kmp_linear_comparison_bound (text pattern : str) (cs : bool) :
  normalize lower cs pattern <> [] ->
  exists r,
    kmp_search lower text pattern cs = Return r
    /\ comparisons r <= 2 * length (normalize lower cs text).
Proof.
  intros Hne. destruct (kmp_search_spec lower text pattern cs Hne) as (c & Hrun).
  eexists. split; [exact Hrun|]. cbn [comparisons].
  unfold kmp_search in Hrun.
  set (text' := normalize lower cs text) in *.
  set (pattern' := normalize lower cs pattern) in *.
  destruct (Nat.ltb_spec (length text') (length pattern')) as [Hlt|Hge].
  - injection Hrun as _ Hc. lia.
  - assert (Hm : 0 < length pattern') by (destruct pattern'; [congruence|simpl; lia]).
    destruct (build_failure_function_spec pattern') as (lps & Hb & Hlen & Hfill).
    rewrite Hb in Hrun. cbn [bind] in Hrun.
    apply bind_Return_inv in Hrun as ([ms c0] & Hloop & Hrun). injection Hrun as _ <-.
    apply (kmp_loop_count text' pattern' lps Hm Hge) in Hloop; [lia| |lia|lia|lia].
    split; [exact Hlen|]. intros k _ Hk. now apply Hfill.
Qed.

End Results.

Lemma reported_matches_are_occurrences_witness :
  normalize ascii_lower false (py "ab") <> []
  /\ In (kmp_search ascii_lower)
       [brute_force_search ascii_lower; rabin_karp_search ascii_lower;
        kmp_search ascii_lower]
  /\ exists r,
       kmp_search ascii_lower (py "xABab") (py "ab") false = Return r
       /\ StronglySorted lt (matches r)
       /\ forall i,
            In i (matches r) <->
            i + length (normalize ascii_lower false (py "ab"))
            <= length (normalize ascii_lower false (py "xABab"))
            /\ take (length (normalize ascii_lower false (py "ab")))
                 (drop i (normalize ascii_lower false (py "xABab")))
               = normalize ascii_lower false (py "ab").
Proof.
  split; [vm_compute; discriminate|]. split; [simpl; tauto|].
  apply (reported_matches_are_occurrences ascii_lower (py "xABab") (py "ab") false).
  - vm_compute. discriminate.
  - simpl. tauto.
Defined.

Lemma kmp_linear_comparison_bound_witness :
  normalize ascii_lower false (py "aab") <> []
  /\ exists r,
       kmp_search ascii_lower (py "aaaaAAb") (py "aab") false = Return r
       /\ comparisons r <= 2 * length (normalize ascii_lower false (py "aaaaAAb")).
Proof.
  split; [vm_compute; discriminate|].
  apply kmp_linear_comparison_bound. vm_compute. discriminate.
Defined.

End SearchMore.

(* ================================================================== *)
(** * The comparison harness *)

Module HarnessFacts.
Import Algorithms Spec SearchCorrect Comparison.

Section Harness.

Variable lower : str -> str.

(** X4: For a non-empty pattern the harness returns the three results under
    their names, in the order of the runs, with one and the same list of
    matches. *)
Theorem compare_algorithms_agree (text pattern : str) (cs : bool) :
  normalize lower cs pattern <> [] ->
  exists r1 r2 r3,
    compare_algorithms lower text pattern cs
    = Return [("Brute Force"%string, r1); ("Rabin-Karp"%string, r2); ("KMP"%string, r3)]
    /\ matches r1 = match_positions (normalize lower cs text) (normalize lower cs pattern)
    /\ matches r2 = matches r1
    /\ matches r3 = matches r1.
Proof.
  intros Hne. unfold compare_algorithms.
  destruct (brute_force_search_spec lower text pattern cs) as (c1 & -> & _).
  destruct (rabin_karp_search_spec lower text pattern cs Hne) as (c2 & ->).
  destruct (kmp_search_spec lower text pattern cs Hne) as (c3 & ->).
  cbn [bind]. do 3 eexists. split; [reflexivity|]. repeat split.
Qed.

(** X5: The empty pattern makes the harness fail on any non-empty text: the
    [IndexError] of the KMP run is not caught. *)
Theorem compare_algorithms_empty_pattern (text pattern : str) (cs : bool) :
  normalize lower cs pattern = [] -> normalize lower cs text <> [] ->
  compare_algorithms lower text pattern cs = Raise IndexError.
Proof.
  intros He Hne. unfold compare_algorithms.
  destruct (brute_force_search_spec lower text pattern cs) as (c1 & -> & _).
  destruct (rabin_karp_search_empty lower text pattern cs He) as (l & -> & _).
  rewrite (kmp_search_empty lower text pattern cs He).
  destruct (normalize lower cs text); [congruence|reflexivity].
Qed.

End Harness.

Lemma compare_algorithms_agree_witness :
  normalize ascii_lower false (py "ab") <> []
  /\ exists r1 r2 r3,
       compare_algorithms ascii_lower (py "abAB") (py "ab") false
       = Return [("Brute Force"%string, r1); ("Rabin-Karp"%string, r2); ("KMP"%string, r3)]
       /\ matches r1
          = match_positions (normalize ascii_lower false (py "abAB"))
              (normalize ascii_lower false (py "ab"))
       /\ matches r2 = matches r1
       /\ matches r3 = matches r1.
Proof.
  split; [vm_compute; discriminate|].
  apply compare_algorithms_agree. vm_compute. discriminate.
Defined.

Lemma compare_algorithms_empty_pattern_witness :
  normalize ascii_lower true (py "") = []
  /\ normalize ascii_lower true (py "cv") <> []
  /\ compare_algorithms ascii_lower (py "cv") (py "") true = Raise IndexError.
Proof.
  split; [reflexivity|]. split; [vm_compute; discriminate|].
  apply compare_algorithms_empty_pattern; [reflexivity|vm_compute; discriminate].
Defined.

End HarnessFacts.

(* ================================================================== *)
(** * Signs and bounds of binary64 results *)

Module FloatBounds.
Import Spec FloatFacts.

Lemma sign_clear_add (x y : float) :
  sign_clear (Prim2SF x) -> sign_clear (Prim2SF y) -> sign_clear (Prim2SF (x + y)).
Proof.
  rewrite FloatAxioms.add_spec. unfold SF64add.
  destruct (Prim2SF x) as [sx|sx| |sx mx ex], (Prim2SF y) as [sy|sy| |sy my ey];
    simpl; intros Hx Hy; subst; try reflexivity; try exact I.
  apply binary_normalize_sign. unfold cond_Zopp.
  apply Z.add_nonneg_nonneg; apply Pos2Z.is_nonneg.
Qed.

Lemma sign_clear_mul (x y : float) :
  sign_clear (Prim2SF x) -> sign_clear (Prim2SF y) -> sign_clear (Prim2SF (x * y)).
Proof.
  rewrite FloatAxioms.mul_spec. unfold SF64mul.
  destruct (Prim2SF x) as [sx|sx| |sx mx ex], (Prim2SF y) as [sy|sy| |sy my ey];
    simpl; intros Hx Hy; subst; try reflexivity; try exact I.
  apply binary_round_aux_sign.
Qed.

Lemma sign_clear_div (x y : float) :
  sign_clear (Prim2SF x) -> sign_clear (Prim2SF y) -> sign_clear (Prim2SF (x / y)).
Proof.
  rewrite FloatAxioms.div_spec. unfold SF64div.
  destruct (Prim2SF x) as [sx|sx| |sx mx ex], (Prim2SF y) as [sy|sy| |sy my ey];
    simpl; intros Hx Hy; subst; try reflexivity; try exact I.
  destruct (SFdiv_core_binary _ _ _ _ _ _) as [[mz ez] lz].
  apply binary_round_aux_sign.
Qed.

Lemma sign_clear_py_min (a b : float) :
  sign_clear (Prim2SF a) -> sign_clear (Prim2SF b) -> sign_clear (Prim2SF (py_min a b)).
Proof. unfold py_min. now destruct (PrimFloat.ltb b a). Qed.

Lemma sign_clear_float_of_nat (n : nat) : sign_clear (Prim2SF (float_of_nat n)).
Proof. apply of_uint63_sign. Qed.

Lemma SFcompare_refl (x : spec_float) : x <> S754_nan -> SFcompare x x = Some Eq.
Proof.
  destruct x as [s|s| |s m e]; simpl; intros H; try congruence.
  - now destruct s.
  - rewrite Z.compare_refl.
    change (PosDef.Pos.compare_cont Eq m m) with (Pos.compare m m).
    rewrite Pos.compare_refl. now destruct s.
Qed.

(** A float that is strictly below another one is a number, and is below
    or equal to it. *)
Lemma ltb_number (x y : float) : PrimFloat.ltb x y = true -> PrimFloat.eqb x x = true.
Proof.
  rewrite FloatAxioms.ltb_spec, FloatAxioms.eqb_spec. unfold SFltb, SFeqb.
  intros H. rewrite SFcompare_refl; [reflexivity|].
  intros E. rewrite E in H. discriminate.
Qed.

Lemma ltb_leb (x y : float) : PrimFloat.ltb x y = true -> PrimFloat.leb x y = true.
Proof.
  rewrite FloatAxioms.ltb_spec, FloatAxioms.leb_spec. unfold SFltb, SFleb.
  now destruct (SFcompare (Prim2SF x) (Prim2SF y)) as [[| |]|].
Qed.

Lemma leb_zero (x : float) :
  sign_clear (Prim2SF x) -> PrimFloat.eqb x x = true -> PrimFloat.leb 0 x = true.
Proof.
  rewrite FloatAxioms.leb_spec, FloatAxioms.eqb_spec. unfold SFleb, SFeqb.
  change (Prim2SF 0) with (S754_zero false).
  destruct (Prim2SF x) as [s|s| |s m e]; simpl; intros Hs Hn; subst;
    try reflexivity; discriminate.
Qed.

(** [leb] is the complement of the converse [ltb] on numbers. *)
Lemma leb_negb_ltb (x y : float) :
  PrimFloat.eqb x x = true -> PrimFloat.eqb y y = true ->
  PrimFloat.leb x y = negb (PrimFloat.ltb y x).
Proof.
  rewrite !FloatAxioms.eqb_spec, FloatAxioms.leb_spec, FloatAxioms.ltb_spec.
  unfold SFeqb, SFleb, SFltb. rewrite (SFcompare_antisym (Prim2SF x) (Prim2SF y)).
  intros Hx Hy.
  destruct (Prim2SF x) as [sx|sx| |sx mx ex], (Prim2SF y) as [sy|sy| |sy my ey];
    simpl in *; try discriminate;
    try (destruct sx; reflexivity); try (destruct sy; reflexivity);
    try (destruct sx, sy; reflexivity).
  destruct sx, sy; simpl; try reflexivity;
    destruct (ex ?= ey)%Z; simpl; try reflexivity;
    destruct (PosDef.Pos.compare_cont Eq mx my); reflexivity.
Qed.

End FloatBounds.

(* ================================================================== *)
(** * Further properties of the analysis engine *)

Module AnalyzerMore.
Import Algorithms Analyzer Spec SpecMore SearchCorrect StripFacts AnalyzeFacts.
Import FloatFacts FloatBounds ScoreFacts RankFacts BatchFacts.

Lemma relevance_score_bounds (matched total : list str) :
  PrimFloat.leb 0 (_calculate_relevance_score matched total) = true
  /\ PrimFloat.leb (_calculate_relevance_score matched total) 1 = true.
Proof.
  unfold _calculate_relevance_score. destruct total as [|t total]; [split; reflexivity|].
  set (x := if 0 <? length matched then _ else _).
  assert (Hx : sign_clear (Prim2SF x)).
  { subst x. destruct (0 <? length matched).
    - apply sign_clear_add.
      + apply sign_clear_div; apply sign_clear_float_of_nat.
      + apply sign_clear_py_min; [exact eq_refl|].
        apply sign_clear_mul; [apply sign_clear_float_of_nat|exact eq_refl].
    - apply sign_clear_div; apply sign_clear_float_of_nat. }
  unfold py_min. destruct (PrimFloat.ltb x 1) eqn:Hlt.
  - split; [|now apply ltb_leb]. apply leb_zero; [exact Hx|]. now apply ltb_number in Hlt.
  - split; reflexivity.
Qed.

Lemma relevance_score_number (matched total : list str) :
  is_number (_calculate_relevance_score matched total) = true.
Proof.
  destruct (relevance_score_bounds matched total) as [H _].
  unfold is_number. rewrite FloatAxioms.leb_spec in H. rewrite FloatAxioms.eqb_spec.
  unfold SFleb in H. unfold SFeqb. rewrite SFcompare_refl; [reflexivity|].
  intros E. rewrite E in H. change (Prim2SF 0) with (S754_zero false) in H.
  simpl in H. discriminate.
Qed.

(** X6: Whatever the keyword lists, the relevance score is a number (not NaN)
    between 0.0 and 1.0. *)
Theorem relevance_score_range (matched total : list str) :
  is_number (_calculate_relevance_score matched total) = true
  /\ PrimFloat.leb 0 (_calculate_relevance_score matched total) = true
  /\ PrimFloat.leb (_calculate_relevance_score matched total) 1 = true.
Proof.
  split; [apply relevance_score_number|apply relevance_score_bounds].
Qed.

Section Classification.

Variable lower : str -> str.
Hypothesis lower_nonempty : forall s : str, s <> [] -> lower s <> [].

Lemma run_algorithm_matches (algorithm : string) (cv_text keyword : str) (cs : bool) :
  known_algorithm algorithm -> keyword <> [] ->
  exists r,
    run_algorithm lower algorithm cv_text keyword cs = Return r
    /\ matches r = match_positions (normalize lower cs cv_text) (normalize lower cs keyword).
Proof.
  intros Hk Hne. pose proof (normalize_nonempty lower lower_nonempty cs keyword Hne) as Hn.
  unfold run_algorithm. destruct Hk as [-> | [-> | ->]]; cbn [String.eqb Ascii.eqb Bool.eqb].
  - destruct (brute_force_search_spec lower cv_text keyword cs) as (c & -> & _). eauto.
  - destruct (rabin_karp_search_spec lower cv_text keyword cs Hn) as (c & ->). eauto.
  - destruct (kmp_search_spec lower cv_text keyword cs Hn) as (c & ->). eauto.
Qed.

(** The loop sorts the searched keywords by whether they occur. *)
Lemma keyword_loop_classifies (cv_text : str) (algorithm : string) (cs : bool)
    (kws : list str) :
  known_algorithm algorithm ->
  forall matched missing c,
  exists c',
    keyword_loop lower cv_text algorithm cs kws (matched, missing, c)
    = Return (matched ++ List.filter (keyword_found lower cs cv_text)
                           (searched_keywords kws),
              missing ++ List.filter (fun k => negb (keyword_found lower cs cv_text k))
                           (searched_keywords kws),
              c').
Proof.
  intros Hk. induction kws as [|kw kws IH]; intros matched missing c.
  - exists c. simpl. now rewrite !app_nil_r.
  - cbn [keyword_loop]. unfold searched_keywords. cbn [map List.filter].
    destruct (strip kw) as [|ch rest] eqn:Hs.
    + assert (Hb : blank [] = true) by reflexivity. rewrite Hb. cbn [negb]. apply IH.
    + assert (Hb : blank (ch :: rest) = false).
      { rewrite <- Hs. apply strip_not_blank. rewrite Hs. discriminate. }
      rewrite Hb. cbn [negb List.filter].
      destruct (run_algorithm_matches algorithm cv_text (ch :: rest) cs Hk)
        as (r & -> & Hms); [discriminate|].
      cbn [bind].
      assert (Hf : keyword_found lower cs cv_text (ch :: rest)
                   = match matches r with [] => false | _ :: _ => true end)
        by (unfold keyword_found; now rewrite Hms).
      rewrite Hf. fold (searched_keywords kws).
      destruct (matches r) as [|p ps]; cbn [negb].
      * destruct (IH matched (missing ++ [ch :: rest]) (c + comparisons r)) as (c' & ->).
        exists c'. now rewrite <- app_assoc.
      * destruct (IH (matched ++ [ch :: rest]) missing (c + comparisons r)) as (c' & ->).
        exists c'. now rewrite <- app_assoc.
Qed.

(** X7: With one of the three names, what [analyze_cv] reports does not depend
    on the name apart from the comparison count: the matched keywords are
    the stripped non-blank keywords that occur in the text, the missing
    ones are the others, both in the order of the list. *)
Theorem analyze_cv_classifies (cv_text : str) (kws : list str) (algorithm : string)
    (cs : bool) :
  known_algorithm algorithm -> cv_text <> [] -> kws <> [] ->
  exists r,
    analyze_cv lower cv_text kws algorithm cs = Return r
    /\ matched_keywords r
       = List.filter (keyword_found lower cs cv_text) (searched_keywords kws)
    /\ missing_keywords r
       = List.filter (fun k => negb (keyword_found lower cs cv_text k))
           (searched_keywords kws)
    /\ relevance_score r = _calculate_relevance_score (matched_keywords r) kws
    /\ total_keywords r = length kws
    /\ algorithm_used r = algorithm.
Proof.
  intros Hk Htext Hkws. unfold analyze_cv.
  destruct cv_text as [|ch text]; [congruence|]. destruct kws as [|kw kws']; [congruence|].
  destruct (keyword_loop_classifies (ch :: text) algorithm cs (kw :: kws') Hk [] [] 0)
    as (c' & ->).
  cbn [bind app]. eexists. split; [reflexivity|]. repeat split.
Qed.

End Classification.

Lemma analyze_cv_classifies_witness :
  known_algorithm "Rabin-Karp" /\ py "I know Python" <> []
  /\ [py " python "; py "  "; py "Rust"] <> []
  /\ exists r,
       analyze_cv ascii_lower (py "I know Python") [py " python "; py "  "; py "Rust"]
         "Rabin-Karp" false = Return r
       /\ matched_keywords r
          = List.filter (keyword_found ascii_lower false (py "I know Python"))
              (searched_keywords [py " python "; py "  "; py "Rust"])
       /\ missing_keywords r
          = List.filter
              (fun k => negb (keyword_found ascii_lower false (py "I know Python") k))
              (searched_keywords [py " python "; py "  "; py "Rust"])
       /\ relevance_score r
          = _calculate_relevance_score (matched_keywords r)
              [py " python "; py "  "; py "Rust"]
       /\ total_keywords r = length [py " python "; py "  "; py "Rust"]
       /\ algorithm_used r = "Rabin-Karp"%string.
Proof.
  split; [right; left; reflexivity|]. split; [vm_compute; discriminate|].
  split; [discriminate|].
  apply (analyze_cv_classifies ascii_lower Claims.ascii_lower_nonempty).
  - right; left; reflexivity.
  - vm_compute. discriminate.
  - discriminate.
Defined.

End AnalyzerMore.

(* ================================================================== *)
(** * Batches, metrics and ranking *)

Module BatchMore.
Import Algorithms Analyzer Spec SpecMore SearchCorrect StripFacts AnalyzeFacts.
Import FloatFacts FloatBounds ScoreFacts RankFacts BatchFacts AnalyzerMore.

Lemma analyze_cv_fields (lower : str -> str) (cv_text : str) (kws : list str)
    (algorithm : string) (cs : bool) (r : AnalysisResult) :
  analyze_cv lower cv_text kws algorithm cs = Return r ->
  algorithm_used r = algorithm /\ total_keywords r = length kws
  /\ is_number (relevance_score r) = true.
Proof.
  unfold analyze_cv. destruct cv_text as [|ch text].
  { intros H. injection H as <-. repeat split. }
  destruct kws as [|kw kws'].
  { intros H. injection H as <-. repeat split. }
  intros H. apply bind_Return_inv in H as ([[matched missing] c] & _ & H).
  injection H as <-. split; [reflexivity|]. split; [reflexivity|].
  exact (relevance_score_number matched (kw :: kws')).
Qed.

Section Batches.

Variable lower : str -> str.
Variable basename : string -> string.
Variable _load_cv_text : string -> str.

Lemma batch_body_labels (jd : JobDescription) (algorithm : string) (cs : bool)
    (cv_file : string) (r : AnalysisResult) :
  batch_body lower basename _load_cv_text jd algorithm cs cv_file = Return r ->
  cv_filename r = basename cv_file /\ job_description r = title jd
  /\ algorithm_used r = algorithm /\ total_keywords r = length (keywords jd)
  /\ is_number (relevance_score r) = true.
Proof.
  unfold batch_body. destruct (_load_cv_text cv_file) as [|ch text].
  { intros H. injection H as <-. repeat split. }
  destruct (strip (ch :: text)).
  { intros H. injection H as <-. repeat split. }
  destruct (analyze_cv lower (ch :: text) (keywords jd) algorithm cs) as [res|e|] eqn:Ha;
    intros H; try discriminate; injection H as <-.
  - apply analyze_cv_fields in Ha as (Hal & Htot & Hnum). cbn. repeat split; assumption.
  - repeat split.
Qed.

Lemma batch_loop_labels (jd : JobDescription) (algorithm : string) (cs : bool)
    (cv_files : list string) :
  forall acc rs,
    batch_loop lower basename _load_cv_text jd algorithm cs cv_files acc = Return rs ->
    exists new,
      rs = acc ++ new
      /\ map cv_filename new = map basename cv_files
      /\ Forall (fun r => job_description r = title jd /\ algorithm_used r = algorithm
                          /\ total_keywords r = length (keywords jd)
                          /\ is_number (relevance_score r) = true) new.
Proof.
  induction cv_files as [|f fs IH]; intros acc rs Hrun.
  - simpl in Hrun. injection Hrun as <-. exists []. rewrite app_nil_r.
    repeat split. constructor.
  - cbn [batch_loop] in Hrun. apply bind_Return_inv in Hrun as (r & Hbody & Hrun).
    apply batch_body_labels in Hbody as (Hname & Hjob & Halg & Htot & Hnum).
    apply IH in Hrun as (new & -> & Hnames & Hall).
    exists (r :: new). rewrite <- app_assoc. split; [reflexivity|]. split.
    + cbn [map]. now rewrite Hname, Hnames.
    + constructor; [repeat split; assumption|exact Hall].
Qed.

(** With a name that is none of the three, every search attempt raises
    and is replaced by the placeholder. *)
Lemma batch_body_unknown (jd : JobDescription) (algorithm : string) (cs : bool)
    (cv_file : string) :
  ~ known_algorithm algorithm ->
  (exists k, In k (keywords jd) /\ blank k = false) ->
  batch_body lower basename _load_cv_text jd algorithm cs cv_file
  = Return (error_result basename cv_file jd algorithm).
Proof.
  intros Hk Hkw. unfold batch_body.
  destruct (_load_cv_text cv_file) as [|ch text]; [reflexivity|].
  destruct (strip (ch :: text)); [reflexivity|].
  unfold analyze_cv. destruct (keywords jd) as [|kw kws] eqn:Ekw.
  { destruct Hkw as (k & [] & _). }
  now rewrite (keyword_loop_unknown lower (ch :: text) algorithm cs (kw :: kws) Hk Hkw).
Qed.

Lemma batch_loop_unknown (jd : JobDescription) (algorithm : string) (cs : bool)
    (cv_files : list string) :
  ~ known_algorithm algorithm ->
  (exists k, In k (keywords jd) /\ blank k = false) ->
  forall acc,
    batch_loop lower basename _load_cv_text jd algorithm cs cv_files acc
    = Return (acc ++ map (fun f => error_result basename f jd algorithm) cv_files).
Proof.
  intros Hk Hkw. induction cv_files as [|f fs IH]; intros acc.
  - simpl. now rewrite app_nil_r.
  - cbn [batch_loop]. rewrite (batch_body_unknown jd algorithm cs f Hk Hkw).
    cbn [bind]. rewrite IH, <- app_assoc. reflexivity.
Qed.

Lemma batch_average_placeholders (jd : JobDescription) (algorithm : string)
    (cv_files : list string) :
  batch_average (map (fun f => error_result basename f jd algorithm) cv_files) = 0%float.
Proof.
  unfold batch_average.
  replace (List.filter _ _) with (@nil AnalysisResult); [reflexivity|].
  induction cv_files as [|f fs IH]; [reflexivity|]. cbn [map List.filter]. exact IH.
Qed.

(** X8: A mistyped algorithm name does not make the batch fail: the error of
    every file is swallowed, each CV gets the zero-score placeholder that
    lists all keywords as missing, and the average is 0.0. *)
Theorem unknown_algorithm_is_swallowed (history : list BatchAnalysisResult)
    (cv_files : list string) (jd : JobDescription) (algorithm : string) (cs : bool) :
  ~ known_algorithm algorithm ->
  (exists k, In k (keywords jd) /\ blank k = false) ->
  let batch :=
    mkBatchAnalysisResult jd algorithm
      (map (fun f => mkAnalysisResult (basename f) (title jd) algorithm []
                       (keywords jd) 0%float 0 (length (keywords jd))) cv_files)
      0%float (length cv_files) in
  analyze_multiple_cvs lower basename _load_cv_text history cv_files jd algorithm cs
  = Return (batch, history ++ [batch]).
Proof.
  intros Hk Hkw batch. unfold analyze_multiple_cvs.
  rewrite (batch_loop_unknown jd algorithm cs cv_files Hk Hkw). cbn [bind app].
  rewrite batch_average_placeholders. reflexivity.
Qed.

Hypothesis lower_nonempty : forall s : str, s <> [] -> lower s <> [].

(** X9: A batch holds one result per file, in the order of the files, each
    labelled with the base name of its file, the job title, the algorithm
    and the number of keywords of the job; the history grows by exactly
    this batch. *)
Theorem batch_results_follow_files (history : list BatchAnalysisResult)
    (cv_files : list string) (jd : JobDescription) (algorithm : string) (cs : bool) :
  exists batch,
    analyze_multiple_cvs lower basename _load_cv_text history cv_files jd algorithm cs
    = Return (batch, history ++ [batch])
    /\ batch_job_description batch = jd
    /\ total_cvs_analyzed batch = length cv_files
    /\ map cv_filename (cv_results batch) = map basename cv_files
    /\ Forall (fun r => job_description r = title jd /\ algorithm_used r = algorithm
                        /\ total_keywords r = length (keywords jd)
                        /\ is_number (relevance_score r) = true)
         (cv_results batch).
Proof.
  unfold analyze_multiple_cvs.
  destruct (batch_loop_total lower lower_nonempty basename _load_cv_text jd algorithm cs
              cv_files []) as (rs & Hrun & _).
  rewrite Hrun. cbn [bind app]. eexists. split; [reflexivity|].
  cbn [batch_job_description total_cvs_analyzed cv_results].
  apply batch_loop_labels in Hrun as (new & Hrs & Hnames & Hall).
  cbn [app] in Hrs. subst new. repeat split; assumption.
Qed.

End Batches.

Lemma unknown_algorithm_is_swallowed_witness :
  ~ known_algorithm "Boyer-Moore"
  /\ (exists k, In k [py "python"; py "rust"] /\ blank k = false)
  /\ analyze_multiple_cvs ascii_lower (fun f => f)
       (fun f => if String.eqb f "a.pdf" then py "I know Python" else [])
       [] ["a.pdf"; "b.pdf"]%string
       (mkJobDescription 0 "Dev" "" [py "python"; py "rust"]) "Boyer-Moore" false
     = Return
         (mkBatchAnalysisResult (mkJobDescription 0 "Dev" "" [py "python"; py "rust"])
            "Boyer-Moore"
            [mkAnalysisResult "a.pdf" "Dev" "Boyer-Moore" [] [py "python"; py "rust"] 0 0 2;
             mkAnalysisResult "b.pdf" "Dev" "Boyer-Moore" [] [py "python"; py "rust"] 0 0 2]
            0 2,
          [mkBatchAnalysisResult (mkJobDescription 0 "Dev" "" [py "python"; py "rust"])
             "Boyer-Moore"
             [mkAnalysisResult "a.pdf" "Dev" "Boyer-Moore" [] [py "python"; py "rust"] 0 0 2;
              mkAnalysisResult "b.pdf" "Dev" "Boyer-Moore" [] [py "python"; py "rust"] 0 0 2]
             0 2]).
Proof.
  assert (Hk : ~ known_algorithm "Boyer-Moore").
  { intros [H | [H | H]]; discriminate H. }
  assert (Hkw : exists k, In k [py "python"; py "rust"] /\ blank k = false).
  { exists (py "python"). split; [left; reflexivity|vm_compute; reflexivity]. }
  split; [exact Hk|]. split; [exact Hkw|].
  exact (unknown_algorithm_is_swallowed ascii_lower (fun f => f)
           (fun f => if String.eqb f "a.pdf" then py "I know Python" else [])
           [] ["a.pdf"; "b.pdf"]%string
           (mkJobDescription 0 "Dev" "" [py "python"; py "rust"]) "Boyer-Moore" false
           Hk Hkw).
Defined.

Lemma batch_results_follow_files_witness :
  (forall s : str, s <> [] -> ascii_lower s <> [])
  /\ exists batch,
       analyze_multiple_cvs ascii_lower (fun f => f)
         (fun f => if String.eqb f "a.pdf" then py "I know Python" else [])
         [] ["a.pdf"; "b.pdf"]%string
         (mkJobDescription 0 "Dev" "" [py "python"; py "rust"]) "KMP" false
       = Return (batch, [] ++ [batch])
       /\ batch_job_description batch = mkJobDescription 0 "Dev" "" [py "python"; py "rust"]
       /\ total_cvs_analyzed batch = length ["a.pdf"; "b.pdf"]%string
       /\ map cv_filename (cv_results batch) = map (fun f => f) ["a.pdf"; "b.pdf"]%string
       /\ Forall (fun r =>
                    job_description r
                    = title (mkJobDescription 0 "Dev" "" [py "python"; py "rust"])
                    /\ algorithm_used r = "KMP"%string
                    /\ total_keywords r
                       = length (keywords (mkJobDescription 0 "Dev" ""
                                             [py "python"; py "rust"]))
                    /\ is_number (relevance_score r) = true)
            (cv_results batch).
Proof.
  split; [exact Claims.ascii_lower_nonempty|].
  exact (batch_results_follow_files ascii_lower (fun f => f)
           (fun f => if String.eqb f "a.pdf" then py "I know Python" else [])
           Claims.ascii_lower_nonempty
           [] ["a.pdf"; "b.pdf"]%string
           (mkJobDescription 0 "Dev" "" [py "python"; py "rust"]) "KMP" false).
Defined.

End BatchMore.

(* ================================================================== *)
(** * The score distribution of [get_performance_metrics] *)

Module MetricsFacts.
Import Algorithms Analyzer Spec SpecMore Engine.
Import FloatFacts FloatBounds BatchFacts BatchMore.

(** A score that is a number falls into exactly one of the three bands. *)
Lemma one_band (s : float) :
  is_number s = true ->
  (if PrimFloat.leb 0.7 s then 1 else 0)
  + (if PrimFloat.leb 0.3 s && PrimFloat.ltb s 0.7 then 1 else 0)
  + (if PrimFloat.ltb s 0.3 then 1 else 0) = 1.
Proof.
  unfold is_number. intros Hs.
  rewrite (leb_negb_ltb 0.7 s eq_refl Hs), (leb_negb_ltb 0.3 s eq_refl Hs).
  destruct (PrimFloat.ltb s 0.3) eqn:Elow.
  - destruct (PrimFloat.ltb s 0.7) eqn:Ehigh; [reflexivity|].
    pose proof (ltb_false_trans s 0.7 0.3 Hs eq_refl eq_refl Ehigh eq_refl). congruence.
  - now destruct (PrimFloat.ltb s 0.7).
Qed.

(** NaN is in no band. *)
Lemma nan_in_no_band :
  PrimFloat.leb 0.7 nan = false /\ PrimFloat.ltb nan 0.7 = false
  /\ PrimFloat.ltb nan 0.3 = false.
Proof. repeat split. Qed.

Lemma length_filter_cons {A : Type} (f : A -> bool) (a : A) (l : list A) :
  length (List.filter f (a :: l)) = (if f a then 1 else 0) + length (List.filter f l).
Proof. cbn [List.filter]. now destruct (f a). Qed.

Lemma bands_cover (results : list AnalysisResult) :
  Forall (fun r => is_number (relevance_score r) = true) results ->
  length (List.filter (fun r => PrimFloat.leb 0.7 (relevance_score r)) results)
  + length (List.filter (fun r => PrimFloat.leb 0.3 (relevance_score r)
                                  && PrimFloat.ltb (relevance_score r) 0.7) results)
  + length (List.filter (fun r => PrimFloat.ltb (relevance_score r) 0.3) results)
  = length results.
Proof.
  induction 1 as [|r rs Hr _ IH]; [reflexivity|].
  rewrite !length_filter_cons. pose proof (one_band (relevance_score r) Hr).
  cbn [length]. lia.
Qed.

(** X10: The three bands of the distribution (at least 0.7, from 0.3 up to 0.7,
    below 0.3) count every CV of the batch exactly once, provided no score
    is NaN. *)
Theorem distribution_counts_every_cv (batch : BatchAnalysisResult) :
  Forall (fun r => is_number (relevance_score r) = true) (cv_results batch) ->
  high_match (get_performance_metrics batch)
  + medium_match (get_performance_metrics batch)
  + low_match (get_performance_metrics batch)
  = length (cv_results batch).
Proof. intros H. cbn. now apply bands_cover. Qed.

Lemma distribution_counts_every_cv_witness :
  Forall (fun r => is_number (relevance_score r) = true)
    (cv_results (batch_of [scored "a" 0.7; scored "b" 0.3; scored "c" 0.1; scored "d" 1]))
  /\ high_match (get_performance_metrics
                   (batch_of [scored "a" 0.7; scored "b" 0.3; scored "c" 0.1; scored "d" 1]))
     + medium_match (get_performance_metrics
                       (batch_of [scored "a" 0.7; scored "b" 0.3; scored "c" 0.1;
                                  scored "d" 1]))
     + low_match (get_performance_metrics
                    (batch_of [scored "a" 0.7; scored "b" 0.3; scored "c" 0.1; scored "d" 1]))
     = length (cv_results
                 (batch_of [scored "a" 0.7; scored "b" 0.3; scored "c" 0.1; scored "d" 1])).
Proof.
  assert (H : Forall (fun r => is_number (relevance_score r) = true)
                (cv_results
                   (batch_of [scored "a" 0.7; scored "b" 0.3; scored "c" 0.1; scored "d" 1]))).
  { repeat constructor. }
  split; [exact H|].
  exact (distribution_counts_every_cv
           (batch_of [scored "a" 0.7; scored "b" 0.3; scored "c" 0.1; scored "d" 1]) H).
Defined.

(** X11: For the batch that [analyze_multiple_cvs] produces, the metrics report
    as many CVs as there were files and the three bands add up to that
    number. *)
Theorem analyzed_batch_distribution (lower : str -> str) (basename : string -> string)
    (_load_cv_text : string -> str) (history : list BatchAnalysisResult)
    (cv_files : list string) (jd : JobDescription) (algorithm : string) (cs : bool) :
  (forall s : str, s <> [] -> lower s <> []) ->
  exists batch,
    analyze_multiple_cvs lower basename _load_cv_text history cv_files jd algorithm cs
    = Return (batch, history ++ [batch])
    /\ total_cvs (get_performance_metrics batch) = length cv_files
    /\ Engine.algorithm (get_performance_metrics batch) = algorithm
    /\ high_match (get_performance_metrics batch)
       + medium_match (get_performance_metrics batch)
       + low_match (get_performance_metrics batch)
       = length cv_files.
Proof.
  intros Hlower. unfold analyze_multiple_cvs.
  destruct (batch_loop_total lower Hlower basename _load_cv_text jd algorithm cs
              cv_files []) as (rs & Hrun & Hlen).
  rewrite Hrun. cbn [bind app]. eexists. split; [reflexivity|].
  split; [reflexivity|]. split; [reflexivity|].
  cbn [get_performance_metrics high_match medium_match low_match cv_results].
  apply batch_loop_labels in Hrun as (new & Hrs & Hnames & Hall).
  cbn [app] in Hrs. subst new. rewrite bands_cover.
  - rewrite <- (length_map cv_filename), Hnames. apply length_map.
  - eapply List.Forall_impl; [|exact Hall]. cbn. tauto.
Qed.

Lemma analyzed_batch_distribution_witness :
  (forall s : str, s <> [] -> ascii_lower s <> [])
  /\ exists batch,
       analyze_multiple_cvs ascii_lower (fun f => f)
         (fun f => if String.eqb f "a.pdf" then py "I know Python" else [])
         [] ["a.pdf"; "b.pdf"]%string
         (mkJobDescription 0 "Dev" "" [py "python"; py "rust"]) "KMP" false
       = Return (batch, [] ++ [batch])
       /\ total_cvs (get_performance_metrics batch) = length ["a.pdf"; "b.pdf"]%string
       /\ Engine.algorithm (get_performance_metrics batch) = "KMP"%string
       /\ high_match (get_performance_metrics batch)
          + medium_match (get_performance_metrics batch)
          + low_match (get_performance_metrics batch)
          = length ["a.pdf"; "b.pdf"]%string.
Proof.
  split; [exact Claims.ascii_lower_nonempty|].
  exact (analyzed_batch_distribution ascii_lower (fun f => f)
           (fun f => if String.eqb f "a.pdf" then py "I know Python" else [])
           [] ["a.pdf"; "b.pdf"]%string
           (mkJobDescription 0 "Dev" "" [py "python"; py "rust"]) "KMP" false
           Claims.ascii_lower_nonempty).
Defined.

End MetricsFacts.

(* ================================================================== *)
(** * What the ranking leaves out *)

Module RankMore.
Import Analyzer Spec SpecMore FloatFacts FloatBounds RankFacts.

Lemma strongly_sorted_app {A : Type} (R : A -> A -> Prop) (l1 l2 : list A) :
  StronglySorted R (l1 ++ l2) -> forall a b, In a l1 -> In b l2 -> R a b.
Proof.
  induction l1 as [|x l1 IH]; intros Hs a b Ha Hb; [destruct Ha|].
  cbn in Hs. inversion Hs as [|? ? Htl Hhd]; subst. destruct Ha as [<- | Ha].
  - rewrite List.Forall_forall in Hhd. apply Hhd, in_or_app. now right.
  - now apply IH.
Qed.

(** X12: Whatever the count, the ranking splits the CVs of the batch into those
    returned and those left out, and (no score being NaN) no CV that is left
    out has a greater score than a returned one; a count N >= 0 returns N
    entries, or all of them when there are fewer. *)
Theorem top_matching_cvs_dominate (batch : BatchAnalysisResult) (top_n : Z) :
  Forall (fun r => is_number (relevance_score r) = true) (cv_results batch) ->
  exists rest,
    Permutation (get_top_matching_cvs batch top_n ++ rest) (cv_results batch)
    /\ (forall a b, In a (get_top_matching_cvs batch top_n) -> In b rest ->
        PrimFloat.leb (relevance_score b) (relevance_score a) = true)
    /\ ((0 <= top_n)%Z ->
        length (get_top_matching_cvs batch top_n)
        = Nat.min (Z.to_nat top_n) (length (cv_results batch))).
Proof.
  intros Hnum. unfold get_top_matching_cvs.
  set (sorted_results := sorted_reverse relevance_score (cv_results batch)).
  assert (Hperm : Permutation sorted_results (cv_results batch))
    by apply sorted_reverse_perm.
  assert (Hk : exists k, slice_to sorted_results top_n = take k sorted_results).
  { unfold slice_to. destruct (0 <=? top_n)%Z; eexists; reflexivity. }
  destruct Hk as (k & Hk). exists (drop k sorted_results). rewrite Hk.
  rewrite take_drop. split; [exact Hperm|]. split.
  - intros a b Ha Hb.
    pose proof (sorted_reverse_strongly_sorted relevance_score (cv_results batch) Hnum)
      as Hs.
    fold sorted_results in Hs. rewrite <- (take_drop k sorted_results) in Hs.
    pose proof (strongly_sorted_app _ _ _ Hs a b Ha Hb) as Hab. unfold not_below in Hab.
    assert (Hin : forall r, In r sorted_results -> is_number (relevance_score r) = true).
    { intros r Hr. rewrite List.Forall_forall in Hnum. apply Hnum.
      eapply Permutation_in; [exact Hperm|exact Hr]. }
    rewrite leb_negb_ltb, Hab; [reflexivity| |].
    + apply Hin. rewrite <- (take_drop k sorted_results). apply in_or_app. now right.
    + apply Hin. rewrite <- (take_drop k sorted_results). apply in_or_app. now left.
  - intros Hn. rewrite <- Hk, slice_to_nonneg by exact Hn.
    rewrite length_take. now rewrite (Permutation_length Hperm).
Qed.

Lemma top_matching_cvs_dominate_witness :
  Forall (fun r => is_number (relevance_score r) = true)
    (cv_results (batch_of [scored "a" 0.5; scored "b" 0; scored "c" 0.5; scored "d" 1]))
  /\ exists rest,
       Permutation
         (get_top_matching_cvs
            (batch_of [scored "a" 0.5; scored "b" 0; scored "c" 0.5; scored "d" 1]) 2
          ++ rest)
         (cv_results (batch_of [scored "a" 0.5; scored "b" 0; scored "c" 0.5; scored "d" 1]))
       /\ (forall a b,
             In a (get_top_matching_cvs
                     (batch_of [scored "a" 0.5; scored "b" 0; scored "c" 0.5; scored "d" 1])
                     2) ->
             In b rest ->
             PrimFloat.leb (relevance_score b) (relevance_score a) = true)
       /\ ((0 <= 2)%Z ->
           length (get_top_matching_cvs
                     (batch_of [scored "a" 0.5; scored "b" 0; scored "c" 0.5; scored "d" 1])
                     2)
           = Nat.min (Z.to_nat 2)
               (length (cv_results
                          (batch_of [scored "a" 0.5; scored "b" 0; scored "c" 0.5;
                                     scored "d" 1])))).
Proof.
  assert (H : Forall (fun r => is_number (relevance_score r) = true)
                (cv_results
                   (batch_of [scored "a" 0.5; scored "b" 0; scored "c" 0.5; scored "d" 1]))).
  { repeat constructor. }
  split; [exact H|].
  exact (top_matching_cvs_dominate
           (batch_of [scored "a" 0.5; scored "b" 0; scored "c" 0.5; scored "d" 1]) 2 H).
Defined.

End RankMore.

(* ================================================================== *)
(** * [CVAnalyzer.compare_algorithms] and the text cache *)

Module EngineFacts.
Import Algorithms Analyzer Spec SpecMore AnalyzeFacts AnalyzerMore.

Section Comparison.

Variable lower : str -> str.
Hypothesis lower_nonempty : forall s : str, s <> [] -> lower s <> [].

Lemma analyze_cv_verdict (cv_text : str) (kws : list str) (algorithm : string) :
  known_algorithm algorithm ->
  exists r,
    analyze_cv lower cv_text kws algorithm false = Return r
    /\ (matched_keywords r, missing_keywords r, relevance_score r)
       = verdict lower cv_text kws
    /\ algorithm_used r = algorithm /\ total_keywords r = length kws.
Proof.
  intros Hk. destruct cv_text as [|ch text].
  { eexists. split; [reflexivity|]. repeat split. }
  destruct kws as [|kw kws'].
  { eexists. split; [reflexivity|]. repeat split. }
  unfold analyze_cv.
  destruct (keyword_loop_classifies lower lower_nonempty (ch :: text) algorithm false
              (kw :: kws') Hk [] [] 0) as (c' & ->).
  cbn [bind app]. eexists. split; [reflexivity|]. repeat split.
Qed.

(** X13: Comparing the three algorithms on a CV always succeeds and yields
    three results, in the order Brute Force, Rabin-Karp, KMP, that agree on
    the matched keywords, the missing keywords and the score; only the
    comparison counts can differ. *)
Theorem engine_comparison_agrees (cv_text : str) (kws : list str) :
  exists bf rk kmp,
    Engine.compare_algorithms lower cv_text kws
    = Return [("Brute Force"%string, bf); ("Rabin-Karp"%string, rk); ("KMP"%string, kmp)]
    /\ algorithm_used bf = "Brute Force"%string
    /\ algorithm_used rk = "Rabin-Karp"%string
    /\ algorithm_used kmp = "KMP"%string
    /\ matched_keywords rk = matched_keywords bf
    /\ matched_keywords kmp = matched_keywords bf
    /\ missing_keywords rk = missing_keywords bf
    /\ missing_keywords kmp = missing_keywords bf
    /\ relevance_score rk = relevance_score bf
    /\ relevance_score kmp = relevance_score bf.
Proof.
  destruct (analyze_cv_verdict cv_text kws "Brute Force") as (bf & Hbf & Vbf & Abf & _);
    [left; reflexivity|].
  destruct (analyze_cv_verdict cv_text kws "Rabin-Karp") as (rk & Hrk & Vrk & Ark & _);
    [right; left; reflexivity|].
  destruct (analyze_cv_verdict cv_text kws "KMP") as (kmp & Hkmp & Vkmp & Akmp & _);
    [right; right; reflexivity|].
  exists bf, rk, kmp. split.
  { unfold Engine.compare_algorithms. cbn [Engine.compare_loop].
    rewrite Hbf. cbn [bind]. rewrite Hrk. cbn [bind]. rewrite Hkmp. reflexivity. }
  rewrite <- Vbf in Vrk, Vkmp. injection Vrk as -> -> ->. injection Vkmp as -> -> ->.
  repeat split; assumption.
Qed.

End Comparison.

Lemma engine_comparison_agrees_witness :
  (forall s : str, s <> [] -> ascii_lower s <> [])
  /\ exists bf rk kmp,
       Engine.compare_algorithms ascii_lower (py "I know Python") [py "python"; py "rust"]
       = Return [("Brute Force"%string, bf); ("Rabin-Karp"%string, rk); ("KMP"%string, kmp)]
       /\ algorithm_used bf = "Brute Force"%string
       /\ algorithm_used rk = "Rabin-Karp"%string
       /\ algorithm_used kmp = "KMP"%string
       /\ matched_keywords rk = matched_keywords bf
       /\ matched_keywords kmp = matched_keywords bf
       /\ missing_keywords rk = missing_keywords bf
       /\ missing_keywords kmp = missing_keywords bf
       /\ relevance_score rk = relevance_score bf
       /\ relevance_score kmp = relevance_score bf.
Proof.
  split; [exact Claims.ascii_lower_nonempty|].
  exact (engine_comparison_agrees ascii_lower Claims.ascii_lower_nonempty
           (py "I know Python") [py "python"; py "rust"]).
Defined.

End EngineFacts.

Module CacheFacts.
Import Engine.

Lemma dict_get_set_same {V : Type} (d : list (str * V)) (k : str) (v : V) :
  dict_get str_eqb (dict_set str_eqb d k v) k = Some v.
Proof.
  induction d as [|[k' v'] d IH]; cbn [dict_set dict_get].
  - now rewrite str_eqb_refl.
  - destruct (str_eqb k' k) eqn:E; cbn [dict_get]; rewrite E; [reflexivity|exact IH].
Qed.

Lemma dict_get_set_other {V : Type} (d : list (str * V)) (k q : str) (v : V) :
  q <> k -> dict_get str_eqb (dict_set str_eqb d k v) q = dict_get str_eqb d q.
Proof.
  intros Hq. induction d as [|[k' v'] d IH]; cbn [dict_set dict_get].
  - destruct (str_eqb k q) eqn:E; [|reflexivity].
    apply str_eqb_eq in E. congruence.
  - destruct (str_eqb k' k) eqn:E; cbn [dict_get].
    + apply str_eqb_eq in E. subst k'.
      destruct (str_eqb k q) eqn:E'; [|reflexivity].
      apply str_eqb_eq in E'. congruence.
    + destruct (str_eqb k' q); [reflexivity|exact IH].
Qed.

(** A name that ends in [.doc] ends neither in [.pdf] nor in [.docx]. *)
Lemma endswith_doc (s : str) :
  endswith s (py ".doc") = true ->
  endswith s (py ".pdf") = false /\ endswith s (py ".docx") = false.
Proof.
  unfold endswith. intros H. apply andb_true_iff in H as [Hlen H].
  apply str_eqb_eq in H. apply Nat.leb_le in Hlen.
  change (length (py ".doc")) with 4%nat in *.
  change (length (py ".pdf")) with 4%nat. change (length (py ".docx")) with 5%nat.
  split.
  - apply andb_false_iff. right. rewrite H. reflexivity.
  - destruct (5 <=? length s) eqn:E5; [|reflexivity]. apply Nat.leb_le in E5.
    cbn [andb]. destruct (str_eqb (drop (length s - 5) s) (py ".docx")) eqn:E; [|reflexivity].
    apply str_eqb_eq in E.
    assert (Hd : drop (length s - 4) s = drop 1 (drop (length s - 5) s)).
    { rewrite drop_drop. f_equal. lia. }
    rewrite H, E in Hd. discriminate Hd.
Qed.

Section Cache.

Variable lower : str -> str.
Variable is_word : Z -> bool.
Variable exn_message : exn -> string.
Variable path_basename : str -> str.

Abbreviation load := (_load_cv_text lower is_word exn_message path_basename).

Lemma cache_entry_text (path : str) (exists_ : bool) (size : exn + Z)
    (result : PdfExtractor.extraction) (entry : CVData) :
  cache_entry path_basename path exists_ size result = Some entry ->
  extracted_text entry
  = (if PdfExtractor.success result then PdfExtractor.text result else [])
  /\ validation_status entry = PdfExtractor.success result.
Proof.
  unfold cache_entry. destruct (PdfExtractor.success result).
  - destruct (if exists_ then size else inr 0%Z); [discriminate|].
    intros H. injection H as <-. split; reflexivity.
  - intros H. injection H as <-. split; reflexivity.
Qed.

Lemma load_hit (pdf_env : str -> PdfExtractor.file_env)
    (docx_env : str -> DocxExtractor.file_env) (start_time end_time : float)
    (cv_cache : list (str * CVData)) (path : str) (cached : CVData) :
  dict_get str_eqb cv_cache path = Some cached ->
  load pdf_env docx_env start_time end_time cv_cache path
  = (extracted_text cached, cv_cache).
Proof. intros H. unfold _load_cv_text. now rewrite H. Qed.

(** What a miss does: the text comes with the unchanged cache, or with the
    cache extended by an entry holding that text. *)
Lemma load_miss (pdf_env : str -> PdfExtractor.file_env)
    (docx_env : str -> DocxExtractor.file_env) (start_time end_time : float)
    (cv_cache : list (str * CVData)) (path : str) :
  dict_get str_eqb cv_cache path = None ->
  let r := load pdf_env docx_env start_time end_time cv_cache path in
  snd r = cv_cache
  \/ exists entry,
       snd r = dict_set str_eqb cv_cache path entry /\ extracted_text entry = fst r.
Proof.
  intros H. unfold _load_cv_text. rewrite H.
  destruct (endswith (lower path) (py ".pdf")).
  { destruct (cache_entry _ _ _ _ _) as [entry|] eqn:E; [|left; reflexivity].
    right. exists entry. split; [reflexivity|].
    apply cache_entry_text in E as [E _]. exact E. }
  destruct (DocxExtractor.is_supported lower path); [|left; reflexivity].
  destruct (cache_entry _ _ _ _ _) as [entry|] eqn:E; [|left; reflexivity].
  right. exists entry. split; [reflexivity|].
  apply cache_entry_text in E as [E _]. exact E.
Qed.

(** X14: Loading a path leaves the cache entries of all other paths alone, never
    replaces an entry, and whenever the path has an entry afterwards, that
    entry holds the text just returned and every later load of the path
    returns the same text and cache, whatever the file system and the clock
    say by then. *)
Theorem cached_text_is_reused (pdf_env : str -> PdfExtractor.file_env)
    (docx_env : str -> DocxExtractor.file_env) (start_time end_time : float)
    (cv_cache : list (str * CVData)) (path : str) :
  let r := load pdf_env docx_env start_time end_time cv_cache path in
  (forall q, q <> path -> dict_get str_eqb (snd r) q = dict_get str_eqb cv_cache q)
  /\ (forall cached, dict_get str_eqb cv_cache path = Some cached ->
      r = (extracted_text cached, cv_cache))
  /\ (forall cached, dict_get str_eqb (snd r) path = Some cached ->
      extracted_text cached = fst r
      /\ forall pdf_env' docx_env' start_time' end_time',
           load pdf_env' docx_env' start_time' end_time' (snd r) path = r).
Proof.
  intros r. subst r.
  destruct (dict_get str_eqb cv_cache path) as [old|] eqn:Hget.
  - rewrite (load_hit pdf_env docx_env start_time end_time cv_cache path old Hget).
    cbn [fst snd]. split; [reflexivity|]. split.
    + intros cached H. now injection H as <-.
    + intros cached H. rewrite Hget in H. injection H as <-. split; [reflexivity|].
      intros. now apply load_hit.
  - pose proof (load_miss pdf_env docx_env start_time end_time cv_cache path Hget) as Hm.
    cbn zeta in Hm.
    destruct (load pdf_env docx_env start_time end_time cv_cache path) as [text cache'].
    cbn [fst snd] in *. destruct Hm as [-> | (entry & -> & Htext)].
    + split; [reflexivity|]. split; [discriminate|].
      intros cached H. rewrite Hget in H. discriminate H.
    + split; [intros q Hq; now apply dict_get_set_other|]. split; [discriminate|].
      intros cached H. rewrite dict_get_set_same in H. injection H as <-.
      split; [exact Htext|]. intros. rewrite <- Htext. apply load_hit.
      apply dict_get_set_same.
Qed.

(** X15: A CV file of a supported type that does not exist when it is first
    loaded is cached as a failure with empty text: the load returns the
    empty string, and so does every later load, also after the file has
    appeared. *)
Theorem missing_file_is_remembered (pdf_env : str -> PdfExtractor.file_env)
    (docx_env : str -> DocxExtractor.file_env) (start_time end_time : float)
    (cv_cache : list (str * CVData)) (path : str) :
  dict_get str_eqb cv_cache path = None ->
  endswith (lower path) (py ".pdf") = true \/ DocxExtractor.is_supported lower path = true ->
  PdfExtractor.path_exists (pdf_env path) = false ->
  DocxExtractor.path_exists (docx_env path) = false ->
  exists entry,
    load pdf_env docx_env start_time end_time cv_cache path
    = ([], dict_set str_eqb cv_cache path entry)
    /\ validation_status entry = false
    /\ extracted_text entry = []
    /\ forall pdf_env' docx_env' start_time' end_time',
         load pdf_env' docx_env' start_time' end_time'
           (dict_set str_eqb cv_cache path entry) path
         = ([], dict_set str_eqb cv_cache path entry).
Proof.
  intros Hget Hext Hpdf Hdocx.
  assert (Hlater : forall entry, extracted_text entry = [] ->
            forall pdf_env' docx_env' start_time' end_time',
              load pdf_env' docx_env' start_time' end_time'
                (dict_set str_eqb cv_cache path entry) path
              = ([], dict_set str_eqb cv_cache path entry)).
  { intros entry Htext pdf_env' docx_env' st' et'. rewrite <- Htext. apply load_hit.
    apply dict_get_set_same. }
  unfold _load_cv_text at 1. rewrite Hget.
  destruct (endswith (lower path) (py ".pdf")) eqn:Epdf.
  - unfold PdfExtractor.extract_text, PdfExtractor._validate_file. rewrite Hpdf.
    cbn [negb cache_entry PdfExtractor.success PdfExtractor.text PdfExtractor.error
         PdfExtractor.extraction_time].
    eexists. split; [reflexivity|]. split; [reflexivity|]. split; [reflexivity|].
    now apply Hlater.
  - destruct Hext as [Hext | Hext]; [discriminate|]. rewrite Hext.
    unfold DocxExtractor.extract_text, DocxExtractor._validate_file. rewrite Hdocx.
    destruct (endswith (lower path) (py ".doc")
              && negb (endswith (lower path) (py ".docx")));
      cbn [negb cache_entry PdfExtractor.success PdfExtractor.text PdfExtractor.error
           PdfExtractor.extraction_time];
      (eexists; split; [reflexivity|]; split; [reflexivity|]; split; [reflexivity|];
       now apply Hlater).
Qed.

(** X16: A legacy Word file (a name ending in [.doc], in any letter case) is
    never handed to an extractor: the loader leaves the cache as it is and,
    unless the cache already has an entry for the path, returns the empty
    string. *)
Theorem legacy_doc_is_not_loaded (pdf_env : str -> PdfExtractor.file_env)
    (docx_env : str -> DocxExtractor.file_env) (start_time end_time : float)
    (cv_cache : list (str * CVData)) (path : str) :
  endswith (lower path) (py ".doc") = true ->
  DocxExtractor.is_supported lower path = false
  /\ snd (load pdf_env docx_env start_time end_time cv_cache path) = cv_cache
  /\ (dict_get str_eqb cv_cache path = None ->
      load pdf_env docx_env start_time end_time cv_cache path = ([], cv_cache)).
Proof.
  intros Hdoc. apply endswith_doc in Hdoc as [Hpdf Hdocx].
  assert (Hsup : DocxExtractor.is_supported lower path = false).
  { unfold DocxExtractor.is_supported, DocxExtractor.supported_extensions.
    cbn [existsb]. now rewrite Hdocx. }
  split; [exact Hsup|]. unfold _load_cv_text. rewrite Hpdf, Hsup.
  destruct (dict_get str_eqb cv_cache path); split; try reflexivity. discriminate.
Qed.

End Cache.

Lemma missing_file_is_remembered_witness :
  dict_get str_eqb (@nil (str * CVData)) (py "cv/Jane.PDF") = None
  /\ (endswith (ascii_lower (py "cv/Jane.PDF")) (py ".pdf") = true
      \/ DocxExtractor.is_supported ascii_lower (py "cv/Jane.PDF") = true)
  /\ exists entry,
       _load_cv_text ascii_lower (fun _ => true) (fun _ => "error"%string) (fun p => p)
         (fun _ => Spec.missing_file)
         (fun _ => DocxExtractor.mkFileEnv false (inl OSError) false true (inl OSError))
         1 2 [] (py "cv/Jane.PDF")
       = ([], dict_set str_eqb [] (py "cv/Jane.PDF") entry)
       /\ validation_status entry = false
       /\ extracted_text entry = []
       /\ forall pdf_env' docx_env' start_time' end_time',
            _load_cv_text ascii_lower (fun _ => true) (fun _ => "error"%string) (fun p => p)
              pdf_env' docx_env' start_time' end_time'
              (dict_set str_eqb [] (py "cv/Jane.PDF") entry) (py "cv/Jane.PDF")
            = ([], dict_set str_eqb [] (py "cv/Jane.PDF") entry).
Proof.
  split; [reflexivity|]. split; [left; vm_compute; reflexivity|].
  apply (missing_file_is_remembered ascii_lower (fun _ => true) (fun _ => "error"%string)
           (fun p => p) (fun _ => Spec.missing_file)
           (fun _ => DocxExtractor.mkFileEnv false (inl OSError) false true (inl OSError))
           1 2 [] (py "cv/Jane.PDF")).
  - reflexivity.
  - left. vm_compute. reflexivity.
  - reflexivity.
  - reflexivity.
Defined.

Lemma legacy_doc_is_not_loaded_witness :
  endswith (ascii_lower (py "old/Resume.DOC")) (py ".doc") = true
  /\ DocxExtractor.is_supported ascii_lower (py "old/Resume.DOC") = false
  /\ snd (_load_cv_text ascii_lower (fun _ => true) (fun _ => "error"%string) (fun p => p)
            (fun _ => Spec.missing_file)
            (fun _ => DocxExtractor.mkFileEnv true (inr 10%Z) true true (inl OSError))
            1 2 [] (py "old/Resume.DOC")) = []
  /\ (dict_get str_eqb (@nil (str * CVData)) (py "old/Resume.DOC") = None ->
      _load_cv_text ascii_lower (fun _ => true) (fun _ => "error"%string) (fun p => p)
        (fun _ => Spec.missing_file)
        (fun _ => DocxExtractor.mkFileEnv true (inr 10%Z) true true (inl OSError))
        1 2 [] (py "old/Resume.DOC") = ([], [])).
Proof.
  split; [vm_compute; reflexivity|].
  apply (legacy_doc_is_not_loaded ascii_lower (fun _ => true) (fun _ => "error"%string)
           (fun p => p) (fun _ => Spec.missing_file)
           (fun _ => DocxExtractor.mkFileEnv true (inr 10%Z) true true (inl OSError))
           1 2 [] (py "old/Resume.DOC")).
  vm_compute. reflexivity.
Defined.

End CacheFacts.

(* ================================================================== *)
(** * Text cleaning *)

Module CleanFacts.
Import Cleaning SpecMore StripFacts.

Abbreviation nospace w := (Forall (fun c : Z => is_space c = false) w).

(** ** Stripping on the right *)

Lemma rstrip_snoc_space (s : str) (c : Z) : is_space c = true -> rstrip (s ++ [c]) = rstrip s.
Proof. intros Hc. unfold rstrip. rewrite rev_app_distr. cbn. now rewrite Hc. Qed.

Lemma rstrip_snoc_keep (s : str) (c : Z) : is_space c = false -> rstrip (s ++ [c]) = s ++ [c].
Proof.
  intros Hc. unfold rstrip. rewrite rev_app_distr. cbn. rewrite Hc.
  cbn. now rewrite rev_involutive.
Qed.

(** ** Words *)

Lemma split_from_words (P : Z -> Prop) (s : str) :
  forall cur,
    Forall P cur -> Forall P s -> nospace cur ->
    Forall (fun w => w <> [] /\ Forall (fun c => P c /\ is_space c = false) w)
      (split_from cur s).
Proof.
  induction s as [|c s IH]; intros cur Hcur Hs Hns; cbn [split_from].
  - destruct cur as [|a cur]; constructor; [|constructor].
    split; [discriminate|]. clear -Hcur Hns.
    induction Hcur as [|x l Hx Hl IH]; [constructor|]. inversion Hns; subst.
    constructor; [split; assumption|now apply IH].
  - inversion Hs as [|? ? Hc Hs']; subst. destruct (is_space c) eqn:Ec.
    + destruct cur as [|a cur]; [now apply IH|]. constructor; [|now apply IH].
      split; [discriminate|]. clear -Hcur Hns.
      induction Hcur as [|x l Hx Hl IH]; [constructor|]. inversion Hns; subst.
      constructor; [split; assumption|now apply IH].
    + apply IH; [|exact Hs'|].
      * apply Forall_app. split; [exact Hcur|]. constructor; [exact Hc|constructor].
      * apply Forall_app. split; [exact Hns|]. constructor; [exact Ec|constructor].
Qed.

Lemma split_from_nonempty (s cur : str) : cur <> [] -> split_from cur s <> [].
Proof.
  revert cur. induction s as [|c s IH]; intros cur Hcur; cbn [split_from].
  - destruct cur; [congruence|discriminate].
  - destruct (is_space c).
    + destruct cur; [congruence|discriminate].
    + apply IH. now destruct cur.
Qed.

Lemma split_from_word (w s cur : str) :
  nospace w -> split_from cur (w ++ s) = split_from (cur ++ w) s.
Proof.
  intros Hw. revert cur. induction Hw as [|c w Hc Hw IH]; intros cur.
  - now rewrite app_nil_r.
  - cbn [app split_from]. rewrite Hc, IH, <- app_assoc. reflexivity.
Qed.

(** Splitting undoes joining with single spaces. *)
Lemma split_join (ws : list str) :
  Forall (fun w => w <> [] /\ nospace w) ws -> split (join [32%Z] ws) = ws.
Proof.
  unfold split. induction 1 as [|w ws [Hne Hw] Hws IH]; [reflexivity|].
  destruct ws as [|w2 ws].
  - cbn [join]. pose proof (split_from_word w [] [] Hw) as E.
    rewrite app_nil_r in E. rewrite E. cbn [app split_from].
    destruct w; [congruence|reflexivity].
  - change (join [32%Z] (w :: w2 :: ws)) with (w ++ 32%Z :: join [32%Z] (w2 :: ws)).
    rewrite split_from_word by exact Hw. cbn [app split_from].
    change (is_space 32) with true. cbv iota. rewrite IH.
    destruct w; [congruence|reflexivity].
Qed.

(** A join of words ends with a character that is not whitespace. *)
Lemma join_last (ws : list str) :
  Forall (fun w => w <> [] /\ nospace w) ws -> ws <> [] ->
  exists body d, join [32%Z] ws = body ++ [d] /\ is_space d = false.
Proof.
  induction 1 as [|w ws [Hne Hw] Hws IH]; [congruence|]. intros _.
  destruct ws as [|w2 ws].
  - cbn [join]. destruct (exists_last Hne) as (body & d & ->). exists body, d.
    split; [reflexivity|]. apply Forall_app in Hw as [_ Hd]. now inversion Hd.
  - destruct IH as (body & d & E & Hd); [discriminate|].
    change (join [32%Z] (w :: w2 :: ws)) with (w ++ 32%Z :: join [32%Z] (w2 :: ws)).
    rewrite E. exists (w ++ 32%Z :: body), d. split; [|exact Hd].
    now rewrite <- app_assoc.
Qed.

(** ** Collapsing whitespace *)

Lemma lstrip_collapse_true (s : str) :
  lstrip (collapse_from true s) = collapse_from true s.
Proof.
  induction s as [|c s IH]; [reflexivity|]. cbn [collapse_from].
  destruct (is_space c) eqn:Ec; [exact IH|]. cbn [lstrip]. now rewrite Ec.
Qed.

Lemma lstrip_collapse (s : str) : lstrip (collapse_spaces s) = collapse_from true s.
Proof.
  unfold collapse_spaces. destruct s as [|c s]; [reflexivity|]. cbn [collapse_from].
  destruct (is_space c) eqn:Ec.
  - cbn [lstrip]. change (is_space 32) with true. cbv iota. apply lstrip_collapse_true.
  - cbn [lstrip]. now rewrite Ec.
Qed.

(** The collapsed text is the words joined by single spaces, followed by at
    most one space. *)
Lemma collapse_join (s : str) :
  (forall cur, cur <> [] ->
     exists t, (t = [] \/ t = [32%Z])
       /\ cur ++ collapse_from false s = join [32%Z] (split_from cur s) ++ t)
  /\ exists t, (t = [] \/ t = [32%Z])
       /\ collapse_from true s = join [32%Z] (split_from [] s) ++ t
       /\ (split_from [] s = [] -> t = []).
Proof.
  induction s as [|c s [IH1 IH2]].
  - split.
    + intros cur Hcur. exists []. split; [now left|]. cbn [split_from collapse_from].
      destruct cur; [congruence|]. cbn [join]. reflexivity.
    + exists []. repeat split. now left.
  - split.
    + intros cur Hcur. cbn [split_from collapse_from]. destruct (is_space c) eqn:Ec.
      * destruct IH2 as (t & Ht & E & Hnil). rewrite E.
        destruct cur as [|a cur]; [congruence|].
        destruct (split_from [] s) as [|w ws] eqn:Es.
        -- rewrite (Hnil eq_refl). exists [32%Z]. split; [now right|]. reflexivity.
        -- exists t. split; [exact Ht|].
           change (join [32%Z] ((a :: cur) :: w :: ws))
             with ((a :: cur) ++ 32%Z :: join [32%Z] (w :: ws)).
           now rewrite <- app_assoc.
      * destruct (IH1 (cur ++ [c])) as (t & Ht & E); [now destruct cur|].
        exists t. split; [exact Ht|]. rewrite <- E, <- app_assoc. reflexivity.
    + cbn [split_from collapse_from]. destruct (is_space c) eqn:Ec; [exact IH2|].
      destruct (IH1 [c]) as (t & Ht & E); [discriminate|].
      exists t. split; [exact Ht|]. split; [exact E|].
      intros H. exfalso. revert H. apply split_from_nonempty. discriminate.
Qed.

(** Collapsing and stripping is splitting and joining. *)
Lemma strip_collapse (s : str) : strip (collapse_spaces s) = join [32%Z] (split s).
Proof.
  unfold strip. rewrite lstrip_collapse. unfold split.
  destruct (collapse_join s) as (_ & t & Ht & -> & Hnil).
  assert (Hwords : Forall (fun w => w <> [] /\ nospace w) (split_from [] s)).
  { eapply List.Forall_impl;
      [|apply (split_from_words (fun _ => True) s []); try constructor].
    - cbn. intros w [Hne Hw]. split; [exact Hne|].
      eapply List.Forall_impl; [|exact Hw]. cbn. tauto.
    - clear. induction s; constructor; auto. }
  destruct (split_from [] s) as [|w ws] eqn:Es.
  - now rewrite (Hnil eq_refl).
  - destruct (join_last (w :: ws) Hwords) as (body & d & E & Hd); [discriminate|].
    rewrite E. destruct Ht as [-> | ->].
    + rewrite app_nil_r. now apply rstrip_snoc_keep.
    + rewrite rstrip_snoc_space by reflexivity. now apply rstrip_snoc_keep.
Qed.

(** ** The cleaning itself *)

Section Clean.

Variable is_word : Z -> bool.

Lemma kept_space : kept is_word 32 = true.
Proof.
  unfold kept. change (is_space 32) with true. rewrite orb_true_r. reflexivity.
Qed.

Lemma replace_special_kept (s : str) :
  Forall (fun c => kept is_word c = true) (replace_special is_word s).
Proof.
  unfold replace_special. induction s as [|c s IH]; [constructor|].
  cbn [map]. constructor; [|exact IH].
  destruct (kept is_word c) eqn:E; [exact E|apply kept_space].
Qed.

Lemma replace_special_id (s : str) :
  Forall (fun c => kept is_word c = true) s -> replace_special is_word s = s.
Proof.
  unfold replace_special. induction 1 as [|c s Hc _ IH]; [reflexivity|].
  cbn [map]. now rewrite Hc, IH.
Qed.

Lemma clean_text_unfold (raw_text : str) :
  _clean_text is_word raw_text
  = join [32%Z] (split (replace_special is_word (join [32%Z] (split raw_text)))).
Proof.
  destruct raw_text as [|c s]; [reflexivity|]. unfold _clean_text.
  apply strip_collapse.
Qed.

Lemma clean_words_good (ws : list str) :
  Forall (clean_word is_word) ws -> Forall (fun w => w <> [] /\ nospace w) ws.
Proof.
  intros H. eapply List.Forall_impl; [|exact H]. cbn. intros w [Hne Hw].
  split; [exact Hne|]. eapply List.Forall_impl; [|exact Hw]. cbn. tauto.
Qed.

Lemma join_kept (ws : list str) :
  Forall (clean_word is_word) ws ->
  Forall (fun c => kept is_word c = true) (join [32%Z] ws).
Proof.
  induction 1 as [|w ws [_ Hw] _ IH]; [constructor|].
  assert (Hk : Forall (fun c => kept is_word c = true) w).
  { eapply List.Forall_impl; [|exact Hw]. cbn. tauto. }
  destruct ws as [|w2 ws]; [exact Hk|].
  change (join [32%Z] (w :: w2 :: ws)) with (w ++ 32%Z :: join [32%Z] (w2 :: ws)).
  apply Forall_app. split; [exact Hk|]. constructor; [apply kept_space|exact IH].
Qed.

(** X17: The cleaned text consists of words separated by single spaces: it has
    no leading, trailing or doubled whitespace, no whitespace other than
    the space, and no character outside the letters, digits, underscore and
    [-.,;:!?()]. *)
Theorem clean_text_is_single_spaced (raw_text : str) :
  exists words,
    _clean_text is_word raw_text = join [32%Z] words
    /\ Forall (clean_word is_word) words
    /\ split (_clean_text is_word raw_text) = words.
Proof.
  rewrite clean_text_unfold.
  set (x := replace_special is_word (join [32%Z] (split raw_text))).
  assert (Hw : Forall (clean_word is_word) (split x)).
  { unfold split. apply (split_from_words (fun c => kept is_word c = true) x []).
    - constructor.
    - apply replace_special_kept.
    - constructor. }
  exists (split x). split; [reflexivity|]. split; [exact Hw|].
  apply split_join, clean_words_good, Hw.
Qed.

(** X18: Cleaning a cleaned text changes nothing. *)
Theorem clean_text_idempotent (raw_text : str) :
  _clean_text is_word (_clean_text is_word raw_text) = _clean_text is_word raw_text.
Proof.
  rewrite (clean_text_unfold (_clean_text is_word raw_text)).
  rewrite (clean_text_unfold raw_text).
  set (x := replace_special is_word (join [32%Z] (split raw_text))).
  assert (Hw : Forall (clean_word is_word) (split x)).
  { unfold split. apply (split_from_words (fun c => kept is_word c = true) x []).
    - constructor.
    - apply replace_special_kept.
    - constructor. }
  rewrite (split_join (split x)) by apply clean_words_good, Hw.
  rewrite replace_special_id by apply join_kept, Hw.
  rewrite (split_join (split x)) by apply clean_words_good, Hw.
  reflexivity.
Qed.

End Clean.

End CleanFacts.

(* ================================================================== *)
(** * When an extraction succeeds *)

Module ExtractorMore.
Import CacheFacts.

Section Pdf.

Variable lower : str -> str.
Variable _clean_text : str -> str.
Variable exn_message : exn -> string.

Lemma pdf_validate_iff (file_path : str) (env : PdfExtractor.file_env) :
  PdfExtractor._validate_file lower file_path env = true
  <-> PdfExtractor.path_exists env = true
      /\ endswith (lower file_path) (py ".pdf") = true
      /\ (exists size, PdfExtractor.getsize env = inr size /\ (size <= 52428800)%Z)
      /\ PdfExtractor.readable env = true.
Proof.
  unfold PdfExtractor._validate_file, PdfExtractor.max_file_size.
  destruct (PdfExtractor.path_exists env); cbn [negb];
    [|split; [discriminate|intros [H _]; discriminate H]].
  destruct (endswith (lower file_path) (py ".pdf")); cbn [negb];
    [|split; [discriminate|intros (_ & H & _); discriminate H]].
  destruct (PdfExtractor.getsize env) as [e|size];
    [split; [discriminate|intros (_ & _ & (size & H & _) & _); discriminate H]|].
  change (50 * 1024 * 1024)%Z with 52428800%Z.
  destruct (Z.ltb_spec 52428800 size).
  { split; [discriminate|]. intros (_ & _ & (size' & H' & Hle) & _).
    injection H' as ->. lia. }
  destruct (PdfExtractor.readable env); cbn [negb];
    [|split; [discriminate|intros (_ & _ & _ & H'); discriminate H']].
  split; [|reflexivity]. intros _. repeat split. exists size. split; [reflexivity|lia].
Qed.

(** X19: The PDF extraction succeeds exactly when the file exists, its name ends
    in [.pdf] in any letter case, its size can be read and is at most 50 MB,
    it is readable, pdfminer is installed and pdfminer's extraction does not
    raise.  A success carries the cleaned text and no error message; a
    failure carries an error message and the empty text. *)
Theorem pdf_extraction_succeeds_iff (file_path : str) (env : PdfExtractor.file_env)
    (start_time end_time : float) :
  let r :=
    PdfExtractor.extract_text lower _clean_text exn_message file_path env
      start_time end_time in
  (PdfExtractor.success r = true
   <-> PdfExtractor.path_exists env = true
       /\ endswith (lower file_path) (py ".pdf") = true
       /\ (exists size, PdfExtractor.getsize env = inr size /\ (size <= 52428800)%Z)
       /\ PdfExtractor.readable env = true
       /\ PdfExtractor.pdf_available env = true
       /\ exists raw, PdfExtractor.pdfminer_extract_text env = inr raw)
  /\ (PdfExtractor.success r = true <-> PdfExtractor.error r = None)
  /\ (PdfExtractor.success r = false -> PdfExtractor.text r = [])
  /\ (forall raw, PdfExtractor.success r = true ->
      PdfExtractor.pdfminer_extract_text env = inr raw ->
      PdfExtractor.text r = _clean_text raw).
Proof.
  intros r. subst r. unfold PdfExtractor.extract_text.
  pose proof (pdf_validate_iff file_path env) as Hv.
  destruct (PdfExtractor._validate_file lower file_path env); cbn [negb].
  2:{ cbn. repeat split; try discriminate.
      intros (H1 & H2 & H3 & H4 & _).
      assert (false = true) by (apply Hv; auto). discriminate. }
  destruct Hv as [Hv _]. specialize (Hv eq_refl). destruct Hv as (H1 & H2 & H3 & H4).
  destruct (PdfExtractor.pdf_available env); cbn [negb].
  2:{ cbn. repeat split; try discriminate. intros (_ & _ & _ & _ & H & _).
      discriminate H. }
  destruct (PdfExtractor.pdfminer_extract_text env) as [e|raw]; cbn.
  - repeat split; try discriminate. intros (_ & _ & _ & _ & _ & raw & H). discriminate H.
  - repeat split; try assumption; try discriminate.
    + now exists raw.
    + intros raw' _ H. now injection H as <-.
Qed.

End Pdf.

Section Docx.

Variable lower : str -> str.
Variable is_word : Z -> bool.
Variable exn_message : exn -> string.

Lemma docx_validate_iff (file_path : str) (env : DocxExtractor.file_env) :
  DocxExtractor._validate_file lower file_path env = true
  <-> DocxExtractor.path_exists env = true
      /\ endswith (lower file_path) (py ".docx") = true
      /\ (exists size, DocxExtractor.getsize env = inr size /\ (size <= 52428800)%Z)
      /\ DocxExtractor.readable env = true.
Proof.
  unfold DocxExtractor._validate_file, DocxExtractor.max_file_size,
    DocxExtractor.supported_extensions. cbn [existsb]. rewrite orb_false_r.
  destruct (DocxExtractor.path_exists env); cbn [negb];
    [|split; [discriminate|intros [H _]; discriminate H]].
  destruct (endswith (lower file_path) (py ".docx")); cbn [negb];
    [|split; [discriminate|intros (_ & H & _); discriminate H]].
  destruct (DocxExtractor.getsize env) as [e|size];
    [split; [discriminate|intros (_ & _ & (size & H & _) & _); discriminate H]|].
  change (50 * 1024 * 1024)%Z with 52428800%Z.
  destruct (Z.ltb_spec 52428800 size).
  { split; [discriminate|]. intros (_ & _ & (size' & H' & Hle) & _).
    injection H' as ->. lia. }
  destruct (DocxExtractor.readable env); cbn [negb];
    [|split; [discriminate|intros (_ & _ & _ & H'); discriminate H']].
  split; [|reflexivity]. intros _. repeat split. exists size. split; [reflexivity|lia].
Qed.

(** X20: The DOCX extraction succeeds exactly when the file exists, its name
    ends in [.docx] in any letter case, its size can be read and is at most
    50 MB, it is readable, python-docx is installed and opening the document
    does not raise.  A success carries the cleaned text of the paragraphs
    and table cells and no error message; a failure carries an error message
    and the empty text. *)
Theorem docx_extraction_succeeds_iff (file_path : str) (env : DocxExtractor.file_env)
    (start_time end_time : float) :
  let r :=
    DocxExtractor.extract_text lower is_word exn_message file_path env
      start_time end_time in
  (PdfExtractor.success r = true
   <-> DocxExtractor.path_exists env = true
       /\ endswith (lower file_path) (py ".docx") = true
       /\ (exists size, DocxExtractor.getsize env = inr size /\ (size <= 52428800)%Z)
       /\ DocxExtractor.readable env = true
       /\ DocxExtractor.docx_available env = true
       /\ exists doc, DocxExtractor.open_document env = inr doc)
  /\ (PdfExtractor.success r = true <-> PdfExtractor.error r = None)
  /\ (PdfExtractor.success r = false -> PdfExtractor.text r = [])
  /\ (forall doc, PdfExtractor.success r = true ->
      DocxExtractor.open_document env = inr doc ->
      PdfExtractor.text r
      = Cleaning._clean_text is_word (DocxExtractor._extract_text_from_docx doc)).
Proof.
  intros r. subst r. unfold DocxExtractor.extract_text.
  pose proof (docx_validate_iff file_path env) as Hv.
  destruct (endswith (lower file_path) (py ".doc")
            && negb (endswith (lower file_path) (py ".docx"))) eqn:Elegacy.
  { apply andb_true_iff in Elegacy as [_ E]. apply negb_true_iff in E.
    cbn [PdfExtractor.success PdfExtractor.error PdfExtractor.text]. repeat split; try discriminate. intros (_ & H & _). congruence. }
  destruct (DocxExtractor._validate_file lower file_path env); cbn [negb].
  2:{ cbn [PdfExtractor.success PdfExtractor.error PdfExtractor.text]. repeat split; try discriminate.
      intros (H1 & H2 & H3 & H4 & _).
      assert (false = true) by (apply Hv; auto). discriminate. }
  destruct Hv as [Hv _]. specialize (Hv eq_refl). destruct Hv as (H1 & H2 & H3 & H4).
  destruct (DocxExtractor.docx_available env); cbn [negb].
  2:{ cbn [PdfExtractor.success PdfExtractor.error PdfExtractor.text]. repeat split; try discriminate. intros (_ & _ & _ & _ & H & _).
      discriminate H. }
  destruct (DocxExtractor.open_document env) as [e|doc];
    cbn [PdfExtractor.success PdfExtractor.error PdfExtractor.text].
  - repeat split; try discriminate. intros (_ & _ & _ & _ & _ & doc & H). discriminate H.
  - repeat split; try assumption; try discriminate.
    + now exists doc.
    + intros doc' _ H. now injection H as <-.
Qed.

(** X21: A legacy Word file (a name ending in [.doc], in any letter case) is
    rejected with the legacy-format message before anything is asked of the
    file system, so also when the file does not exist; the elapsed time is
    recorded. *)
Theorem docx_legacy_rejected (file_path : str) (env : DocxExtractor.file_env)
    (start_time end_time : float) :
  endswith (lower file_path) (py ".doc") = true ->
  DocxExtractor.extract_text lower is_word exn_message file_path env start_time end_time
  = PdfExtractor.mkExtraction false [] (Some DocxExtractor.legacy_message)
      (end_time - start_time)%float.
Proof.
  intros Hdoc. unfold DocxExtractor.extract_text.
  destruct (endswith_doc _ Hdoc) as [_ Hdocx]. rewrite Hdoc, Hdocx. reflexivity.
Qed.

End Docx.

Lemma docx_legacy_rejected_witness :
  endswith (ascii_lower (py "old/Resume.DOC")) (py ".doc") = true
  /\ DocxExtractor.extract_text ascii_lower (fun _ => true) (fun _ => "error"%string)
       (py "old/Resume.DOC")
       (DocxExtractor.mkFileEnv false (inl OSError) false true (inl OSError)) 1 3
     = PdfExtractor.mkExtraction false [] (Some DocxExtractor.legacy_message) (3 - 1)%float.
Proof.
  split; [vm_compute; reflexivity|].
  apply (docx_legacy_rejected ascii_lower (fun _ => true) (fun _ => "error"%string)
           (py "old/Resume.DOC")
           (DocxExtractor.mkFileEnv false (inl OSError) false true (inl OSError)) 1 3).
  vm_compute. reflexivity.
Defined.

End ExtractorMore.

(* ================================================================== *)
(** * The command line *)

Module AppFacts.
Import Algorithms Analyzer Spec SpecMore StripFacts AnalyzeFacts AnalyzerMore App.

(** ** Algorithm names *)




(** ** Keywords *)

Lemma lstrip_fixed (s : str) (c : Z) : is_space c = false -> lstrip (c :: s) = c :: s.
Proof. intros H. cbn [lstrip]. now rewrite H. Qed.

Lemma lstrip_idempotent (s : str) : lstrip (lstrip s) = lstrip s.
Proof.
  induction s as [|c s IH]; [reflexivity|]. cbn [lstrip].
  destruct (is_space c) eqn:E; [exact IH|]. now apply lstrip_fixed.
Qed.

Lemma rstrip_idempotent (s : str) : rstrip (rstrip s) = rstrip s.
Proof. unfold rstrip. now rewrite rev_involutive, lstrip_idempotent. Qed.

Lemma strip_idempotent (s : str) : strip (strip s) = strip s.
Proof.
  unfold strip. destruct (lstrip s) as [|c x] eqn:E; [reflexivity|].
  pose proof (lstrip_head s c x E) as Hc.
  destruct (rstrip_cons c x Hc) as (x' & Hx). rewrite Hx, (lstrip_fixed x' c Hc), <- Hx.
  apply rstrip_idempotent.
Qed.

Lemma in_lstrip (s : str) (c : Z) : In c (lstrip s) -> In c s.
Proof.
  induction s as [|d s IH]; [tauto|]. cbn [lstrip].
  destruct (is_space d); [|tauto]. intros H. right. now apply IH.
Qed.

Lemma in_strip (s : str) (c : Z) : In c (strip s) -> In c s.
Proof.
  unfold strip, rstrip. intros H. apply in_lstrip. apply in_rev.
  apply in_lstrip. now apply in_rev in H.
Qed.

Lemma split_on_fields (sep : Z) (s : str) :
  split_on sep s <> [] /\ Forall (fun field => ~ In sep field) (split_on sep s).
Proof.
  induction s as [|c s [Hne IH]]; cbn [split_on].
  - split; [discriminate|]. repeat constructor. tauto.
  - destruct (Z.eqb_spec c sep) as [-> | Hc].
    + split; [discriminate|]. constructor; [tauto|exact IH].
    + destruct (split_on sep s) as [|field fields]; [congruence|].
      split; [discriminate|]. inversion IH as [|? ? Hf Hfs]; subst.
      constructor; [|exact Hfs]. intros [H | H]; [congruence|tauto].
Qed.

Lemma cli_keywords_clean (keywords_csv : str) :
  Forall (fun k => k <> [] /\ strip k = k /\ blank k = false /\ ~ In 44%Z k)
    (cli_keywords keywords_csv).
Proof.
  unfold cli_keywords. destruct (split_on_fields 44 keywords_csv) as [_ H].
  induction H as [|field fields Hf _ IH]; [constructor|]. cbn [flat_map].
  destruct (strip field) as [|c x] eqn:E; [exact IH|]. cbn [app].
  constructor; [|exact IH]. rewrite <- E. split; [rewrite E; discriminate|].
  split; [apply strip_idempotent|]. split.
  - apply strip_not_blank. rewrite E. discriminate.
  - intros Hin. apply Hf. now apply in_strip.
Qed.

Lemma searched_keywords_clean (kws : list str) :
  Forall (fun k => strip k = k /\ blank k = false) kws -> searched_keywords kws = kws.
Proof.
  unfold searched_keywords. induction 1 as [|k kws [Hs Hb] _ IH]; [reflexivity|].
  cbn [map List.filter]. rewrite Hs, Hb. cbn [negb]. now rewrite IH.
Qed.

Lemma filter_split_length {A : Type} (f : A -> bool) (l : list A) :
  length (List.filter f l) + length (List.filter (fun x => negb (f x)) l) = length l.
Proof.
  induction l as [|a l IH]; [reflexivity|]. cbn [List.filter].
  destruct (f a); cbn [negb length]; lia.
Qed.

(** X23: The keywords read from the comma-separated command-line argument are
    stripped, not blank and free of commas.  With them no keyword is skipped:
    the analysis searches every one of them, and the matched and the missing
    keywords together are as many as [total_keywords]. *)
Theorem cli_keywords_all_searched (lower : str -> str) (keywords_csv cv_text : str)
    (algorithm : string) (cs : bool) :
  (forall s : str, s <> [] -> lower s <> []) ->
  known_algorithm algorithm ->
  Forall (fun k => k <> [] /\ strip k = k /\ blank k = false /\ ~ In 44%Z k)
    (cli_keywords keywords_csv)
  /\ searched_keywords (cli_keywords keywords_csv) = cli_keywords keywords_csv
  /\ exists r,
       analyze_cv lower cv_text (cli_keywords keywords_csv) algorithm cs = Return r
       /\ total_keywords r = length (cli_keywords keywords_csv)
       /\ (cv_text <> [] ->
           length (matched_keywords r) + length (missing_keywords r) = total_keywords r
           /\ forall k, In k (cli_keywords keywords_csv) ->
                In k (matched_keywords r) \/ In k (missing_keywords r)).
Proof.
  intros Hlower Hk. pose proof (cli_keywords_clean keywords_csv) as Hclean.
  assert (Hs : searched_keywords (cli_keywords keywords_csv) = cli_keywords keywords_csv).
  { apply searched_keywords_clean. eapply List.Forall_impl; [|exact Hclean].
    cbn. tauto. }
  split; [exact Hclean|]. split; [exact Hs|].
  destruct cv_text as [|ch text].
  { eexists. split; [reflexivity|]. split; [reflexivity|]. congruence. }
  destruct (cli_keywords keywords_csv) as [|kw kws] eqn:Ekw.
  { eexists. split; [reflexivity|]. split; [reflexivity|]. intros _.
    split; [reflexivity|]. intros k []. }
  unfold analyze_cv.
  destruct (keyword_loop_classifies lower Hlower (ch :: text) algorithm cs (kw :: kws)
              Hk [] [] 0) as (c' & ->).
  cbn [bind app matched_keywords missing_keywords total_keywords].
  eexists. split; [reflexivity|].
  cbn [matched_keywords missing_keywords total_keywords]. split; [reflexivity|].
  intros _. rewrite Hs. split; [apply filter_split_length|].
  intros k Hin. rewrite !List.filter_In.
  destruct (keyword_found lower cs (ch :: text) k); [left|right]; auto.
Qed.

Lemma cli_keywords_all_searched_witness :
  (forall s : str, s <> [] -> ascii_lower s <> [])
  /\ known_algorithm "KMP"
  /\ Forall (fun k => k <> [] /\ strip k = k /\ blank k = false /\ ~ In 44%Z k)
       (cli_keywords (py " Python, ,SQL ,,"))
  /\ searched_keywords (cli_keywords (py " Python, ,SQL ,,"))
     = cli_keywords (py " Python, ,SQL ,,")
  /\ exists r,
       analyze_cv ascii_lower (py "I know Python") (cli_keywords (py " Python, ,SQL ,,"))
         "KMP" false = Return r
       /\ total_keywords r = length (cli_keywords (py " Python, ,SQL ,,"))
       /\ (py "I know Python" <> [] ->
           length (matched_keywords r) + length (missing_keywords r) = total_keywords r
           /\ forall k, In k (cli_keywords (py " Python, ,SQL ,,")) ->
                In k (matched_keywords r) \/ In k (missing_keywords r)).
Proof.
  assert (Hk : known_algorithm "KMP") by (right; right; reflexivity).
  split; [exact Claims.ascii_lower_nonempty|]. split; [exact Hk|].
  exact (cli_keywords_all_searched ascii_lower (py " Python, ,SQL ,,") (py "I know Python")
           "KMP" false Claims.ascii_lower_nonempty Hk).
Defined.

End AppFacts.

(* ================================================================== *)
(** * Buckets of the performance runner *)

Module BucketFacts.
Import PerformanceRunner.

Lemma insert_sorted_perm (x : nat) (l : list nat) : Permutation (insert_sorted x l) (x :: l).
Proof.
  induction l as [|y l IH]; [reflexivity|]. cbn [insert_sorted].
  destruct (x <=? y); [reflexivity|]. rewrite IH. apply perm_swap.
Qed.

Lemma sorted_perm (l : list nat) : Permutation (sorted l) l.
Proof.
  induction l as [|x l IH]; [reflexivity|]. cbn [sorted].
  rewrite insert_sorted_perm. now constructor.
Qed.

Lemma insert_sorted_sorted (x : nat) (l : list nat) :
  StronglySorted le l -> StronglySorted le (insert_sorted x l).
Proof.
  induction 1 as [|y l Hl IH Hy]; cbn [insert_sorted].
  - repeat constructor.
  - destruct (Nat.leb_spec x y).
    + constructor; [now constructor|]. constructor; [exact H|].
      eapply List.Forall_impl; [|exact Hy]. cbn. lia.
    + constructor; [exact IH|].
      eapply Permutation_Forall; [symmetry; apply insert_sorted_perm|].
      constructor; [lia|exact Hy].
Qed.

Lemma sorted_sorted (l : list nat) : StronglySorted le (sorted l).
Proof.
  induction l as [|x l IH]; [constructor|]. now apply insert_sorted_sorted.
Qed.

(** In an ascending list, nothing up to position [k] exceeds the entry at
    position [k]. *)
Lemma sorted_prefix_le (l : list nat) :
  StronglySorted le l ->
  forall k m, l !! k = Some m -> Forall (fun x => x <= m) (take (S k) l).
Proof.
  induction 1 as [|y l Hl IH Hy]; intros k m Hk; [discriminate|].
  destruct k as [|k]; cbn in Hk.
  - injection Hk as <-. cbn. repeat constructor.
  - cbn [take]. constructor; [|now apply IH].
    rewrite List.Forall_forall in Hy. apply Hy. apply list_elem_of_In.
    eapply list_elem_of_lookup_2. exact Hk.
Qed.

Lemma filter_all_false {A : Type} (f : A -> bool) (l : list A) :
  Forall (fun x => f x = false) l -> List.filter f l = [].
Proof. induction 1 as [|x l Hx _ IH]; [reflexivity|]. cbn [List.filter]. now rewrite Hx. Qed.

Lemma filter_length_le {A : Type} (f : A -> bool) (l : list A) :
  length (List.filter f l) <= length l.
Proof.
  induction l as [|x l IH]; [reflexivity|]. cbn [List.filter].
  destruct (f x); cbn [length]; lia.
Qed.

Lemma filter_length_perm {A : Type} (f : A -> bool) (l l' : list A) :
  Permutation l l' -> length (List.filter f l) = length (List.filter f l').
Proof.
  induction 1 as [|x l l' _ IH|x y l|l l' l'' _ IH1 _ IH2]; cbn [List.filter].
  - reflexivity.
  - destruct (f x); cbn [length]; lia.
  - destruct (f x), (f y); reflexivity.
  - lia.
Qed.

Lemma filter_length_map {A B : Type} (g : A -> B) (f : B -> bool) (l : list A) :
  length (List.filter (fun a => f (g a)) l) = length (List.filter f (map g l)).
Proof.
  induction l as [|a l IH]; [reflexivity|]. cbn [map List.filter].
  destruct (f (g a)); cbn [length]; lia.
Qed.

(** Fewer than half of the entries exceed the upper median. *)
Lemma above_median (l : list nat) (median : nat) :
  sorted l !! (length l / 2) = Some median ->
  length (List.filter (fun x => median <? x) l) < length l - length l / 2.
Proof.
  intros Hm.
  rewrite (filter_length_perm _ l (sorted l)) by (symmetry; apply sorted_perm).
  assert (Hlen : length (sorted l) = length l) by apply Permutation_length, sorted_perm.
  pose proof (lookup_lt_Some _ _ _ Hm) as Hlt. rewrite Hlen in Hlt.
  rewrite <- (take_drop (S (length l / 2)) (sorted l)), List.filter_app.
  rewrite filter_all_false.
  - cbn [app]. pose proof (filter_length_le (fun x => median <? x)
                             (drop (S (length l / 2)) (sorted l))) as H.
    rewrite length_drop, Hlen in H. lia.
  - eapply List.Forall_impl; [|apply (sorted_prefix_le _ (sorted_sorted l) _ _ Hm)].
    cbn. intros x Hx. apply Nat.ltb_ge. exact Hx.
Qed.

Lemma filter_sublist {A : Type} (f : A -> bool) (l : list A) : sublist (List.filter f l) l.
Proof.
  induction l as [|a l IH]; [constructor|]. cbn [List.filter].
  destruct (f a); now constructor.
Qed.

Lemma filter_complement_perm {A : Type} (f g : A -> bool) (l : list A) :
  (forall a, g a = negb (f a)) ->
  Permutation (List.filter f l ++ List.filter g l) l.
Proof.
  intros Hg. induction l as [|a l IH]; [reflexivity|]. cbn [List.filter].
  rewrite Hg. destruct (f a); cbn [negb app].
  - now constructor.
  - rewrite <- Permutation_middle. now constructor.
Qed.

(** X24: [_bucket_by_size] never fails.  It splits the items, keeping their
    order, into a Small and a Large bucket such that every Small item has a
    strictly shorter text than every Large one, and for a non-empty input the
    Small bucket holds more items than the Large one, so it is never empty. *)
Theorem bucket_by_size_splits (items : list CVItem) :
  exists small large,
    _bucket_by_size items = Return [("Small"%string, small); ("Large"%string, large)]
    /\ Permutation (small ++ large) items
    /\ sublist small items /\ sublist large items
    /\ (forall a b, In a small -> In b large -> text_length a < text_length b)
    /\ (items <> [] -> length large < length small).
Proof.
  unfold _bucket_by_size. destruct items as [|it items].
  { exists [], []. split; [reflexivity|]. split; [reflexivity|].
    split; [constructor|]. split; [constructor|]. split; [intros a b []|congruence]. }
  set (all := it :: items).
  set (lengths := sorted (map text_length all)).
  assert (Hlen : length lengths = length all).
  { unfold lengths. rewrite (Permutation_length (sorted_perm _)). apply length_map. }
  destruct (getitem_lt lengths (length lengths / 2)) as (median & Hm & ->).
  { rewrite Hlen. apply Nat.div_lt; [cbn; lia|lia]. }
  cbn [bind]. eexists _, _. split; [reflexivity|].
  assert (Hneg : forall a : CVItem, (median <? text_length a) = negb (text_length a <=? median)).
  { intros a. destruct (Nat.leb_spec (text_length a) median);
      [now apply Nat.ltb_ge|now apply Nat.ltb_lt]. }
  split; [now apply filter_complement_perm|].
  split; [apply filter_sublist|]. split; [apply filter_sublist|]. split.
  - intros a b Ha Hb. apply List.filter_In in Ha as [_ Ha], Hb as [_ Hb].
    apply Nat.leb_le in Ha. apply Nat.ltb_lt in Hb. lia.
  - intros _.
    pose proof (Permutation_length (filter_complement_perm _ _ all Hneg)) as Hsum.
    rewrite length_app in Hsum.
    pose proof (above_median (map text_length all) median) as Hab.
    rewrite length_map, <- Hlen in Hab. specialize (Hab Hm).
    rewrite <- (filter_length_map text_length (fun x => median <? x)) in Hab.
    rewrite Hlen in Hab.
    pose proof (Nat.div_mod_eq (length all) 2) as Hdiv.
    pose proof (Nat.mod_upper_bound (length all) 2 ltac:(lia)) as Hmod.
    lia.
Qed.

End BucketFacts.
